(** * Feature-definition compilation (back-end/src/services/features.ts)

    A shallow embedding of the feature services of the back end: the value
    coercer [getJSONValue], the weight normalizer [roundVariationWeight],
    the rule compiler and assembler inside [getFeatureDefinitions], and the
    two feature services [createFeatureService] and [updateFeatureService].

    JavaScript numbers are IEEE-754 binary64 values: they are modelled by
    the kernel's primitive floats, whose operations are specified by
    [SpecFloat] through [FloatAxioms].  JavaScript objects used as maps are
    [gmap]s of their own properties (the object [getFeatureDefinitions]
    builds also has its prototype, which an assignment to ["__proto__"]
    replaces), exceptions are a [result] type, and the services run in a
    small state and error monad over the calls they make to their
    collaborators. *)

From Stdlib Require Import ZArith Bool List Ascii String Lia.
From Stdlib Require Import Floats.
From stdpp Require Import base option list gmap strings.

Import ListNotations.
Set Warnings "-register-all,-inexact-float".
#[local] Open Scope string_scope.
#[local] Open Scope Z_scope.

(** ** JavaScript values *)

(** The values [JSON.parse] produces and the compiled payload carries. *)
Inductive json : Type :=
| JNull
| JBool (b : bool)
| JNum (x : float)
| JStr (s : string)
| JArr (items : list json)
| JObj (fields : list (string * json)).

(** An [Error] object, reduced to its message. *)
Record Error : Type := mkError { message : string }.

(** The outcome of an expression that may throw. *)
Inductive result (A : Type) : Type :=
| Return (a : A)
| Throw (e : Error).
Arguments Return {A} a.
Arguments Throw {A} e.

(** [try { return body } catch (e) { return fallback }] *)
Definition try_catch {A} (body : result A) (fallback : Error -> A) : A :=
  match body with
  | Return a => a
  | Throw e => fallback e
  end.

(** The host functions the services call.  They belong to the JavaScript
    runtime, not to the repository, so every definition and theorem below is
    stated for an arbitrary host; [reference_host] further down is one. *)
Class Host : Type := {
  JSON_parse : string -> result json;
  JSON_stringify : json -> string;
  parseFloat : string -> float;
  Number_toString : float -> string
}.

(** *** Truthiness and the [||] operator on numbers *)

Definition truthy_string (s : string) : bool :=
  negb (String.eqb s "").

Definition truthy_opt_string (o : option string) : bool :=
  match o with
  | Some s => truthy_string s
  | None => false
  end.

Definition truthy_opt_bool (o : option bool) : bool :=
  match o with
  | Some b => b
  | None => false
  end.

(** A number is falsy when it is [NaN], [+0] or [-0]. *)
Definition truthy_number (x : float) : bool :=
  negb (PrimFloat.is_nan x || PrimFloat.is_zero x).

(** [x || 0] *)
Definition or_zero (x : float) : float :=
  if truthy_number x then x else 0%float.

(** [===] on numbers. *)
Definition strict_eq_number (x y : float) : bool := PrimFloat.eqb x y.

(** *** [Math.round]

    [Math.round(x)] is [x] when [x] is not finite or already integral, and
    otherwise the integer [floor(x + 1/2)], computed exactly, with the sign
    of [x] kept when that integer is zero.  A finite binary64 number with a
    negative exponent is [n * 2^e] for an integer [n], so the floor is the
    integer quotient below; it is below [2^53] in magnitude and therefore a
    binary64 number. *)
Definition SF_round_half_up (x : spec_float) : spec_float :=
  match x with
  | S754_finite s m e =>
      if 0 <=? e then x
      else
        let n := cond_Zopp s (Zpos m) in
        let k := (2 * n + 2 ^ (- e)) / 2 ^ (1 - e) in
        if k =? 0 then S754_zero s
        else binary_normalize prec emax k 0 false
  | _ => x
  end.

Definition Math_round (x : float) : float :=
  SF2Prim (SF_round_half_up (Prim2SF x)).

(** ** The weight normalizer *)

Definition roundVariationWeight (num : float) : float :=
  (Math_round (num * 1000) / 1000)%float.

(** [(w) => (w < 0 ? 0 : w > 1 ? 1 : w)], the clamp applied to each
    variation weight before [roundVariationWeight]. *)
Definition clampWeight (w : float) : float :=
  if (w <? 0)%float then 0%float
  else if (1 <? w)%float then 1%float
  else w.

(** The two steps together, as the experiment branch applies them. *)
Definition normalizeWeight (w : float) : float :=
  roundVariationWeight (clampWeight w).

(** [r.coverage > 1 ? 1 : r.coverage < 0 ? 0 : r.coverage] *)
Definition clampCoverage (coverage : float) : float :=
  if (1 <? coverage)%float then 1%float
  else if (coverage <? 0)%float then 0%float
  else coverage.

(** ** Stored documents (types/feature) *)

Record ExperimentValue : Type := {
  ev_value : string;
  ev_weight : float;
  ev_name : option string
}.

(** A namespace range bound is declared a number, and read through
    [parseFloat(... as any)], which also accepts a stored string. *)
Inductive RangeBound : Type :=
| BoundNumber (x : float)
| BoundString (s : string).

Record NamespaceValue : Type := {
  ns_enabled : bool;
  ns_name : string;
  ns_range : RangeBound * RangeBound
}.

(** The fields a rule has besides the common ones, by its [type] tag.
    [UnknownRule] stands for a stored rule whose tag is none of the three
    the compiler tests for. *)
Inductive RuleFields : Type :=
| ForceRule (value : string)
| ExperimentRule (values : list ExperimentValue) (coverage : float)
    (trackingKey hashAttribute : option string)
    (namespace : option NamespaceValue)
| RolloutRule (value : string) (coverage : float)
    (hashAttribute : option string)
| UnknownRule (type : string).

Record FeatureRule : Type := {
  rule_id : option string;
  rule_description : string;
  rule_condition : option string;
  rule_enabled : option bool;
  rule_fields : RuleFields
}.

Definition rule_type (r : FeatureRule) : string :=
  match rule_fields r with
  | ForceRule _ => "force"
  | ExperimentRule _ _ _ _ _ => "experiment"
  | RolloutRule _ _ _ => "rollout"
  | UnknownRule type => type
  end.

Definition recognized_type (type : string) : bool :=
  String.eqb type "force" || String.eqb type "experiment"
  || String.eqb type "rollout".

Record FeatureEnvironment : Type := {
  env_enabled : bool;
  env_rules : option (list FeatureRule)
}.

Record FeatureDraftChanges : Type := {
  draft_active : bool;
  draft_defaultValue : option string;
  draft_rules : option (gmap string (list FeatureRule))
}.

(** [tags], [description], [project] and [owner] are the fields an update
    may write, with whatever value the request carries: they hold a value
    of any type, [None] for [undefined]. *)
Record FeatureInterface : Type := {
  id : string;
  archived : option bool;
  description : option json;
  organization : string;
  owner : option json;
  project : option json;
  dateCreated : Z;
  dateUpdated : Z;
  valueType : string;
  defaultValue : string;
  tags : option json;
  environmentSettings : option (gmap string FeatureEnvironment);
  draft : option FeatureDraftChanges;
  revision : option json
}.

(** ** The compiled payload (types/api) *)

Record FeatureDefinitionRule : Type := {
  condition : option json;
  force : option json;
  variations : option (list json);
  coverage : option float;
  weights : option (list float);
  key : option string;
  hashAttribute : option string;
  namespace : option (string * float * float)
}.

Record FeatureDefinition : Type := {
  def_defaultValue : json;
  def_rules : option (list FeatureDefinitionRule)
}.

(** [const rule: FeatureDefinitionRule = {}] *)
Definition emptyRule : FeatureDefinitionRule :=
  {| condition := None; force := None; variations := None; coverage := None;
     weights := None; key := None; hashAttribute := None; namespace := None |}.

(** A field assigned under [if (x)] for an optional string [x]. *)
Definition if_present (o : option string) : option string :=
  if truthy_opt_string o then o else None.

(** ** The value coercer *)

Section Compiler.
Context `{Host}.

(** [getJSONValue(type, value)]; a [FeatureValueType] is a string at run
    time, and the function falls through to [null] for any other string. *)
Definition getJSONValue (type : string) (value : string) : json :=
  if String.eqb type "json" then
    try_catch (JSON_parse value) (fun _ => JNull)
  else if String.eqb type "number" then JNum (or_zero (parseFloat value))
  else if String.eqb type "string" then JStr value
  else if String.eqb type "boolean" then
    JBool (if String.eqb value "false" then false else true)
  else JNull.

(** ** The rule compiler *)

(** [parseFloat(x as any)]: [parseFloat] converts its argument to a string
    first. *)
Definition parseFloat_any (b : RangeBound) : float :=
  match b with
  | BoundNumber x => parseFloat (Number_toString x)
  | BoundString s => parseFloat s
  end.

(** The [condition] step: the field is assigned inside a [try] whose
    [catch] is empty. *)
Definition compileCondition (r : FeatureRule) : option json :=
  match rule_condition r with
  | Some c =>
      if truthy_string c && negb (String.eqb c "{}") then
        try_catch
          (match JSON_parse c with
           | Return j => Return (Some j)
           | Throw e => Throw e
           end)
          (fun _ => None)
      else None
  | None => None
  end.

(** [if (r?.namespace && r.namespace.enabled && r.namespace.name)] *)
Definition compileNamespace (ns : option NamespaceValue)
  : option (string * float * float) :=
  match ns with
  | Some n =>
      if ns_enabled n && truthy_string (ns_name n) then
        Some (ns_name n,
              or_zero (parseFloat_any (fst (ns_range n))),
              or_zero (parseFloat_any (snd (ns_range n))))
      else None
  | None => None
  end.

(** The callback of [.map] in [getFeatureDefinitions]: one stored rule to
    one compiled record.  It always returns the record [rule]. *)
Definition compileRule (valueType : string) (r : FeatureRule)
  : FeatureDefinitionRule :=
  let cond := compileCondition r in
  match rule_fields r with
  | ForceRule value =>
      {| condition := cond;
         force := Some (getJSONValue valueType value);
         variations := None; coverage := None; weights := None;
         key := None; hashAttribute := None; namespace := None |}
  | ExperimentRule values cov trackingKey hashAttr ns =>
      {| condition := cond;
         force := None;
         variations :=
           Some (map (fun v => getJSONValue valueType (ev_value v)) values);
         coverage := Some cov;
         weights :=
           Some (map roundVariationWeight
                   (map clampWeight (map ev_weight values)));
         key := if_present trackingKey;
         hashAttribute := if_present hashAttr;
         namespace := compileNamespace ns |}
  | RolloutRule value cov hashAttr =>
      {| condition := cond;
         force := Some (getJSONValue valueType value);
         variations := None;
         coverage := Some (clampCoverage cov);
         weights := None; key := None;
         hashAttribute := if_present hashAttr;
         namespace := None |}
  | UnknownRule _ =>
      {| condition := cond;
         force := None; variations := None; coverage := None;
         weights := None; key := None; hashAttribute := None;
         namespace := None |}
  end.

(** ** The assembler *)

(** [settings.rules?.filter((r) => r.enabled)?.map(...) ?? []] *)
Definition compileRules (valueType : string) (rules : option (list FeatureRule))
  : list FeatureDefinitionRule :=
  match rules with
  | Some rs =>
      map (compileRule valueType)
        (List.filter (fun r => truthy_opt_bool (rule_enabled r)) rs)
  | None => []
  end.

(** The record stored under [defs[feature.id]], after the [delete] of an
    empty [rules]. *)
Definition compileFeature (feature : FeatureInterface)
  (settings : FeatureEnvironment) : FeatureDefinition :=
  let def :=
    {| def_defaultValue :=
         getJSONValue (valueType feature) (defaultValue feature);
       def_rules := Some (compileRules (valueType feature) (env_rules settings)) |} in
  match def_rules def with
  | Some rs =>
      if Nat.eqb (length rs) 0
      then {| def_defaultValue := def_defaultValue def; def_rules := None |}
      else def
  | None => def
  end.

(** [feature.environmentSettings?.[environment]] *)
Definition lookupSettings (feature : FeatureInterface) (environment : string)
  : option FeatureEnvironment :=
  match environmentSettings feature with
  | Some envs => envs !! environment
  | None => None
  end.

(** [!settings || !settings.enabled || feature.archived] *)
Definition skipped (feature : FeatureInterface) (environment : string) : bool :=
  match lookupSettings feature environment with
  | None => true
  | Some settings =>
      negb (env_enabled settings) || truthy_opt_bool (archived feature)
  end.

(** The object [defs], a plain object used as a
    [Record<string, FeatureDefinition>]: its own properties, which are what
    [Object.keys] and [JSON.stringify] see of it, and the definition that
    has become its prototype, if any. *)
Record DefinitionsObject : Type := {
  entries : gmap string FeatureDefinition;
  prototype : option FeatureDefinition
}.

(** [{}] *)
#[export] Instance DefinitionsObject_empty : Empty DefinitionsObject :=
  {| entries := ∅; prototype := None |}.

(** The own property [key] of the object. *)
#[export] Instance DefinitionsObject_lookup
  : Lookup string FeatureDefinition DefinitionsObject :=
  fun key defs => entries defs !! key.

(** An object with one own property. *)
#[export] Instance DefinitionsObject_singleton
  : SingletonM string FeatureDefinition DefinitionsObject :=
  fun key value => {| entries := {[ key := value ]}; prototype := None |}.

(** [defs[key] = value] for an object [value].  Every key but one becomes
    an own property.  For ["__proto__"] the assignment runs the setter
    [defs] inherits from [Object.prototype]: [value] becomes the prototype
    of [defs], and no own property is made. *)
Definition assign (defs : DefinitionsObject) (key : string)
  (value : FeatureDefinition) : DefinitionsObject :=
  if String.eqb key "__proto__"
  then {| entries := entries defs; prototype := Some value |}
  else {| entries := <[key := value]> (entries defs);
          prototype := prototype defs |}.

(** One turn of [features.forEach].  The [delete] that follows the
    assignment reads [defs[feature.id]] back, which is the object just
    assigned for every key (for ["__proto__"], through the getter); it is
    part of [compileFeature]. *)
Definition addFeature (environment : string)
  (defs : DefinitionsObject) (feature : FeatureInterface)
  : DefinitionsObject :=
  match lookupSettings feature environment with
  | None => defs
  | Some settings =>
      if negb (env_enabled settings) || truthy_opt_bool (archived feature)
      then defs
      else assign defs (id feature) (compileFeature feature settings)
  end.

(** [getFeatureDefinitions], from the features [getAllFeatures] returned;
    [environment] is [None] when the caller leaves it out. *)
Definition getFeatureDefinitions (features : list FeatureInterface)
  (environment : option string) : DefinitionsObject :=
  let environment := default "production" environment in
  fold_left (addFeature environment) features ∅.

End Compiler.

(** ** Collaborators and effects

    The services call the feature and project models, the webhook queue,
    [uniqid] and the clock.  None of them is part of this file's source: a
    call is recorded in the world, and what it answers is left to a
    [Collaborators] instance. *)

Inductive Call : Type :=
| CreateFeature (feature : FeatureInterface)
| UpdateFeature (organization featureId : string)
    (updates : list (string * json)) (dateUpdated : Z)
| FindProjectById (project : json) (organization : string)
| QueueWebhook (organization : string) (environments : list string)
    (projects : list json) (isFeature : bool).

(** The calls made so far, oldest first, and how many times the clock and
    [uniqid] were read. *)
Record World : Type := {
  calls : list Call;
  clockReads : nat;
  idsGiven : nat
}.

Definition initialWorld : World :=
  {| calls := []; clockReads := 0; idsGiven := 0 |}.

Class Collaborators : Type := {
  (** whether [createFeature(feature)] resolves *)
  createFeature_outcome : FeatureInterface -> result unit;
  (** whether [updateFeature(organization, id, updates)] resolves *)
  updateFeature_outcome :
    string -> string -> list (string * json) -> Z -> result unit;
  (** whether [findProjectById(project, organization)] finds a project *)
  findProjectById_outcome : json -> string -> result bool;
  (** whether [queueWebhook(...)] resolves *)
  queueWebhook_outcome :
    string -> list string -> list json -> bool -> result unit;
  (** the unique part of the [n]-th identifier [uniqid] gives *)
  uniqid_suffix : nat -> string;
  (** what the [n]-th [new Date()] reads, in milliseconds *)
  Date_now : nat -> Z
}.

(** A computation that reads and extends the world and may throw; a throw
    keeps the world as it was when thrown. *)
Definition M (A : Type) : Type := World -> result A * World.

Definition ret {A} (a : A) : M A := fun w => (Return a, w).

Definition throw {A} (msg : string) : M A := fun w => (Throw (mkError msg), w).

Definition bind {A B} (m : M A) (k : A -> M B) : M B :=
  fun w =>
    match m w with
    | (Return a, w') => k a w'
    | (Throw e, w') => (Throw e, w')
    end.

#[export] Instance M_ret : MRet M := @ret.
#[export] Instance M_bind : MBind M := fun A B k m => bind m k.

(** [await collaborator(...)]: the call is recorded, then it resolves or
    rejects. *)
Definition call {A} (c : Call) (outcome : result A) : M A :=
  fun w =>
    (outcome,
     {| calls := (calls w ++ [c])%list; clockReads := clockReads w;
        idsGiven := idsGiven w |}).

(** An expression that may throw, inside a service. *)
Definition lift {A} (r : result A) : M A := fun w => (r, w).

(** A call to an [async] function that is not awaited: what it does up to
    its end is done, its rejection is not the caller's. *)
Definition not_awaited (m : M unit) : M unit :=
  fun w => (Return tt, snd (m w)).

(** [Object.keys] and [Object.values] of a map.  JavaScript lists the keys
    in insertion order, the map in its own: what follows depends on which
    keys there are, not on their order. *)
Definition Object_keys {A} (m : gmap string A) : list string :=
  (map_to_list m).*1.

(** ** Generic helpers of features.ts *)

(** The start index [Array.prototype.splice] uses. *)
Definition splice_start (len start : Z) : nat :=
  Z.to_nat (if start <? 0 then Z.max (len + start) 0 else Z.min start len).

Section ArrayMove.
Context {A : Type}.
(** the [undefined] among the values of the array *)
Variable undefined : A.

(** [arrayMove(array, from, to)].  The insertion index is computed before
    the element is taken out; [splice(from, 1)[0]] is [undefined] when
    [from] is past the end. *)
Definition arrayMove (array : list A) (from to : Z) : list A :=
  let newArray := array in
  let len := Z.of_nat (length newArray) in
  let start := if to <? 0 then len + to else to in
  let s1 := splice_start len from in
  let removed := firstn 1 (skipn s1 newArray) in
  let newArray := (firstn s1 newArray ++ skipn (s1 + length removed) newArray)%list in
  let item := match removed with x :: _ => x | [] => undefined end in
  let s2 := splice_start (Z.of_nat (length newArray)) start in
  (firstn s2 newArray ++ item :: skipn s2 newArray)%list.
End ArrayMove.

(** *** [isEqual] (lodash) on draft changes

    Deep equality, with numbers compared as [isEqual] does: [NaN] equals
    [NaN] and [+0] equals [-0]. *)

Definition isEqual_number (x y : float) : bool :=
  PrimFloat.eqb x y || (PrimFloat.is_nan x && PrimFloat.is_nan y).

Definition isEqual_option {A} (eq : A -> A -> bool) (x y : option A) : bool :=
  match x, y with
  | Some a, Some b => eq a b
  | None, None => true
  | _, _ => false
  end.

Fixpoint isEqual_list {A} (eq : A -> A -> bool) (x y : list A) : bool :=
  match x, y with
  | [], [] => true
  | a :: x', b :: y' => eq a b && isEqual_list eq x' y'
  | _, _ => false
  end.

Definition isEqual_value (x y : ExperimentValue) : bool :=
  String.eqb (ev_value x) (ev_value y)
  && isEqual_number (ev_weight x) (ev_weight y)
  && isEqual_option String.eqb (ev_name x) (ev_name y).

Definition isEqual_bound (x y : RangeBound) : bool :=
  match x, y with
  | BoundNumber a, BoundNumber b => isEqual_number a b
  | BoundString a, BoundString b => String.eqb a b
  | _, _ => false
  end.

Definition isEqual_namespace (x y : NamespaceValue) : bool :=
  Bool.eqb (ns_enabled x) (ns_enabled y)
  && String.eqb (ns_name x) (ns_name y)
  && isEqual_bound (fst (ns_range x)) (fst (ns_range y))
  && isEqual_bound (snd (ns_range x)) (snd (ns_range y)).

Definition isEqual_fields (x y : RuleFields) : bool :=
  match x, y with
  | ForceRule a, ForceRule b => String.eqb a b
  | ExperimentRule v1 c1 t1 h1 n1, ExperimentRule v2 c2 t2 h2 n2 =>
      isEqual_list isEqual_value v1 v2 && isEqual_number c1 c2
      && isEqual_option String.eqb t1 t2 && isEqual_option String.eqb h1 h2
      && isEqual_option isEqual_namespace n1 n2
  | RolloutRule a c1 h1, RolloutRule b c2 h2 =>
      String.eqb a b && isEqual_number c1 c2
      && isEqual_option String.eqb h1 h2
  | UnknownRule a, UnknownRule b => String.eqb a b
  | _, _ => false
  end.

Definition isEqual_rule (x y : FeatureRule) : bool :=
  isEqual_option String.eqb (rule_id x) (rule_id y)
  && String.eqb (rule_description x) (rule_description y)
  && isEqual_option String.eqb (rule_condition x) (rule_condition y)
  && isEqual_option Bool.eqb (rule_enabled x) (rule_enabled y)
  && isEqual_fields (rule_fields x) (rule_fields y).

(** Two records of rule lists by environment: the same keys, and equal
    lists under each. *)
Definition isEqual_rulesByEnv (x y : gmap string (list FeatureRule)) : bool :=
  forallb
    (fun kv =>
       match y !! fst kv with
       | Some rs => isEqual_list isEqual_rule (snd kv) rs
       | None => false
       end) (map_to_list x)
  && forallb
       (fun kv => match x !! fst kv with Some _ => true | None => false end)
       (map_to_list y).

(** [verifyDraftsAreEqual(actual, expected)]: only [defaultValue] and
    [rules] of each draft are compared. *)
Definition verifyDraftsAreEqual (actual expected : option FeatureDraftChanges)
  : result unit :=
  if negb
       (isEqual_option String.eqb
          (actual ≫= draft_defaultValue) (expected ≫= draft_defaultValue)
        && isEqual_option isEqual_rulesByEnv
             (actual ≫= draft_rules) (expected ≫= draft_rules))
  then
    Throw
      (mkError
         "New changes have been made to this feature. Please review and try again.")
  else Return tt.

(** [getEnabledEnvironments(feature)] *)
Definition getEnabledEnvironments (feature : FeatureInterface) : list string :=
  let settings := default ∅ (environmentSettings feature) in
  List.filter
    (fun env =>
       match settings !! env with
       | Some s => env_enabled s
       | None => false
       end)
    (Object_keys settings).

(** ** The feature services *)

(** What [createFeatureService] and [updateFeatureService] are given: a
    [Partial<FeatureInterface>].  The creation service reads it field by
    field; the update service lists its keys, so there it is the object
    itself, a JSON object as the request carries it: its keys, which are
    distinct, in the order [Object.keys] gives them, each with its value,
    of whatever type. *)
Record PartialFeature : Type := {
  p_id : option string;
  p_archived : option bool;
  p_description : option string;
  p_organization : option string;
  p_owner : option string;
  p_project : option string;
  p_valueType : option string;
  p_defaultValue : option string;
  p_tags : option (list string);
  p_environmentSettings : option (gmap string FeatureEnvironment);
  p_draft : option FeatureDraftChanges;
  p_revision : option json
}.

(** [/^[a-zA-Z0-9_.:|-]+$/] on one character. *)
Definition key_char (c : ascii) : bool :=
  let n := Z.of_nat (nat_of_ascii c) in
  ((97 <=? n) && (n <=? 122)) || ((65 <=? n) && (n <=? 90))
  || ((48 <=? n) && (n <=? 57))
  || Ascii.eqb c "_" || Ascii.eqb c "." || Ascii.eqb c ":"
  || Ascii.eqb c "|" || Ascii.eqb c "-".

(** [id.match(/^[a-zA-Z0-9_.:|-]+$/)] *)
Definition matches_key_pattern (id : string) : bool :=
  negb (String.eqb id "") && forallb key_char (list_ascii_of_string id).

Definition lower_char (c : ascii) : ascii :=
  let n := Z.of_nat (nat_of_ascii c) in
  if (65 <=? n) && (n <=? 90) then ascii_of_nat (Z.to_nat (n + 32)) else c.

(** [toLowerCase] on a string of bytes: the letters [A] to [Z] change. *)
Definition toLowerCase (s : string) : string :=
  string_of_list_ascii (map lower_char (list_ascii_of_string s)).

(** [array.includes(x)] on strings. *)
Definition includes (x : string) (array : list string) : bool :=
  existsb (String.eqb x) array.

(** [array.join(sep)] *)
Definition join_with (sep : string) (array : list string) : string :=
  match array with
  | [] => ""
  | first :: rest =>
      fold_left (fun acc s => String.append acc (String.append sep s)) rest first
  end.

Definition allowedKeys : list string :=
  ["tags"; "description"; "project"; "owner"].

(** [updates[key]] *)
Fixpoint property (key : string) (object : list (string * json)) : option json :=
  match object with
  | [] => None
  | (k, v) :: rest => if String.eqb k key then Some v else property key rest
  end.

(** Truthiness of a value. *)
Definition truthy_json (v : json) : bool :=
  match v with
  | JNull => false
  | JBool b => b
  | JNum x => truthy_number x
  | JStr s => truthy_string s
  | JArr _ | JObj _ => true
  end.

(** [x || ""] *)
Definition or_empty (x : option json) : json :=
  match x with
  | Some v => if truthy_json v then v else JStr ""
  | None => JStr ""
  end.

(** [updates.project !== feature.project].  Values of different types
    differ, and so do two objects or arrays: the one in the request is
    never the stored one. *)
Definition differs_from (v : json) (stored : option json) : bool :=
  match v, stored with
  | JNull, Some JNull => false
  | JBool a, Some (JBool b) => negb (Bool.eqb a b)
  | JNum x, Some (JNum y) => negb (strict_eq_number x y)
  | JStr s, Some (JStr s') => negb (String.eqb s s')
  | _, _ => true
  end.

(** One property of [updates] spread over [feature]: the value, whatever
    it is, replaces the field's.  The update service spreads only after it
    has checked that every key is one of [allowedKeys]; no other key
    reaches this function. *)
Definition spreadProperty (feature : FeatureInterface) (kv : string * json)
  : FeatureInterface :=
  let '(k, v) := kv in
  let with_ tags' description' project' owner' :=
    {| id := id feature; archived := archived feature;
       description := description'; organization := organization feature;
       owner := owner'; project := project';
       dateCreated := dateCreated feature; dateUpdated := dateUpdated feature;
       valueType := valueType feature; defaultValue := defaultValue feature;
       tags := tags'; environmentSettings := environmentSettings feature;
       draft := draft feature; revision := revision feature |} in
  if String.eqb k "tags" then
    with_ (Some v) (description feature) (project feature) (owner feature)
  else if String.eqb k "description" then
    with_ (tags feature) (Some v) (project feature) (owner feature)
  else if String.eqb k "project" then
    with_ (tags feature) (description feature) (Some v) (owner feature)
  else if String.eqb k "owner" then
    with_ (tags feature) (description feature) (project feature) (Some v)
  else
    with_ (tags feature) (description feature) (project feature)
      (owner feature).

(** [{ ...feature, ...updates }] *)
Definition spread (feature : FeatureInterface) (updates : list (string * json))
  : FeatureInterface :=
  fold_left spreadProperty updates feature.

Section Services.
Context `{Host} `{Collaborators}.

Definition newDate : M Z :=
  fun w =>
    (Return (Date_now (clockReads w)),
     {| calls := calls w; clockReads := S (clockReads w);
        idsGiven := idsGiven w |}).

(** [uniqid(prefix)] *)
Definition uniqid (prefix : string) : M string :=
  fun w =>
    (Return (String.append prefix (uniqid_suffix (idsGiven w))),
     {| calls := calls w; clockReads := clockReads w;
        idsGiven := S (idsGiven w) |}).

Definition generateRuleId : M string := uniqid "fr_".

(** [if (r.type === "experiment" && !r?.trackingKey) r.trackingKey = featureId] *)
Definition defaultTrackingKey (featureId : string) (fields : RuleFields)
  : RuleFields :=
  match fields with
  | ExperimentRule values cov trackingKey hashAttr ns =>
      if negb (truthy_opt_string trackingKey)
      then ExperimentRule values cov (Some featureId) hashAttr ns
      else fields
  | other => other
  end.

(** The body of [env.rules.forEach] in [addIdsToRules]. *)
Definition addIdsToRule (featureId : string) (r : FeatureRule) : M FeatureRule :=
  let fields := defaultTrackingKey featureId (rule_fields r) in
  if negb (truthy_opt_string (rule_id r)) then
    newId ← generateRuleId;
    ret {| rule_id := Some newId; rule_description := rule_description r;
           rule_condition := rule_condition r; rule_enabled := rule_enabled r;
           rule_fields := fields |}
  else
    ret {| rule_id := rule_id r; rule_description := rule_description r;
           rule_condition := rule_condition r; rule_enabled := rule_enabled r;
           rule_fields := fields |}.

Definition addIdsToEnvironment (featureId : string) (env : FeatureEnvironment)
  : M FeatureEnvironment :=
  match env_rules env with
  | Some rules =>
      if negb (Nat.eqb (length rules) 0) then
        rules' ← mapM (addIdsToRule featureId) rules;
        ret {| env_enabled := env_enabled env; env_rules := Some rules' |}
      else ret env
  | None => ret env
  end.

(** [addIdsToRules(environmentSettings = {}, featureId)].  The source
    changes the rules in place; here the changed settings are returned. *)
Definition addIdsToRules
  (environmentSettings : option (gmap string FeatureEnvironment))
  (featureId : string) : M (option (gmap string FeatureEnvironment)) :=
  match environmentSettings with
  | Some envs =>
      envs' ← mapM
                 (fun kv =>
                    env' ← addIdsToEnvironment featureId (snd kv);
                    ret (fst kv, env'))
                 (map_to_list envs);
      ret (Some (list_to_map envs'))
  | None => ret None
  end.

(** [featureUpdated(feature, previousEnvironments = [], previousProject = "")] *)
Definition featureUpdated (feature : FeatureInterface)
  (previousEnvironments : option (list string))
  (previousProject : option json) : M unit :=
  let currentEnvironments := getEnabledEnvironments feature in
  let environments :=
    (currentEnvironments ++ default [] previousEnvironments)%list in
  let projects :=
    [or_empty previousProject; or_empty (project feature)] in
  call (QueueWebhook (organization feature) environments projects true)
    (queueWebhook_outcome (organization feature) environments projects true).

(** [parseDefaultValue(defaultValue, valueType)] *)
Definition parseDefaultValue (defaultValue valueType : string) : result string :=
  if String.eqb valueType "boolean" then
    Return (if String.eqb defaultValue "true" then "true" else "false")
  else if String.eqb valueType "number" then
    Return (Number_toString (parseFloat defaultValue))
  else if String.eqb valueType "string" then Return defaultValue
  else
    match JSON_parse defaultValue with
    | Return v => Return (JSON_stringify v)
    | Throw _ => Throw (mkError "JSON parse error for default value")
    end.

(** [if (!x) throw new Error(msg)] for an optional string [x]. *)
Definition required (x : option string) (msg : string) : M string :=
  match x with
  | Some s => if truthy_string s then ret s else throw msg
  | None => throw msg
  end.

Definition createFeatureService (feature : PartialFeature) : M FeatureInterface :=
  id ← required (p_id feature) "Must specify feature key";
  (if negb (matches_key_pattern id) then
     throw "Feature keys can only include letters, numbers, hyphens, and underscores."
   else ret tt);;
  organization ← required (p_organization feature)
                    "Organization could not be found";
  owner ← required (p_owner feature) "Owner must be specified";
  valueType ← required (p_valueType feature) "Value type must be specified";
  (if negb (includes valueType ["boolean"; "number"; "string"; "json"]) then
     throw "Value type must be one of boolean, number, string, or json"
   else ret tt);;
  defaultValue ← required (p_defaultValue feature)
                    "Default value must be specified";
  dateCreated ← newDate;
  dateUpdated ← newDate;
  parsed ← lift (parseDefaultValue defaultValue valueType);
  settings ← addIdsToRules (p_environmentSettings feature) (toLowerCase id);
  let resultFeature :=
    {| id := toLowerCase id;
       archived := Some (default false (p_archived feature));
       description := JStr <$> p_description feature;
       organization := organization;
       owner := Some (JStr owner);
       project := JStr <$> p_project feature;
       dateCreated := dateCreated;
       dateUpdated := dateUpdated;
       valueType := valueType;
       defaultValue := parsed;
       tags := (fun l => JArr (JStr <$> l)) <$> p_tags feature;
       environmentSettings := settings;
       draft := p_draft feature;
       revision := p_revision feature |} in
  call (CreateFeature resultFeature) (createFeature_outcome resultFeature);;
  not_awaited (featureUpdated resultFeature None None);;
  ret resultFeature.

Definition updateFeatureService (updates : list (string * json))
  (feature : FeatureInterface) (featureId : string) : M FeatureInterface :=
  let invalidKeys :=
    List.filter (fun k => negb (includes k allowedKeys)) (map fst updates) in
  (if negb (Nat.eqb (length invalidKeys) 0) then
     throw (String.append "Invalid update fields for feature: ["
              (String.append (join_with ", " invalidKeys) "]"))
   else ret tt);;
  requiresWebhook ←
    (match property "project" updates with
     | Some p =>
         if truthy_json p then
           found ← call (FindProjectById p (organization feature))
                      (findProjectById_outcome p (organization feature));
           if negb (found : bool) then throw "Project not found"
           else ret (differs_from p (project feature))
         else ret false
     | None => ret false
     end : M bool);
  dateUpdated ← newDate;
  call (UpdateFeature (organization feature) featureId updates dateUpdated)
    (updateFeature_outcome (organization feature) featureId updates
       dateUpdated);;
  let newFeature := spread feature updates in
  (if (requiresWebhook : bool) then
     not_awaited
       (featureUpdated newFeature (Some (getEnabledEnvironments feature))
          (Some (or_empty (project feature))))
   else ret tt);;
  ret newFeature.

End Services.

(** ** A reference host

    One host to run the services on: [parseFloat], [Number::toString],
    [JSON.parse] and [JSON.stringify(value, null, 2)] as ECMAScript defines
    them, over strings of bytes. *)

Definition dquote : ascii := ascii_of_nat 34.

Definition is_digit (c : ascii) : bool :=
  let n := Z.of_nat (nat_of_ascii c) in (48 <=? n) && (n <=? 57).

Definition digit_value (c : ascii) : Z := Z.of_nat (nat_of_ascii c) - 48.

Fixpoint take_digits (s : list ascii) : list ascii * list ascii :=
  match s with
  | c :: rest =>
      if is_digit c then
        let '(ds, rest') := take_digits rest in (c :: ds, rest')
      else ([], s)
  | [] => ([], [])
  end.

Definition digits_value (ds : list ascii) : Z :=
  fold_left (fun acc c => 10 * acc + digit_value c) ds 0.

(** The binary64 number nearest to [(-1)^neg * D * 10^e10], ties to even. *)
Definition decimal_to_float (neg : bool) (D e10 : Z) : float :=
  match D with
  | Z0 => if neg then (-0)%float else 0%float
  | Zpos d =>
      SF2Prim
        (if 0 <=? e10
         then binary_normalize prec emax (cond_Zopp neg (D * 10 ^ e10)) 0 false
         else SFdiv prec emax (S754_finite neg d 0)
                (S754_finite false (Z.to_pos (10 ^ (- e10))) 0))
  | Zneg _ => nan
  end.

Definition is_space (c : ascii) : bool :=
  let n := Z.of_nat (nat_of_ascii c) in
  ((9 <=? n) && (n <=? 13)) || (n =? 32).

Fixpoint skip_spaces (s : list ascii) : list ascii :=
  match s with
  | c :: rest => if is_space c then skip_spaces rest else s
  | [] => []
  end.

Definition take_sign (s : list ascii) : bool * list ascii :=
  match s with
  | "-"%char :: rest => (true, rest)
  | "+"%char :: rest => (false, rest)
  | _ => (false, s)
  end.

(** An [ExponentPart] at the head of [s], when there is a whole one. *)
Definition take_exponent (s : list ascii) : Z * list ascii :=
  match s with
  | c :: rest =>
      if Ascii.eqb c "e" || Ascii.eqb c "E" then
        let '(neg, rest1) := take_sign rest in
        match take_digits rest1 with
        | ([], _) => (0, s)
        | (ds, rest2) => (cond_Zopp neg (digits_value ds), rest2)
        end
      else (0, s)
  | [] => (0, s)
  end.

Fixpoint starts_with (p s : list ascii) : bool :=
  match p, s with
  | [], _ => true
  | a :: p', b :: s' => Ascii.eqb a b && starts_with p' s'
  | _ :: _, [] => false
  end.

(** The longest prefix that is a decimal literal, as a number and the rest
    of the input; [None] when no prefix is one. *)
Definition take_decimal (neg : bool) (s : list ascii)
  : option (float * list ascii) :=
  let '(ip, rest) := take_digits s in
  let '(fp, rest1) :=
    match rest with
    | "."%char :: r => 
        let '(fp, r') := take_digits r in
        match ip, fp with
        | [], [] => ([], rest)
        | _, _ => (fp, r')
        end
    | _ => ([], rest)
    end in
  match ip, fp with
  | [], [] => None
  | _, _ =>
      let '(e, rest2) := take_exponent rest1 in
      Some (decimal_to_float neg (digits_value (ip ++ fp))
              (e - Z.of_nat (length fp)), rest2)
  end.

Definition reference_parseFloat (input : string) : float :=
  let s := skip_spaces (list_ascii_of_string input) in
  let '(neg, s1) := take_sign s in
  if starts_with (list_ascii_of_string "Infinity") s1 then
    if neg then neg_infinity else infinity
  else
    match take_decimal neg s1 with
    | Some (x, _) => x
    | None => nan
    end.


(** *** [Number::toString] *)

Fixpoint decimal_digits_aux (fuel : nat) (n : Z) (acc : list ascii) : list ascii :=
  match fuel with
  | O => acc
  | S fuel' =>
      let acc' := ascii_of_nat (Z.to_nat (48 + n mod 10)) :: acc in
      if n <? 10 then acc' else decimal_digits_aux fuel' (n / 10) acc'
  end.

(** The decimal digits of a natural number. *)
Definition decimal_digits (n : Z) : list ascii :=
  decimal_digits_aux (S (Z.to_nat (Z.log2 n))) n [].

(** [x] as the fraction [num / den], for a finite positive [x]. *)
Definition fraction_of (m : positive) (e : Z) : Z * Z :=
  if 0 <=? e then (Z.pos m * 2 ^ e, 1) else (Z.pos m, 2 ^ (- e)).

(** [num / den < 10^n] *)
Definition below_pow10 (num den n : Z) : bool :=
  if 0 <=? n then num <? den * 10 ^ n else num * 10 ^ (- n) <? den.

(** The [n] with [10^(n-1) <= num/den < 10^n], searched upward. *)
Fixpoint magnitude_from (fuel : nat) (num den n : Z) : Z :=
  match fuel with
  | O => n
  | S fuel' =>
      if below_pow10 num den n then n
      else magnitude_from fuel' num den (n + 1)
  end.

Definition magnitude (num den : Z) : Z :=
  let l := Z.log2 num - Z.log2 den - 1 in
  magnitude_from 8 num den (l * 30103 / 100000 - 1).

(** The [k]-digit decimals next to [num/den]: [floor] and [floor + 1] of
    [num/den * 10^(k-n)], each with its decimal exponent. *)
Definition candidates (num den n k : Z) : list (Z * Z) :=
  let '(a, b) :=
    if 0 <=? k - n then (num * 10 ^ (k - n), den)
    else (num, den * 10 ^ (n - k)) in
  let lo := a / b in
  let fix_up (s : Z) :=
    if s =? 10 ^ k then (10 ^ (k - 1), n + 1) else (s, n) in
  let near_hi := (2 * (a mod b) >? b) ||
                 ((2 * (a mod b) =? b) && Z.odd lo) in
  if near_hi then [fix_up (lo + 1); fix_up lo]
  else [fix_up lo; fix_up (lo + 1)].

Definition round_trips (x : float) (k : Z) (c : Z * Z) : bool :=
  let '(s, n) := c in
  (10 ^ (k - 1) <=? s) && Leibniz.eqb (decimal_to_float false s (n - k)) x.

(** The shortest digit string that reads back as [x], with its exponent. *)
Fixpoint shortest_from (fuel : nat) (x : float) (num den n k : Z) : Z * Z :=
  match fuel with
  | O => (0, n)
  | S fuel' =>
      match List.filter (round_trips x k) (candidates num den n k) with
      | c :: _ => c
      | [] => shortest_from fuel' x num den n (k + 1)
      end
  end.

Definition zeros (n : Z) : list ascii := repeat "0"%char (Z.to_nat n).

(** [Number::toString] for a finite positive number. *)
Definition positive_toString (x : float) (m : positive) (e : Z) : list ascii :=
  let '(num, den) := fraction_of m e in
  let '(s, n) := shortest_from 17 x num den (magnitude num den) 1 in
  let ds := decimal_digits s in
  let k := Z.of_nat (length ds) in
  if (k <=? n) && (n <=? 21) then ds ++ zeros (n - k)
  else if (0 <? n) && (n <=? 21) then
    firstn (Z.to_nat n) ds ++ "."%char :: skipn (Z.to_nat n) ds
  else if (-6 <? n) && (n <=? 0) then
    "0"%char :: "."%char :: zeros (- n) ++ ds
  else
    let ex := n - 1 in
    let tail := "e"%char :: (if ex <? 0 then "-"%char else "+"%char)
                :: decimal_digits (Z.abs ex) in
    match ds with
    | [d] => d :: tail
    | d :: rest => d :: "."%char :: rest ++ tail
    | [] => tail
    end.

Definition reference_Number_toString (x : float) : string :=
  match Prim2SF x with
  | S754_nan => "NaN"
  | S754_zero _ => "0"
  | S754_infinity s => if s then "-Infinity" else "Infinity"
  | S754_finite s m e =>
      string_of_list_ascii
        ((if s then ["-"%char] else []) ++ positive_toString (abs x) m e)
  end.


(** *** [JSON.parse] *)

Definition is_json_space (c : ascii) : bool :=
  let n := Z.of_nat (nat_of_ascii c) in
  (n =? 32) || (n =? 9) || (n =? 10) || (n =? 13).

Fixpoint skip_json_spaces (s : list ascii) : list ascii :=
  match s with
  | c :: rest => if is_json_space c then skip_json_spaces rest else s
  | [] => []
  end.

Definition hex_value (c : ascii) : option Z :=
  let n := Z.of_nat (nat_of_ascii c) in
  if (48 <=? n) && (n <=? 57) then Some (n - 48)
  else if (65 <=? n) && (n <=? 70) then Some (n - 55)
  else if (97 <=? n) && (n <=? 102) then Some (n - 87)
  else None.

Definition byte (n : Z) : ascii := ascii_of_nat (Z.to_nat n).

(** The bytes of a code unit of a [\u] escape. *)
Definition utf8_of_code (n : Z) : list ascii :=
  if n <? 128 then [byte n]
  else if n <? 2048 then [byte (192 + n / 64); byte (128 + n mod 64)]
  else [byte (224 + n / 4096); byte (128 + (n / 64) mod 64);
        byte (128 + n mod 64)].

(** The characters of a string literal after its opening quote, up to the
    closing one. *)
Fixpoint parse_string_chars (s : list ascii) (acc : list ascii)
  : option (string * list ascii) :=
  match s with
  | [] => None
  | c :: rest =>
      if Ascii.eqb c dquote then Some (string_of_list_ascii (rev acc), rest)
      else if Ascii.eqb c "\" then
        match rest with
        | e :: rest' =>
            let simple (b : ascii) := parse_string_chars rest' (b :: acc) in
            if Ascii.eqb e dquote then simple dquote
            else if Ascii.eqb e "\" then simple "\"%char
            else if Ascii.eqb e "/" then simple "/"%char
            else if Ascii.eqb e "b" then simple (byte 8)
            else if Ascii.eqb e "f" then simple (byte 12)
            else if Ascii.eqb e "n" then simple (byte 10)
            else if Ascii.eqb e "r" then simple (byte 13)
            else if Ascii.eqb e "t" then simple (byte 9)
            else if Ascii.eqb e "u" then
              match rest' with
              | h1 :: h2 :: h3 :: h4 :: rest'' =>
                  match hex_value h1, hex_value h2, hex_value h3, hex_value h4 with
                  | Some a, Some b, Some c', Some d =>
                      parse_string_chars rest''
                        (rev (utf8_of_code (((a * 16 + b) * 16 + c') * 16 + d))
                         ++ acc)
                  | _, _, _, _ => None
                  end
              | _ => None
              end
            else None
        | [] => None
        end
      else if Z.of_nat (nat_of_ascii c) <? 32 then None
      else parse_string_chars rest (c :: acc)
  end.

(** A JSON number at the head of [s]. *)
Definition parse_number (s : list ascii) : option (json * list ascii) :=
  let '(neg, s1) :=
    match s with
    | "-"%char :: r => (true, r)
    | _ => (false, s)
    end in
  let '(ip, s2) := take_digits s1 in
  match ip with
  | [] => None
  | "0"%char :: _ :: _ => None
  | _ =>
      let frac :=
        match s2 with
        | "."%char :: r =>
            match take_digits r with
            | ([], _) => None
            | (fp, r') => Some (fp, r')
            end
        | _ => Some ([], s2)
        end in
      match frac with
      | None => None
      | Some (fp, s3) =>
          let expo :=
            match s3 with
            | c :: r =>
                if Ascii.eqb c "e" || Ascii.eqb c "E" then
                  let '(eneg, r1) := take_sign r in
                  match take_digits r1 with
                  | ([], _) => None
                  | (ds, r2) => Some (cond_Zopp eneg (digits_value ds), r2)
                  end
                else Some (0, s3)
            | [] => Some (0, s3)
            end in
          match expo with
          | None => None
          | Some (e, s4) =>
              Some (JNum (decimal_to_float neg (digits_value (ip ++ fp))
                            (e - Z.of_nat (length fp))), s4)
          end
      end
  end.

(** The value of a key that is an array index (a canonical decimal below
    [2^32 - 1]); an object lists such keys first, in ascending order. *)
Definition array_index (k : string) : option Z :=
  let ds := list_ascii_of_string k in
  match ds with
  | [] => None
  | "0"%char :: _ :: _ => None
  | _ =>
      if forallb is_digit ds && (digits_value ds <? 4294967295)
      then Some (digits_value ds) else None
  end.

(** [obj[k] = v] on the fields read so far: a repeated key keeps its place
    and takes the later value; a new index key goes before the larger
    index keys and the other keys, any other new key goes last. *)
Fixpoint set_field (k : string) (v : json) (fields : list (string * json))
  : list (string * json) :=
  match fields with
  | [] => [(k, v)]
  | (k', v') :: rest =>
      if String.eqb k k' then (k, v) :: rest
      else
        let before :=
          match array_index k, array_index k' with
          | Some i, Some i' => i <? i'
          | Some _, None => true
          | None, _ => false
          end in
        if before && negb (existsb (fun f => String.eqb k (fst f)) rest)
        then (k, v) :: fields
        else (k', v') :: set_field k v rest
  end.

Fixpoint parse_value (fuel : nat) (s : list ascii) {struct fuel}
  : option (json * list ascii) :=
  match fuel with
  | O => None
  | S fuel' =>
      let s := skip_json_spaces s in
      if starts_with (list_ascii_of_string "null") s
      then Some (JNull, skipn 4 s)
      else if starts_with (list_ascii_of_string "true") s
      then Some (JBool true, skipn 4 s)
      else if starts_with (list_ascii_of_string "false") s
      then Some (JBool false, skipn 5 s)
      else
        match s with
        | c :: rest =>
            if Ascii.eqb c dquote then
              match parse_string_chars rest [] with
              | Some (str, rest') => Some (JStr str, rest')
              | None => None
              end
            else if Ascii.eqb c "[" then
              match skip_json_spaces rest with
              | "]"%char :: rest' => Some (JArr [], rest')
              | _ =>
                  match parse_elements fuel' rest [] with
                  | Some (items, rest') => Some (JArr items, rest')
                  | None => None
                  end
              end
            else if Ascii.eqb c "{" then
              match skip_json_spaces rest with
              | "}"%char :: rest' => Some (JObj [], rest')
              | _ =>
                  match parse_members fuel' rest [] with
                  | Some (fields, rest') => Some (JObj fields, rest')
                  | None => None
                  end
              end
            else parse_number s
        | [] => None
        end
  end
with parse_elements (fuel : nat) (s : list ascii) (acc : list json)
  {struct fuel} : option (list json * list ascii) :=
  match fuel with
  | O => None
  | S fuel' =>
      match parse_value fuel' s with
      | Some (v, rest) =>
          match skip_json_spaces rest with
          | ","%char :: rest' => parse_elements fuel' rest' (v :: acc)
          | "]"%char :: rest' => Some (rev (v :: acc), rest')
          | _ => None
          end
      | None => None
      end
  end
with parse_members (fuel : nat) (s : list ascii) (acc : list (string * json))
  {struct fuel} : option (list (string * json) * list ascii) :=
  match fuel with
  | O => None
  | S fuel' =>
      match skip_json_spaces s with
      | c :: rest =>
          if Ascii.eqb c dquote then
            match parse_string_chars rest [] with
            | Some (k, rest1) =>
                match skip_json_spaces rest1 with
                | ":"%char :: rest2 =>
                    match parse_value fuel' rest2 with
                    | Some (v, rest3) =>
                        match skip_json_spaces rest3 with
                        | ","%char :: rest4 =>
                            parse_members fuel' rest4 (set_field k v acc)
                        | "}"%char :: rest4 => Some (set_field k v acc, rest4)
                        | _ => None
                        end
                    | None => None
                    end
                | _ => None
                end
            | None => None
            end
          else None
      | [] => None
      end
  end.

Definition syntaxError : Error := mkError "Unexpected token in JSON".

Definition reference_JSON_parse (text : string) : result json :=
  let s := list_ascii_of_string text in
  match parse_value (2 * length s + 2) s with
  | Some (v, rest) =>
      match skip_json_spaces rest with
      | [] => Return v
      | _ => Throw syntaxError
      end
  | None => Throw syntaxError
  end.

(** *** [JSON.stringify(value, null, 2)] *)

Definition hex_digit (n : Z) : ascii :=
  if n <? 10 then byte (48 + n) else byte (87 + n).

Definition quote_char (c : ascii) : list ascii :=
  let n := Z.of_nat (nat_of_ascii c) in
  if Ascii.eqb c dquote then ["\"%char; dquote]
  else if Ascii.eqb c "\" then ["\"%char; "\"%char]
  else if n =? 8 then ["\"%char; "b"%char]
  else if n =? 12 then ["\"%char; "f"%char]
  else if n =? 10 then ["\"%char; "n"%char]
  else if n =? 13 then ["\"%char; "r"%char]
  else if n =? 9 then ["\"%char; "t"%char]
  else if n <? 32 then
    ["\"%char; "u"%char; "0"%char; "0"%char; hex_digit (n / 16);
     hex_digit (n mod 16)]
  else [c].

Definition quote (s : string) : string :=
  string_of_list_ascii
    (dquote :: flat_map quote_char (list_ascii_of_string s) ++ [dquote]).

Definition spaces (n : nat) : string := string_of_list_ascii (repeat " "%char n).

Definition join (sep : string) (parts : list string) : string :=
  match parts with
  | [] => ""
  | p :: rest => fold_left (fun acc q => String.append acc (String.append sep q)) rest p
  end.

Definition newline : string := String (byte 10) EmptyString.

Section Stringify.
Variable number_toString : float -> string.

Fixpoint stringify (indent : nat) (v : json) : string :=
  match v with
  | JNull => "null"
  | JBool b => if b then "true" else "false"
  | JNum x =>
      match Prim2SF x with
      | S754_nan | S754_infinity _ => "null"
      | _ => number_toString x
      end
  | JStr s => quote s
  | JArr [] => "[]"
  | JArr items =>
      String.concat ""
        ["["; newline;
         join (String.append "," newline)
           (map (fun item =>
                   String.append (spaces (indent + 2))
                     (stringify (indent + 2) item)) items);
         newline; spaces indent; "]"]
  | JObj [] => "{}"
  | JObj fields =>
      String.concat ""
        ["{"; newline;
         join (String.append "," newline)
           (map (fun field =>
                   String.concat ""
                     [spaces (indent + 2); quote (fst field); ": ";
                      stringify (indent + 2) (snd field)]) fields);
         newline; spaces indent; "}"]
  end.
End Stringify.

Definition reference_JSON_stringify (v : json) : string :=
  stringify reference_Number_toString 0 v.


#[export] Instance reference_host : Host := {
  JSON_parse := reference_JSON_parse;
  JSON_stringify := reference_JSON_stringify;
  parseFloat := reference_parseFloat;
  Number_toString := reference_Number_toString
}.

(** ** Example documents *)

Definition exampleRule (condition : option string) (fields : RuleFields)
  : FeatureRule :=
  {| rule_id := None; rule_description := ""; rule_condition := condition;
     rule_enabled := Some true; rule_fields := fields |}.

Definition exampleFeature (id valueType defaultValue : string)
  (archived : option bool) (enabled : bool) (rules : list FeatureRule)
  : FeatureInterface :=
  {| id := id; archived := archived; description := None;
     organization := "org"; owner := Some (JStr "owner"); project := None;
     dateCreated := 0; dateUpdated := 0;
     valueType := valueType; defaultValue := defaultValue; tags := None;
     environmentSettings :=
       Some {[ "production" :=
                 {| env_enabled := enabled; env_rules := Some rules |} ]};
     draft := None; revision := None |}.

(** The feature of the specification's end-to-end scenario. *)
Definition showBanner : FeatureInterface :=
  exampleFeature "show-banner" "boolean" "true" None true
    [exampleRule None (RolloutRule "false" 1.5 (Some "id"))].

(** A feature whose only rule has a type the compiler does not test for. *)
Definition checkoutRule : FeatureRule :=
  exampleRule None (UnknownRule "experiment-ref").

Definition checkout : FeatureInterface :=
  exampleFeature "checkout" "boolean" "true" None true [checkoutRule].

Definition archivedBanner : FeatureInterface :=
  exampleFeature "old-banner" "boolean" "true" (Some true) true
    [exampleRule None (ForceRule "false")].

Definition malformedRule : FeatureRule :=
  exampleRule (Some "{bad json") (ForceRule "false").

Definition namespacedRule : FeatureRule :=
  exampleRule None
    (ExperimentRule
       [ {| ev_value := "true"; ev_weight := 0.5; ev_name := None |};
         {| ev_value := "false"; ev_weight := 0.5; ev_name := None |} ]
       1 (Some "exp") None
       (Some {| ns_enabled := true; ns_name := "n1";
                ns_range := (BoundString "0.1", BoundString "0.6") |})).

#[export] Instance exampleCollaborators : Collaborators :=
  {| createFeature_outcome _ := Return tt;
     updateFeature_outcome _ _ _ _ := Return tt;
     findProjectById_outcome p _ :=
       Return match p with JStr "growth" => true | _ => false end;
     queueWebhook_outcome _ _ _ _ := Return tt;
     uniqid_suffix n := string_of_list_ascii (decimal_digits (Z.of_nat n));
     Date_now n := 1700000000000 + Z.of_nat n |}.

Definition examplePartial (valueType defaultValue : string) : PartialFeature :=
  {| p_id := Some "Show-Banner"; p_archived := None; p_description := None;
     p_organization := Some "org"; p_owner := Some "owner";
     p_project := None; p_valueType := Some valueType;
     p_defaultValue := Some defaultValue; p_tags := None;
     p_environmentSettings := environmentSettings showBanner;
     p_draft := None; p_revision := None |}.

(** ** Definitions used in the proofs *)

(** Whether bits were shifted out of a mantissa. *)
Definition inexact (mrs : shr_record) : bool := shr_r mrs || shr_s mrs.

(** The binary64 number that is the integer [k] (for [|k| <= 2^53]). *)
Definition ofZ (k : Z) : float := SF2Prim (binary_normalize prec emax k 0 false).

(** The weight normalizer leaves [n/1000] as it is, and [n/1000] is not
    [NaN] and lies between 0 and 1. *)
Definition on_grid (n : nat) : bool :=
  let r := (ofZ (Z.of_nat n) / 1000)%float in
  Leibniz.eqb (normalizeWeight r) r && (r =? r)%float
  && (0 <=? r)%float && (r <=? 1)%float.

(** *** Drafts up to the sign of zero

    [isEqual] takes [+0] and [-0] for equal: what it compares is a value
    with every zero made positive. *)

Definition unsigned_zero (x : float) : float :=
  if PrimFloat.is_zero x then 0%float else x.

Definition value_unsigned (v : ExperimentValue) : ExperimentValue :=
  {| ev_value := ev_value v; ev_weight := unsigned_zero (ev_weight v);
     ev_name := ev_name v |}.

Definition bound_unsigned (b : RangeBound) : RangeBound :=
  match b with
  | BoundNumber x => BoundNumber (unsigned_zero x)
  | BoundString s => BoundString s
  end.

Definition namespace_unsigned (n : NamespaceValue) : NamespaceValue :=
  {| ns_enabled := ns_enabled n; ns_name := ns_name n;
     ns_range := (bound_unsigned (fst (ns_range n)),
                  bound_unsigned (snd (ns_range n))) |}.

Definition fields_unsigned (fields : RuleFields) : RuleFields :=
  match fields with
  | ExperimentRule values cov trackingKey hashAttr ns =>
      ExperimentRule (map value_unsigned values) (unsigned_zero cov)
        trackingKey hashAttr (namespace_unsigned <$> ns)
  | RolloutRule value cov hashAttr =>
      RolloutRule value (unsigned_zero cov) hashAttr
  | other => other
  end.

Definition rule_unsigned (r : FeatureRule) : FeatureRule :=
  {| rule_id := rule_id r; rule_description := rule_description r;
     rule_condition := rule_condition r; rule_enabled := rule_enabled r;
     rule_fields := fields_unsigned (rule_fields r) |}.

Definition rules_unsigned (rules : gmap string (list FeatureRule))
  : gmap string (list FeatureRule) :=
  map rule_unsigned <$> rules.

(** What the last assignment [defs[key] = ...] left: the own property
    [key], or for ["__proto__"] the prototype. *)
Definition assigned (defs : DefinitionsObject) (key : string)
  : option FeatureDefinition :=
  if String.eqb key "__proto__" then prototype defs else entries defs !! key.

(** The field [key] of [{ ...feature, ...updates }], where [stored] is the
    field's value in [feature]: the value [updates] has under [key], when
    it has the key. *)
Definition overwritten (updates : list (string * json)) (key : string)
  (stored : option json) : option json :=
  match property key updates with
  | Some v => Some v
  | None => stored
  end.

(** [s] mentions [k]: [k] occurs in [s]. *)
Definition mentions (s k : string) : Prop :=
  exists before after, s = String.append before (String.append k after).

(** What follows the first element in a [join]. *)
Definition joined_tail (sep : string) (rest : list string) : string :=
  fold_right (fun s tail => String.append sep (String.append s tail)) "" rest.

(** The world after one [new Date()]. *)
Definition tick (w : World) : World :=
  {| calls := calls w; clockReads := S (clockReads w);
     idsGiven := idsGiven w |}.

(** A step that calls no collaborator and reads no clock: it may only
    draw identifiers. *)
Definition quiet (w w' : World) : Prop :=
  calls w' = calls w /\ clockReads w' = clockReads w
  /\ (idsGiven w <= idsGiven w')%nat.

Section ServiceRelations.
Context `{Collaborators}.

(** What [addIdsToRules] makes of one rule. *)
Definition ids_added (featureId : string) (r r' : FeatureRule) : Prop :=
  rule_description r' = rule_description r
  /\ rule_condition r' = rule_condition r
  /\ rule_enabled r' = rule_enabled r
  /\ rule_fields r' = defaultTrackingKey featureId (rule_fields r)
  /\ (truthy_opt_string (rule_id r) = true -> rule_id r' = rule_id r)
  /\ (truthy_opt_string (rule_id r) = false ->
      exists n, rule_id r' = Some (String.append "fr_" (uniqid_suffix n))).

(** What it makes of the settings of one environment. *)
Definition env_ids_added (featureId : string) (env env' : FeatureEnvironment)
  : Prop :=
  env_enabled env' = env_enabled env
  /\ match env_rules env, env_rules env' with
     | Some rules, Some rules' => Forall2 (ids_added featureId) rules rules'
     | None, None => True
     | _, _ => False
     end.

End ServiceRelations.

(** The feature [createFeatureService] returns for [examplePartial]. *)
Definition createdFeature (valueType defaultValue : string) : FeatureInterface :=
  {| id := "show-banner"; archived := Some false; description := None;
     organization := "org"; owner := Some (JStr "owner"); project := None;
     dateCreated := 1700000000000; dateUpdated := 1700000000001;
     valueType := valueType; defaultValue := defaultValue; tags := None;
     environmentSettings :=
       Some {[ "production" :=
                 {| env_enabled := true;
                    env_rules :=
                      Some [ {| rule_id := Some "fr_0"; rule_description := "";
                                rule_condition := None;
                                rule_enabled := Some true;
                                rule_fields :=
                                  RolloutRule "false" 1.5 (Some "id") |} ] |} ]};
     draft := None; revision := None |}.

(** * Properties *)

(** ** Binary64 rounding of a weight scaled by 1000 *)

Lemma iter_pos_nat {A} (f : A -> A) (p : positive) (x : A) :
  SpecFloat.iter_pos f p x = Nat.iter (Pos.to_nat p) f x.
Proof.
  revert x. induction p as [p IH | p IH |]; intros x; cbn [SpecFloat.iter_pos].
  - rewrite !IH, Pos2Nat.inj_xI.
    rewrite <- Nat.iter_add, <- Nat.iter_succ_r.
    f_equal. lia.
  - rewrite !IH, Pos2Nat.inj_xO, <- Nat.iter_add. f_equal. lia.
  - reflexivity.
Qed.

Lemma shr_1_m mrs : 0 <= shr_m mrs -> shr_m (shr_1 mrs) = shr_m mrs / 2.
Proof.
  destruct mrs as [m r s]; simpl. intros Hm.
  destruct m as [|[p|p|]|p]; simpl; try reflexivity; try lia.
  - rewrite <- Z.div2_div. reflexivity.
  - rewrite <- Z.div2_div. reflexivity.
Qed.

Lemma shr_1_inexact mrs :
  0 <= shr_m mrs -> inexact (shr_1 mrs) = inexact mrs || Z.odd (shr_m mrs).
Proof.
  destruct mrs as [m r s]; unfold inexact; simpl. intros Hm.
  destruct m as [|[p|p|]|p]; simpl; try lia; destruct r, s; reflexivity.
Qed.

Lemma shr_iter_spec P (n : nat) :
  0 <= P ->
  let mrs := Nat.iter n shr_1 {| shr_m := P; shr_r := false; shr_s := false |} in
  shr_m mrs = P / 2 ^ Z.of_nat n /\
  (inexact mrs = true -> P mod 2 ^ Z.of_nat n <> 0).
Proof.
  intros HP. induction n as [|n IH].
  - simpl. split; [now rewrite Z.div_1_r | discriminate].
  - cbn zeta in *. rewrite Nat.iter_succ.
    set (mrs := Nat.iter n shr_1 _) in *.
    destruct IH as [IHm IHi].
    assert (Hpow : 0 < 2 ^ Z.of_nat n) by (apply Z.pow_pos_nonneg; lia).
    assert (Hm0 : 0 <= shr_m mrs) by (rewrite IHm; apply Z.div_pos; lia).
    rewrite Nat2Z.inj_succ, Z.pow_succ_r by lia.
    split.
    + rewrite shr_1_m, IHm by assumption.
      rewrite Z.div_div by lia. f_equal. lia.
    + rewrite shr_1_inexact by assumption.
      intros Hi Hmod.
      apply Z.mod_divide in Hmod; [|lia].
      destruct Hmod as [q Hq].
      apply orb_true_iff in Hi. destruct Hi as [Hi | Hodd].
      * apply IHi; [assumption|].
        rewrite Hq. replace (q * (2 * 2 ^ Z.of_nat n)) with (q * 2 * 2 ^ Z.of_nat n) by ring.
        apply Z.mod_mul. lia.
      * rewrite IHm, Hq in Hodd.
        replace (q * (2 * 2 ^ Z.of_nat n)) with (q * 2 * 2 ^ Z.of_nat n) in Hodd by ring.
        rewrite Z.div_mul in Hodd by lia.
        rewrite Z.mul_comm, Z.odd_mul in Hodd. discriminate.
Qed.

Lemma shr_spec P e n :
  0 <= P ->
  let '(mrs, e') := shr {| shr_m := P; shr_r := false; shr_s := false |} e n in
  e' = e + Z.max n 0 /\
  shr_m mrs = P / 2 ^ Z.max n 0 /\
  (inexact mrs = true -> P mod 2 ^ Z.max n 0 <> 0).
Proof.
  intros HP. destruct n as [|p|p]; simpl.
  - rewrite Z.div_1_r. repeat split; [lia | discriminate].
  - rewrite iter_pos_nat.
    pose proof (shr_iter_spec P (Pos.to_nat p) HP) as Hs. cbn zeta in Hs.
    rewrite positive_nat_Z in Hs. replace (Z.max (Z.pos p) 0) with (Z.pos p) by lia. tauto.
  - rewrite Z.div_1_r. repeat split; [lia | discriminate].
Qed.

Lemma digits2_pos_size p : digits2_pos p = Pos.size p.
Proof. induction p; simpl; congruence. Qed.

Lemma Zdigits2_bound P E :
  0 < P -> P <= 1000 * 2 ^ (- E) -> E <= 0 -> Zdigits2 P + E <= 10.
Proof.
  intros HP Hle HE. destruct P as [|p|p]; try lia. cbn [Zdigits2].
  rewrite digits2_pos_size.
  pose proof (Pos.size_le p) as Hs.
  assert (Hs' : 2 ^ Z.pos (Pos.size p) <= 2 * Z.pos p).
  { change (2 * Z.pos p) with (Z.pos p~0). 
    rewrite <- Pos2Z.inj_pow. apply Pos2Z.pos_le_pos. exact Hs. }
  assert (H2 : 2 ^ Z.pos (Pos.size p) < 2 ^ (11 - E)).
  { replace (11 - E) with (11 + - E) by lia. rewrite Z.pow_add_r by lia.
    change (2 ^ 11) with 2048. 
    assert (0 < 2 ^ (- E)) by (apply Z.pow_pos_nonneg; lia).
    clear Hs. generalize dependent (2 ^ (- E)). generalize dependent (2 ^ Z.pos (Pos.size p)).
    intros. lia. }
  apply Z.pow_lt_mono_r_iff in H2; lia.
Qed.

Lemma round_nearest_even_bound m mrs :
  m = shr_m mrs ->
  let m' := round_nearest_even m (loc_of_shr_record mrs) in
  m <= m' <= m + 1 /\ (inexact mrs = false -> m' = m).
Proof.
  intros ->. destruct mrs as [m [|] [|]]; unfold inexact; simpl;
    try destruct (Z.even m); split; try lia; try discriminate; reflexivity.
Qed.

(* one rounding step keeps the value below a bound B * 2^-(e + n) *)
Lemma shr_fexp_bound P E :
  0 <= P -> E <= -43 -> P <= 1000 * 2 ^ (- E) -> 
  forall mrs e', shr_fexp prec emax P E loc_Exact = (mrs, e') ->
  e' <= -43 /\ E <= e' /\ shr_m mrs = P / 2 ^ (e' - E) /\
  (inexact mrs = true -> P mod 2 ^ (e' - E) <> 0).
Proof.
  intros HP HE Hle mrs e' Hshr.
  unfold shr_fexp in Hshr. simpl shr_record_of_loc in Hshr.
  set (n := fexp prec emax (Zdigits2 P + E) - E) in *.
  pose proof (shr_spec P E n HP) as Hs. rewrite Hshr in Hs.
  destruct Hs as (He' & Hm & Hi).
  assert (Hn : E + Z.max n 0 <= -43).
  { destruct (Z.eq_dec P 0) as [->|HP0].
    - subst n. simpl. unfold fexp, emin, prec, emax. lia.
    - pose proof (Zdigits2_bound P E ltac:(lia) Hle ltac:(lia)).
      subst n. unfold fexp, emin, prec, emax. lia. }
  replace (e' - E) with (Z.max n 0) by lia.
  repeat split; try assumption; lia.
Qed.

Lemma pow2_split a b : 0 <= a -> 0 <= b -> 2 ^ (a + b) = 2 ^ a * 2 ^ b.
Proof. intros. apply Z.pow_add_r; assumption. Qed.

Lemma mul1000_round_bound P E :
  0 < P -> E <= -43 -> P <= 1000 * 2 ^ (- E) ->
  match binary_round_aux prec emax false P E loc_Exact with
  | S754_zero false => True
  | S754_finite false m e => e < 0 /\ Z.pos m <= 1000 * 2 ^ (- e)
  | _ => False
  end.
Proof.
  intros HP HE Hle. unfold binary_round_aux.
  destruct (shr_fexp prec emax P E loc_Exact) as [mrs1 e1] eqn:H1.
  destruct (shr_fexp_bound P E ltac:(lia) HE Hle _ _ H1) as (He1 & HEe1 & Hm1 & Hi1).
  pose proof (round_nearest_even_bound (shr_m mrs1) mrs1 eq_refl) as Hr. cbn zeta in Hr.
  set (m2 := round_nearest_even (shr_m mrs1) (loc_of_shr_record mrs1)) in *.
  destruct Hr as (Hr1 & Hr2).
  assert (Hp1 : 0 < 2 ^ (e1 - E)) by (apply Z.pow_pos_nonneg; lia).
  assert (Hp2 : 0 < 2 ^ (- e1)) by (apply Z.pow_pos_nonneg; lia).
  assert (Hsplit : 2 ^ (- E) = 2 ^ (- e1) * 2 ^ (e1 - E)).
  { rewrite <- Z.pow_add_r by lia. f_equal. lia. }
  assert (Hm1pos : 0 <= shr_m mrs1) by (rewrite Hm1; apply Z.div_pos; lia).
  assert (Hm2 : 0 <= m2 <= 1000 * 2 ^ (- e1)).
  { split; [lia|].
    assert (Hq : shr_m mrs1 <= 1000 * 2 ^ (- e1)).
    { rewrite Hm1. apply Z.div_le_upper_bound; [lia|]. rewrite Hsplit in Hle. lia. }
    destruct (inexact mrs1) eqn:Hin.
    - specialize (Hi1 eq_refl).
      assert (shr_m mrs1 <> 1000 * 2 ^ (- e1)).
      { intros Heq. rewrite Hm1 in Heq.
        pose proof (Z.div_mod P (2 ^ (e1 - E)) ltac:(lia)) as Hdm.
        pose proof (Z.mod_pos_bound P (2 ^ (e1 - E)) Hp1).
        rewrite Heq in Hdm. rewrite Hsplit in Hle. lia. }
      lia.
    - rewrite Hr2 by reflexivity. exact Hq. }
  destruct (shr_fexp prec emax m2 e1 loc_Exact) as [mrs2 e2] eqn:H2.
  destruct (shr_fexp_bound m2 e1 ltac:(lia) He1 ltac:(lia) _ _ H2) as (He2 & He12 & Hm3 & _).
  assert (Hp3 : 0 < 2 ^ (e2 - e1)) by (apply Z.pow_pos_nonneg; lia).
  assert (Hp4 : 0 < 2 ^ (- e2)) by (apply Z.pow_pos_nonneg; lia).
  assert (Hsplit2 : 2 ^ (- e1) = 2 ^ (- e2) * 2 ^ (e2 - e1)).
  { rewrite <- Z.pow_add_r by lia. f_equal. lia. }
  assert (Hm3b : 0 <= shr_m mrs2 <= 1000 * 2 ^ (- e2)).
  { rewrite Hm3. split; [apply Z.div_pos; lia|].
    apply Z.div_le_upper_bound; [lia|]. rewrite Hsplit2 in Hm2. lia. }
  destruct (shr_m mrs2) as [|m3|m3]; [exact I | | lia].
  replace (e2 <=? emax - prec) with true
    by (symmetry; apply Z.leb_le; unfold emax, prec; lia).
  split; lia.
Qed.

Lemma prim_one : Prim2SF 1 = S754_finite false 4503599627370496 (-52).
Proof. vm_compute. reflexivity. Qed.

Lemma mantissa_bound m e :
  bounded prec emax m e = true -> Z.pos m < 2 ^ 53.
Proof.
  intros Hb.
  apply andb_true_iff in Hb. destruct Hb as [Hc _].
  apply Z.eqb_eq in Hc. rewrite digits2_pos_size in Hc.
  assert (Hd : Z.pos (Pos.size m) <= 53)
    by (revert Hc; unfold fexp, emin, prec, emax; lia).
  apply Z.lt_le_trans with (2 ^ Z.pos (Pos.size m)).
  - rewrite <- Pos2Z.inj_pow. apply Pos2Z.pos_lt_pos, Pos.size_gt.
  - apply Z.pow_le_mono_r; lia.
Qed.

Lemma pow2_52 : 2 ^ 52 = Z.pos 4503599627370496.
Proof. vm_compute. reflexivity. Qed.

Lemma le_one_bound m e :
  bounded prec emax m e = true ->
  SFltb (Prim2SF 1) (S754_finite false m e) = false ->
  e <= -52 /\ Z.pos m <= 2 ^ (- e).
Proof.
  intros Hb Hlt.
  pose proof (mantissa_bound m e Hb) as Hm.
  rewrite prim_one in Hlt.
  unfold SFltb, SFcompare in Hlt. revert Hlt.
  destruct (Z.compare_spec (-52) e) as [He | He | He]; try discriminate.
  - subst e. rewrite Pos.compare_cont_spec. cbn [Pos.switch_Eq].
    replace (- -52) with 52 by reflexivity. rewrite pow2_52.
    destruct (Pos.compare_spec 4503599627370496 m) as [Hc' | Hc' | Hc'];
      try discriminate; intros _; (split; [apply Z.leb_le; reflexivity|]).
    + subst m. apply Z.le_refl.
    + apply Pos2Z.pos_le_pos, Pos.lt_le_incl. exact Hc'.
  - intros _. split; [apply Z.lt_le_incl; exact He|].
    apply Z.lt_le_incl, Z.lt_le_trans with (2 ^ 53); [assumption|].
    apply Z.pow_le_mono_r; lia.
Qed.

Lemma round_half_up_range m e :
  e < 0 -> Z.pos m <= 1000 * 2 ^ (- e) ->
  exists k, 0 <= k <= 1000 /\
    SF2Prim (SF_round_half_up (S754_finite false m e)) = ofZ k.
Proof.
  intros He Hm. unfold SF_round_half_up.
  replace (0 <=? e) with false by (symmetry; apply Z.leb_gt; assumption).
  cbn [cond_Zopp]. cbv zeta.
  assert (Hp : 0 < 2 ^ (- e)) by (apply Z.pow_pos_nonneg; lia).
  assert (Hp' : 2 ^ (1 - e) = 2 * 2 ^ (- e)).
  { replace (1 - e) with (Z.succ (- e)) by lia. apply Z.pow_succ_r. lia. }
  rewrite Hp'.
  generalize dependent (2 ^ (- e)). intros q Hm Hq _.
  remember ((2 * Z.pos m + q) / (2 * q)) as k eqn:Ek.
  assert (Hk : 0 <= k <= 1000).
  { subst k. split.
    - apply Z.div_pos; lia.
    - apply Z.lt_succ_r, Z.div_lt_upper_bound; lia. }
  exists k. split; [assumption|].
  destruct (Z.eqb_spec k 0) as [E0 | _].
  - rewrite E0. reflexivity.
  - reflexivity.
Qed.

Lemma prim_zero : Prim2SF 0 = S754_zero false.
Proof. vm_compute. reflexivity. Qed.
Lemma prim_1000 : Prim2SF 1000 = S754_finite false 8796093022208000 (-43).
Proof. vm_compute. reflexivity. Qed.
Lemma round_at_0 : Math_round (0 * 1000) = ofZ 0.
Proof. vm_compute. reflexivity. Qed.
Lemma round_at_1 : Math_round (1 * 1000) = ofZ 1000.
Proof. vm_compute. reflexivity. Qed.
Lemma SF2Prim_pzero : SF2Prim (S754_zero false) = ofZ 0.
Proof. vm_compute. reflexivity. Qed.
Lemma SF2Prim_nzero : SF2Prim (S754_zero true) = (-0)%float.
Proof. vm_compute. reflexivity. Qed.
Lemma SF2Prim_nan : SF2Prim S754_nan = nan.
Proof. vm_compute. reflexivity. Qed.
Lemma pow2_43 : 2 ^ 43 = 8796093022208.
Proof. vm_compute. reflexivity. Qed.

Lemma scaled_weight_range w :
  let r := Math_round (clampWeight w * 1000) in
  (r = nan /\ PrimFloat.is_nan w = true) \/ r = (-0)%float \/
  exists k, 0 <= k <= 1000 /\ r = ofZ k.
Proof.
  cbv zeta. unfold clampWeight. rewrite !FloatAxioms.ltb_spec, prim_zero.
  destruct (SFltb (Prim2SF w) (S754_zero false)) eqn:Hneg.
  { right; right. exists 0. split; [lia | apply round_at_0]. }
  destruct (SFltb (Prim2SF 1) (Prim2SF w)) eqn:Hbig.
  { right; right. exists 1000. split; [lia | apply round_at_1]. }
  unfold Math_round. rewrite FloatAxioms.mul_spec, prim_1000.
  pose proof (Prim2SF_valid w) as Hv.
  destruct (Prim2SF w) as [s | s | | s m e] eqn:Hw.
  - destruct s; cbn [SF64mul SFmul xorb SF_round_half_up].
    + right; left. apply SF2Prim_nzero.
    + right; right. exists 0. split; [lia | apply SF2Prim_pzero].
  - destruct s; discriminate.
  - left. split; [apply SF2Prim_nan|].
    unfold PrimFloat.is_nan. rewrite FloatAxioms.eqb_spec, Hw. reflexivity.
  - destruct s; [discriminate|].
    cbn [valid_binary] in Hv.
    destruct (le_one_bound m e Hv Hbig) as [He Hm].
    unfold SF64mul, SFmul. cbn [xorb].
    assert (Hle : Z.pos (m * 8796093022208000) <= 1000 * 2 ^ (- (e + -43))).
    { rewrite Pos2Z.inj_mul.
      replace (- (e + -43)) with (- e + 43) by lia.
      rewrite Z.pow_add_r, pow2_43 by lia.
      generalize dependent (2 ^ (- e)). intros. lia. }
    pose proof (mul1000_round_bound (Z.pos (m * 8796093022208000)) (e + -43)
                  ltac:(lia) ltac:(lia) Hle) as Hr.
    destruct (binary_round_aux prec emax false _ _ loc_Exact) as [s' | s' | | s' m' e'];
      try contradiction.
    + destruct s'; [contradiction|].
      right; right. exists 0. split; [lia | apply SF2Prim_pzero].
    + destruct s'; [contradiction|]. destruct Hr as [He' Hm'].
      right; right. apply round_half_up_range; assumption.
Qed.

Lemma fixed_on_grid_true : forallb on_grid (seq 0 1001) = true.
Proof. vm_compute. reflexivity. Qed.

Lemma on_grid_true n : (n <= 1000)%nat -> on_grid n = true.
Proof.
  intros Hn.
  apply (proj1 (forallb_forall on_grid (seq 0 1001)) fixed_on_grid_true).
  apply in_seq. lia.
Qed.

Lemma normalizeWeight_grid k :
  0 <= k <= 1000 ->
  normalizeWeight (ofZ k / 1000) = (ofZ k / 1000)%float /\
  PrimFloat.is_nan (ofZ k / 1000) = false /\
  (0 <=? ofZ k / 1000)%float = true /\ (ofZ k / 1000 <=? 1)%float = true.
Proof.
  intros Hk. pose proof (on_grid_true (Z.to_nat k) ltac:(lia)) as Hg.
  unfold on_grid in Hg. rewrite Z2Nat.id in Hg by lia. cbv zeta in Hg.
  rewrite !andb_true_iff in Hg.
  destruct Hg as [[[Heq Hnan] Hlo] Hhi].
  split; [apply Leibniz.eqb_spec, Heq|].
  split; [unfold PrimFloat.is_nan; rewrite Hnan; reflexivity|].
  split; assumption.
Qed.

Lemma normalizeWeight_nan : normalizeWeight (nan / 1000) = (nan / 1000)%float.
Proof. vm_compute. reflexivity. Qed.

Lemma normalizeWeight_nzero :
  normalizeWeight (-0 / 1000) = (-0 / 1000)%float /\
  PrimFloat.is_nan (-0 / 1000) = false /\
  (0 <=? -0 / 1000)%float = true /\ (-0 / 1000 <=? 1)%float = true.
Proof. vm_compute. repeat split; reflexivity. Qed.

(** The normalizer's value is [NaN] (for a [NaN] weight only), or [-0], or
    one of the grid values. *)
Lemma normalizeWeight_range w :
  (PrimFloat.is_nan w = true /\ normalizeWeight w = (nan / 1000)%float) \/
  normalizeWeight w = (-0 / 1000)%float \/
  exists k, 0 <= k <= 1000 /\ normalizeWeight w = (ofZ k / 1000)%float.
Proof.
  unfold normalizeWeight, roundVariationWeight.
  destruct (scaled_weight_range w) as [[Hr Hn] | [Hr | (k & Hk & Hr)]];
    rewrite Hr.
  - left. split; [assumption | reflexivity].
  - right; left. reflexivity.
  - right; right. exists k. split; [assumption | reflexivity].
Qed.

Lemma normalizeWeight_idempotent w :
  normalizeWeight (normalizeWeight w) = normalizeWeight w.
Proof.
  destruct (normalizeWeight_range w) as [[_ Hr] | [Hr | (k & Hk & Hr)]];
    rewrite Hr.
  - apply normalizeWeight_nan.
  - apply normalizeWeight_nzero.
  - apply normalizeWeight_grid. assumption.
Qed.

Lemma normalizeWeight_not_nan w :
  PrimFloat.is_nan w = false -> PrimFloat.is_nan (normalizeWeight w) = false.
Proof.
  intros Hw.
  destruct (normalizeWeight_range w) as [[Hn _] | [Hr | (k & Hk & Hr)]].
  - congruence.
  - rewrite Hr. apply normalizeWeight_nzero.
  - rewrite Hr. apply normalizeWeight_grid. assumption.
Qed.

(** ** Numbers: [||] and the comparisons *)

Lemma or_zero_nan x : PrimFloat.is_nan x = true -> or_zero x = 0%float.
Proof. intros Hx. unfold or_zero, truthy_number. rewrite Hx. reflexivity. Qed.

Lemma strict_eq_refl x :
  PrimFloat.is_nan x = false -> strict_eq_number x x = true.
Proof.
  unfold PrimFloat.is_nan, strict_eq_number. intros Hx.
  apply negb_false_iff in Hx. exact Hx.
Qed.

Lemma is_zero_strict_eq x :
  PrimFloat.is_zero x = true -> strict_eq_number 0 x = true.
Proof.
  unfold PrimFloat.is_zero, strict_eq_number.
  change PrimFloat.zero with 0%float.
  rewrite !FloatAxioms.eqb_spec, prim_zero.
  destruct (Prim2SF x) as [s | s | | s m e]; try destruct s;
    try discriminate; reflexivity.
Qed.

(** [x || 0] is [x] up to [===] unless [x] is [NaN], and is [x] itself
    unless [x] is [NaN] or a zero. *)
Lemma or_zero_strict_eq x :
  PrimFloat.is_nan x = false ->
  strict_eq_number (or_zero x) x = true /\
  (PrimFloat.is_zero x = false -> or_zero x = x).
Proof.
  intros Hx. unfold or_zero, truthy_number. rewrite Hx. cbn [orb].
  destruct (PrimFloat.is_zero x) eqn:Hz; cbn [negb].
  - split; [apply is_zero_strict_eq, Hz | discriminate].
  - split; [apply strict_eq_refl, Hx | reflexivity].
Qed.

Lemma SFcompare_antisym x y :
  SFcompare y x = option_map CompOpp (SFcompare x y).
Proof.
  destruct x as [sx | sx | | sx mx ex], y as [sy | sy | | sy my ey];
    cbn [SFcompare option_map CompOpp]; try reflexivity;
    try (destruct sx; reflexivity); try (destruct sy; reflexivity);
    try (destruct sx, sy; reflexivity).
  destruct sx, sy; cbn [CompOpp]; try reflexivity.
  - rewrite (Z.compare_antisym ex ey).
    destruct (ex ?= ey) eqn:He; cbn [CompOpp]; try reflexivity.
    rewrite !Pos.compare_cont_spec. cbn [Pos.switch_Eq].
    rewrite (Pos.compare_antisym mx my).
    destruct (mx ?= my)%positive; reflexivity.
  - rewrite (Z.compare_antisym ex ey).
    destruct (ex ?= ey) eqn:He; cbn [CompOpp]; try reflexivity.
    rewrite !Pos.compare_cont_spec. cbn [Pos.switch_Eq].
    rewrite (Pos.compare_antisym mx my).
    destruct (mx ?= my)%positive; reflexivity.
Qed.

(** For numbers that are not [NaN], [!(x < y)] is [y <= x]. *)
Lemma SFcompare_not_nan x y :
  SFeqb x x = true -> SFeqb y y = true -> exists c, SFcompare x y = Some c.
Proof.
  destruct x as [sx | sx | | sx mx ex], y as [sy | sy | | sy my ey];
    try discriminate; intros _ _; cbn [SFcompare]; eexists; reflexivity.
Qed.

(** For numbers that are not [NaN], [!(x < y)] is [y <= x]. *)
Lemma not_ltb_leb x y :
  PrimFloat.is_nan x = false -> PrimFloat.is_nan y = false ->
  (x <? y)%float = false -> (y <=? x)%float = true.
Proof.
  unfold PrimFloat.is_nan.
  rewrite !FloatAxioms.eqb_spec, FloatAxioms.ltb_spec, FloatAxioms.leb_spec.
  intros Hx Hy. apply negb_false_iff in Hx, Hy.
  destruct (SFcompare_not_nan _ _ Hx Hy) as [c Hc].
  unfold SFltb, SFleb. rewrite (SFcompare_antisym (Prim2SF x) (Prim2SF y)), Hc.
  destruct c; cbn; congruence.
Qed.

Lemma clampCoverage_cases cov :
  ((1 <? cov)%float = true -> clampCoverage cov = 1%float) /\
  ((cov <? 0)%float = true -> clampCoverage cov = 0%float) /\
  ((1 <? cov)%float = false -> (cov <? 0)%float = false ->
   clampCoverage cov = cov).
Proof.
  unfold clampCoverage.
  destruct (1 <? cov)%float eqn:H1, (cov <? 0)%float eqn:H0;
    repeat split; intros; try discriminate; try reflexivity.
  (* both tests cannot hold *)
  exfalso. revert H1 H0. rewrite !FloatAxioms.ltb_spec, prim_one, prim_zero.
  destruct (Prim2SF cov) as [s | s | | s m e]; cbn; try discriminate;
    destruct s; cbn; discriminate.
Qed.

(** ** The value coercer *)

Section CompilerFacts.
Context `{Host}.

(** C1. The value coercer, type by type: ["json"] gives the parsed
    structure, or [null] when [JSON.parse] throws; ["number"] gives [0]
    when [parseFloat] yields [NaN] and otherwise the parsed number (up to
    [===]: [parseFloat(value) || 0] also turns [-0] into [0]; any number
    that is not a zero is returned as it is); ["string"] gives the raw
    value; ["boolean"] gives [false] exactly for the string ["false"] and
    [true] for every other string, among them the empty string, ["0"]
    and ["no"]; any other value type gives [null]. *)
Theorem getJSONValue_by_type (value : string) :
  getJSONValue "json" value
    = match JSON_parse value with Return v => v | Throw _ => JNull end
  /\ (PrimFloat.is_nan (parseFloat value) = true ->
      getJSONValue "number" value = JNum 0)
  /\ (PrimFloat.is_nan (parseFloat value) = false ->
      exists x,
        getJSONValue "number" value = JNum x
        /\ strict_eq_number x (parseFloat value) = true
        /\ (PrimFloat.is_zero (parseFloat value) = false ->
            x = parseFloat value))
  /\ getJSONValue "string" value = JStr value
  /\ (getJSONValue "boolean" value = JBool false <-> value = "false")
  /\ (value <> "false" -> getJSONValue "boolean" value = JBool true)
  /\ getJSONValue "boolean" "" = JBool true
  /\ getJSONValue "boolean" "0" = JBool true
  /\ getJSONValue "boolean" "no" = JBool true
  /\ (forall type,
        type <> "json" -> type <> "number" -> type <> "string" ->
        type <> "boolean" -> getJSONValue type value = JNull).
Proof.
  unfold getJSONValue. cbn [String.eqb Ascii.eqb Bool.eqb].
  repeat apply conj.
  - unfold try_catch. destruct (JSON_parse value); reflexivity.
  - intros Hnan. rewrite or_zero_nan by assumption. reflexivity.
  - intros Hnan. exists (or_zero (parseFloat value)).
    destruct (or_zero_strict_eq _ Hnan) as [Heq Hsame].
    repeat apply conj; [reflexivity | assumption | assumption].
  - reflexivity.
  - destruct (String.eqb_spec value "false") as [Heq | Hne];
      [intros _; exact Heq | discriminate].
  - intros ->. reflexivity.
  - intros Hne. destruct (String.eqb_spec value "false"); [contradiction | reflexivity].
  - reflexivity.
  - reflexivity.
  - reflexivity.
  - intros type Hj Hn Hs Hb.
    apply String.eqb_neq in Hj, Hn, Hs, Hb.
    rewrite Hj, Hn, Hs, Hb. reflexivity.
Qed.

(** ** The rule compiler *)

Lemma compileRule_condition valueType r :
  condition (compileRule valueType r) = compileCondition r.
Proof. unfold compileRule. destruct (rule_fields r); reflexivity. Qed.

Lemma truthy_string_iff s : truthy_string s = true <-> s <> "".
Proof.
  unfold truthy_string. rewrite negb_true_iff. apply String.eqb_neq.
Qed.

Lemma if_present_Some o a :
  if_present o = Some a <-> o = Some a /\ a <> "".
Proof.
  unfold if_present, truthy_opt_string. destruct o as [s|].
  - destruct (truthy_string s) eqn:Hs.
    + apply truthy_string_iff in Hs. split.
      * intros [= ->]. split; [reflexivity | assumption].
      * intros [Heq _]. exact Heq.
    + split; [discriminate|]. intros [[= ->] Hne].
      apply truthy_string_iff in Hne. congruence.
  - split; [discriminate | intros [? _]; discriminate].
Qed.

Lemma compileRules_length valueType rules :
  length (compileRules valueType (Some rules))
  = length (List.filter (fun r => truthy_opt_bool (rule_enabled r)) rules).
Proof. unfold compileRules. apply length_map. Qed.

(** C2, as the code has it.  The rule compiler returns a record for every
    rule and never [null]: a force, experiment or rollout rule yields a
    record with [force] or [variations] set, and a rule of any other type
    yields a record with no field except the [condition] when there is
    one.  The assembler has no step that drops records, so every enabled
    rule, whatever its type, contributes exactly one record, in stored
    order. *)
Theorem every_enabled_rule_compiles (valueType : string)
  (rules : list FeatureRule) :
  compileRules valueType (Some rules)
    = map (compileRule valueType)
        (List.filter (fun r => truthy_opt_bool (rule_enabled r)) rules)
  /\ length (compileRules valueType (Some rules))
     = length (List.filter (fun r => truthy_opt_bool (rule_enabled r)) rules)
  /\ (forall r,
        match rule_fields r with
        | UnknownRule _ =>
            compileRule valueType r
            = {| condition := compileCondition r; force := None;
                 variations := None; coverage := None; weights := None;
                 key := None; hashAttribute := None; namespace := None |}
        | _ =>
            is_Some (force (compileRule valueType r))
            \/ is_Some (variations (compileRule valueType r))
        end).
Proof.
  split; [reflexivity|]. split; [apply compileRules_length|].
  intros r. unfold compileRule.
  destruct (rule_fields r); cbn [force variations]; eauto.
Qed.

(** C6. The compiled [condition] is the parsed JSON of the rule's
    condition string exactly when the string is present, is not ["{}"] and
    parses; a condition that fails to parse leaves the field absent and
    nothing is thrown (the compiler is a total function to a record).
    [JSON.parse("")] throws, which is why an empty condition string needs
    no clause of its own. *)
Theorem condition_parse_tolerant (valueType : string) (r : FeatureRule) :
  (forall v, JSON_parse "" <> Return v) ->
  (forall j,
     condition (compileRule valueType r) = Some j
     <-> exists c, rule_condition r = Some c /\ c <> "{}"
                   /\ JSON_parse c = Return j)
  /\ (forall c e,
        rule_condition r = Some c -> JSON_parse c = Throw e ->
        condition (compileRule valueType r) = None).
Proof.
  intros Hempty. rewrite compileRule_condition. unfold compileCondition.
  split.
  - intros j. destruct (rule_condition r) as [c|].
    + destruct (truthy_string c) eqn:Hc; cbn [andb].
      * destruct (String.eqb_spec c "{}") as [-> | Hne]; cbn [negb].
        -- split; [discriminate|]. intros (c & [= <-] & Hne & _). congruence.
        -- unfold try_catch. split.
           ++ destruct (JSON_parse c) as [v|e] eqn:Hp; [|discriminate].
              intros [= <-]. exists c. auto.
           ++ intros (c' & [= <-] & _ & Hp). rewrite Hp. reflexivity.
      * apply negb_false_iff, String.eqb_eq in Hc. subst c.
        split; [discriminate|].
        intros (c & [= <-] & _ & Hp). exfalso. exact (Hempty _ Hp).
    + split; [discriminate|]. intros (c & Hc & _). discriminate.
  - intros c e -> Hp.
    destruct (truthy_string c && negb (c =? "{}")%string); [|reflexivity].
    rewrite Hp. reflexivity.
Qed.

(** C7. An experiment rule's compiled record has a [namespace] exactly
    when the rule's namespace is present, enabled and named; the field is
    then [[name, low, high]] with each bound [parseFloat(range[i]) || 0]:
    [0] when the parse is [NaN], and otherwise the parsed number (up to
    [===], as [||] also turns [-0] into [0]). *)
Theorem experiment_namespace (valueType : string) (r : FeatureRule)
  (values : list ExperimentValue) (cov : float)
  (trackingKey hashAttr : option string) (ns : option NamespaceValue) :
  rule_fields r = ExperimentRule values cov trackingKey hashAttr ns ->
  let bound b := or_zero (parseFloat_any b) in
  (forall n,
     ns = Some n -> ns_enabled n = true -> ns_name n <> "" ->
     namespace (compileRule valueType r)
     = Some (ns_name n, bound (fst (ns_range n)), bound (snd (ns_range n))))
  /\ (is_Some (namespace (compileRule valueType r))
      <-> exists n, ns = Some n /\ ns_enabled n = true /\ ns_name n <> "")
  /\ (forall b,
        (PrimFloat.is_nan (parseFloat_any b) = true -> bound b = 0%float)
        /\ (PrimFloat.is_nan (parseFloat_any b) = false ->
            strict_eq_number (bound b) (parseFloat_any b) = true)).
Proof.
  intros Hr bound. unfold compileRule. rewrite Hr. cbn [namespace].
  unfold compileNamespace. repeat apply conj.
  - intros n -> Hen Hname. apply truthy_string_iff in Hname.
    rewrite Hen, Hname. reflexivity.
  - intros [x Hx]. destruct ns as [n|]; [|discriminate].
    destruct (ns_enabled n) eqn:Hen; [|discriminate].
    destruct (truthy_string (ns_name n)) eqn:Hname; [|discriminate].
    exists n. apply truthy_string_iff in Hname. auto.
  - intros (n & -> & Hen & Hname). apply truthy_string_iff in Hname.
    rewrite Hen, Hname. eexists; reflexivity.
  - intros b. split.
    + apply or_zero_nan.
    + intros Hb. apply or_zero_strict_eq, Hb.
Qed.

(** ** The assembler *)

Lemma lookup_entries (defs : DefinitionsObject) k :
  defs !! k = entries defs !! k.
Proof. reflexivity. Qed.

Lemma lookup_assigned (defs : DefinitionsObject) k :
  k <> "__proto__" -> defs !! k = assigned defs k.
Proof.
  intros Hk. unfold assigned. apply String.eqb_neq in Hk. rewrite Hk.
  reflexivity.
Qed.

Lemma assign_assigned defs key value k :
  assigned (assign defs key value) k
  = if decide (key = k) then Some value else assigned defs k.
Proof.
  unfold assigned, assign.
  destruct (String.eqb_spec key "__proto__") as [-> | Hkey];
    destruct (String.eqb_spec k "__proto__") as [-> | Hk]; cbn [entries prototype].
  - destruct (decide ("__proto__" = "__proto__")); [reflexivity | contradiction].
  - destruct (decide ("__proto__" = k)); [congruence | reflexivity].
  - destruct (decide (key = "__proto__")); [contradiction | reflexivity].
  - destruct (decide (key = k)) as [<- | Hne].
    + apply lookup_insert_eq.
    + apply lookup_insert_ne. assumption.
Qed.

Lemma addFeature_assigned env defs f k :
  assigned (addFeature env defs f) k
  = if skipped f env then assigned defs k
    else if decide (id f = k)
         then compileFeature f <$> lookupSettings f env
         else assigned defs k.
Proof.
  unfold addFeature, skipped.
  destruct (lookupSettings f env) as [s|]; [|reflexivity].
  destruct (negb (env_enabled s) || truthy_opt_bool (archived f));
    [reflexivity|].
  apply assign_assigned.
Qed.

Lemma getFeatureDefinitions_snoc features f environment :
  getFeatureDefinitions (features ++ [f]) environment
  = addFeature (default "production" environment)
      (getFeatureDefinitions features environment) f.
Proof. unfold getFeatureDefinitions. apply fold_left_app. Qed.

(** The object never has an own property ["__proto__"]. *)
Lemma no_own_proto features environment :
  getFeatureDefinitions features environment !! "__proto__" = None.
Proof.
  induction features as [|f features IH] using rev_ind; [reflexivity|].
  rewrite getFeatureDefinitions_snoc. unfold addFeature.
  destruct (lookupSettings f _) as [s|]; [|exact IH].
  destruct (negb (env_enabled s) || truthy_opt_bool (archived f)); [exact IH|].
  unfold assign. destruct (String.eqb_spec (id f) "__proto__") as [_ | Hne];
    [exact IH|].
  rewrite lookup_entries. cbn [entries].
  rewrite lookup_insert_ne by assumption. exact IH.
Qed.

(** Two such objects with the same assignments under every key are the
    same object. *)
Lemma definitions_eq features features' environment environment' :
  (forall k,
     assigned (getFeatureDefinitions features environment) k
     = assigned (getFeatureDefinitions features' environment') k) ->
  getFeatureDefinitions features environment
  = getFeatureDefinitions features' environment'.
Proof.
  intros Hall.
  pose proof (no_own_proto features environment) as Ha.
  pose proof (no_own_proto features' environment') as Hb.
  destruct (getFeatureDefinitions features environment) as [ea pa],
           (getFeatureDefinitions features' environment') as [eb pb].
  rewrite lookup_entries in Ha, Hb. cbn [entries] in Ha, Hb.
  f_equal.
  - apply map_eq. intros k.
    destruct (String.eqb_spec k "__proto__") as [-> | Hk]; [congruence|].
    specialize (Hall k). unfold assigned in Hall.
    apply String.eqb_neq in Hk. rewrite Hk in Hall. exact Hall.
  - exact (Hall "__proto__").
Qed.

(** Whatever was assigned under a key comes from a feature of the
    collection that is not skipped. *)
Lemma assigned_origin features environment k d :
  assigned (getFeatureDefinitions features environment) k = Some d ->
  exists f s,
    f ∈ features /\ id f = k
    /\ skipped f (default "production" environment) = false
    /\ lookupSettings f (default "production" environment) = Some s
    /\ d = compileFeature f s.
Proof.
  induction features as [|f features IH] using rev_ind.
  - unfold getFeatureDefinitions, assigned. cbn.
    destruct (k =? "__proto__")%string; [discriminate|].
    rewrite lookup_empty. discriminate.
  - rewrite getFeatureDefinitions_snoc, addFeature_assigned.
    destruct (skipped f _) eqn:Hskip.
    + intros Hd. destruct (IH Hd) as (g & s & Hin & Hrest).
      exists g, s. split; [apply elem_of_app; auto | exact Hrest].
    + destruct (decide (id f = k)) as [Hk | Hk].
      * destruct (lookupSettings f _) as [s|] eqn:Hs; [|discriminate].
        intros [= <-]. exists f, s. repeat apply conj; try assumption.
        -- apply elem_of_app. right. apply list_elem_of_singleton. reflexivity.
        -- reflexivity.
      * intros Hd. destruct (IH Hd) as (g & s & Hin & Hrest).
        exists g, s. split; [apply elem_of_app; auto | exact Hrest].
Qed.

(** Every entry of the assembled mapping comes from a feature of the
    collection that is not skipped. *)
Lemma definition_origin features environment k d :
  getFeatureDefinitions features environment !! k = Some d ->
  exists f s,
    f ∈ features /\ id f = k
    /\ skipped f (default "production" environment) = false
    /\ lookupSettings f (default "production" environment) = Some s
    /\ d = compileFeature f s.
Proof.
  intros Hd. apply assigned_origin.
  rewrite <- lookup_assigned; [exact Hd|].
  intros ->. rewrite no_own_proto in Hd. discriminate.
Qed.

(** With unique ids, the definition of a feature that is not skipped is
    what is assigned under its id. *)
Lemma assigned_of_feature features environment f s :
  NoDup (id <$> features) -> f ∈ features ->
  skipped f (default "production" environment) = false ->
  lookupSettings f (default "production" environment) = Some s ->
  assigned (getFeatureDefinitions features environment) (id f)
  = Some (compileFeature f s).
Proof.
  induction features as [|g features IH] using rev_ind.
  - intros _ Hin. inversion Hin.
  - intros Hnd Hin Hskip Hs.
    rewrite fmap_app in Hnd. apply NoDup_app in Hnd.
    destruct Hnd as (Hnd & Hdisj & _).
    rewrite getFeatureDefinitions_snoc, addFeature_assigned.
    apply elem_of_app in Hin. destruct Hin as [Hin | Hin].
    + assert (Hne : id g <> id f).
      { intros Heq. apply (Hdisj (id f)).
        - apply list_elem_of_fmap_2. assumption.
        - rewrite <- Heq. apply list_elem_of_singleton. reflexivity. }
      destruct (skipped g _); [auto|].
      destruct (decide (id g = id f)); [contradiction | auto].
    + apply list_elem_of_singleton in Hin. subst g.
      rewrite Hskip, Hs. destruct (decide (id f = id f)); [reflexivity | contradiction].
Qed.

(** So, unless its id is ["__proto__"], it has its own entry. *)
Lemma definition_of_feature features environment f s :
  NoDup (id <$> features) -> f ∈ features ->
  skipped f (default "production" environment) = false ->
  lookupSettings f (default "production" environment) = Some s ->
  id f <> "__proto__" ->
  getFeatureDefinitions features environment !! id f
  = Some (compileFeature f s).
Proof.
  intros Hnd Hin Hskip Hs Hid. rewrite lookup_assigned by exact Hid.
  apply assigned_of_feature; assumption.
Qed.

Lemma skipped_cases f env :
  skipped f env = true
  <-> archived f = Some true \/ lookupSettings f env = None
      \/ exists s, lookupSettings f env = Some s /\ env_enabled s = false.
Proof.
  unfold skipped. destruct (lookupSettings f env) as [s|].
  - rewrite orb_true_iff, negb_true_iff. split.
    + intros [Hen | Har].
      * right; right. eauto.
      * left. destruct (archived f) as [[|]|]; cbn in Har; congruence.
    + intros [Har | [Hn | (s' & [= <-] & Hen)]].
      * right. rewrite Har. reflexivity.
      * discriminate.
      * left. assumption.
  - split; [intros _; right; left; reflexivity | reflexivity].
Qed.

Lemma filter_none_enabled rules :
  Forall (fun r => truthy_opt_bool (rule_enabled r) = false) rules ->
  List.filter (fun r => truthy_opt_bool (rule_enabled r)) rules = [].
Proof.
  induction 1 as [|r rules Hr _ IH]; [reflexivity|].
  cbn. rewrite Hr. exact IH.
Qed.

(** C3. With feature ids unique in the collection (the data model's
    invariant), the assembled mapping has no entry under the id of a
    feature that is archived, or has no settings for the requested
    environment, or has them with [enabled] false. *)
Theorem skipped_feature_absent (features : list FeatureInterface)
  (environment : option string) (f : FeatureInterface) :
  NoDup (id <$> features) -> f ∈ features ->
  (archived f = Some true
   \/ lookupSettings f (default "production" environment) = None
   \/ exists s, lookupSettings f (default "production" environment) = Some s
                /\ env_enabled s = false) ->
  getFeatureDefinitions features environment !! id f = None.
Proof.
  intros Hnd Hin Hskip. apply skipped_cases in Hskip.
  destruct (getFeatureDefinitions features environment !! id f) as [d|] eqn:Hd;
    [|reflexivity].
  exfalso. apply definition_origin in Hd.
  destruct Hd as (g & s & Hg & Hid & Hnot & _).
  assert (g = f); [|congruence].
  apply list_elem_of_lookup in Hg, Hin.
  destruct Hg as [i Hi], Hin as [j Hj].
  assert (i = j); [|congruence].
  apply (NoDup_lookup (id <$> features) i j (id f)); [assumption | |].
  - rewrite list_lookup_fmap, Hi. cbn. congruence.
  - rewrite list_lookup_fmap, Hj. reflexivity.
Qed.

(** C4. For a feature that passes the skip check (ids unique), the
    compiled definition holds the coerced default value, and its [rules]
    field is built from the environment's enabled rules, in stored order,
    each passed through the rule compiler; when that sequence is empty (no
    rules, or every rule disabled) the field is absent, never an empty
    sequence.  The definition is the entry under the feature's id; for the
    id ["__proto__"] alone the assignment makes it the prototype of the
    mapping instead, and there is no entry. *)
Theorem rules_field_of_entry (features : list FeatureInterface)
  (environment : option string) (f : FeatureInterface)
  (s : FeatureEnvironment) :
  NoDup (id <$> features) -> f ∈ features ->
  lookupSettings f (default "production" environment) = Some s ->
  env_enabled s = true -> truthy_opt_bool (archived f) = false ->
  let compiled :=
    map (compileRule (valueType f))
      (List.filter (fun r => truthy_opt_bool (rule_enabled r))
         (default [] (env_rules s))) in
  exists d,
    (id f <> "__proto__" ->
     getFeatureDefinitions features environment !! id f = Some d)
    /\ (id f = "__proto__" ->
        prototype (getFeatureDefinitions features environment) = Some d
        /\ getFeatureDefinitions features environment !! id f = None)
    /\ def_defaultValue d = getJSONValue (valueType f) (defaultValue f)
    /\ (compiled = [] -> def_rules d = None)
    /\ (compiled <> [] -> def_rules d = Some compiled)
    /\ def_rules d <> Some []
    /\ (Forall (fun r => truthy_opt_bool (rule_enabled r) = false)
          (default [] (env_rules s)) -> def_rules d = None).
Proof.
  intros Hnd Hin Hs Hen Har compiled.
  assert (Hskip : skipped f (default "production" environment) = false).
  { unfold skipped. rewrite Hs, Hen, Har. reflexivity. }
  pose proof (assigned_of_feature features environment f s Hnd Hin Hskip Hs)
    as Hassigned.
  exists (compileFeature f s). split; [|split].
  - intros Hid. apply definition_of_feature; assumption.
  - intros Hid. rewrite Hid in *. split; [exact Hassigned | apply no_own_proto].
  - assert (Hc : compileRules (valueType f) (env_rules s) = compiled).
    { unfold compileRules, compiled. destruct (env_rules s); reflexivity. }
    unfold compileFeature. cbn [def_rules def_defaultValue]. rewrite Hc.
    assert (Hnone : compiled = [] ->
              def_rules (if (length compiled =? 0)%nat
                         then {| def_defaultValue :=
                                   getJSONValue (valueType f) (defaultValue f);
                                 def_rules := None |}
                         else {| def_defaultValue :=
                                   getJSONValue (valueType f) (defaultValue f);
                                 def_rules := Some compiled |}) = None).
    { intros ->. reflexivity. }
    repeat apply conj.
    + destruct compiled; reflexivity.
    + exact Hnone.
    + intros Hne. destruct compiled; [contradiction | reflexivity].
    + destruct compiled; cbn; discriminate.
    + intros Hall. apply Hnone. unfold compiled.
      rewrite filter_none_enabled by assumption. reflexivity.
Qed.

(** C8. A rollout rule compiles to [force], the coerced value;
    [coverage], the input clamped ([1] above 1, [0] below 0, the input
    otherwise, which lies in [[0,1]] unless it is [NaN]); and
    [hashAttribute] exactly when the rule has a non-empty one.  The
    end-to-end scenario compiles as the specification says. *)
Theorem rollout_rule_compiles :
  (forall valueType r value cov hashAttr,
     rule_fields r = RolloutRule value cov hashAttr ->
     force (compileRule valueType r) = Some (getJSONValue valueType value)
     /\ coverage (compileRule valueType r) = Some (clampCoverage cov)
     /\ (forall a, hashAttribute (compileRule valueType r) = Some a
                   <-> hashAttr = Some a /\ a <> ""))
  /\ (forall cov,
        ((1 <? cov)%float = true -> clampCoverage cov = 1%float)
        /\ ((cov <? 0)%float = true -> clampCoverage cov = 0%float)
        /\ ((1 <? cov)%float = false -> (cov <? 0)%float = false ->
            clampCoverage cov = cov)
        /\ (PrimFloat.is_nan cov = false ->
            (0 <=? clampCoverage cov)%float = true
            /\ (clampCoverage cov <=? 1)%float = true))
  /\ getFeatureDefinitions [showBanner] (Some "production")
     = {[ "show-banner" :=
            {| def_defaultValue := JBool true;
               def_rules :=
                 Some [ {| condition := None; force := Some (JBool false);
                           variations := None; coverage := Some 1%float;
                           weights := None; key := None;
                           hashAttribute := Some "id";
                           namespace := None |} ] |} ]}.
Proof.
  repeat apply conj.
  - intros valueType r value cov hashAttr Hr.
    unfold compileRule. rewrite Hr. cbn [force coverage hashAttribute].
    split; [reflexivity|]. split; [reflexivity|].
    intros a. apply if_present_Some.
  - intros cov.
    destruct (clampCoverage_cases cov) as (Hhi & Hlo & Hmid).
    repeat apply conj; try assumption.
    intros Hnan.
    destruct (1 <? cov)%float eqn:H1;
      [rewrite Hhi by reflexivity; split; reflexivity|].
    destruct (cov <? 0)%float eqn:H2;
      [rewrite Hlo by reflexivity; split; reflexivity|].
    rewrite Hmid by reflexivity. split; apply not_ltb_leb; auto.
  - reflexivity.
Qed.

End CompilerFacts.

(** C2, as stated, fails: a rule of an unrecognized type does contribute a
    record.  The feature [checkout] has one enabled rule, of type
    ["experiment-ref"], and its compiled [rules] hold one (empty) record. *)
Lemma unrecognized_rule_contributes_record :
  rule_type checkoutRule = "experiment-ref"
  /\ recognized_type (rule_type checkoutRule) = false
  /\ getFeatureDefinitions [checkout] None !! "checkout"
     = Some {| def_defaultValue := JBool true;
               def_rules := Some [emptyRule] |}.
Proof. repeat apply conj; reflexivity. Qed.

Lemma skipped_feature_absent_witness :
  getFeatureDefinitions [archivedBanner] None !! id archivedBanner = None.
Proof.
  apply (skipped_feature_absent [archivedBanner] None archivedBanner).
  - apply NoDup_singleton.
  - apply list_elem_of_singleton. reflexivity.
  - left. reflexivity.
Defined.

Lemma rules_field_of_entry_witness :
  exists d,
    (id showBanner <> "__proto__" ->
     getFeatureDefinitions [showBanner] None !! id showBanner = Some d)
    /\ (id showBanner = "__proto__" ->
        prototype (getFeatureDefinitions [showBanner] None) = Some d
        /\ getFeatureDefinitions [showBanner] None !! id showBanner = None)
    /\ def_defaultValue d = JBool true
    /\ (compileRules "boolean"
          (Some [exampleRule None (RolloutRule "false" 1.5 (Some "id"))]) = [] ->
        def_rules d = None)
    /\ (compileRules "boolean"
          (Some [exampleRule None (RolloutRule "false" 1.5 (Some "id"))]) <> [] ->
        def_rules d
        = Some (compileRules "boolean"
                  (Some [exampleRule None (RolloutRule "false" 1.5 (Some "id"))])))
    /\ def_rules d <> Some []
    /\ (Forall (fun r => truthy_opt_bool (rule_enabled r) = false)
          [exampleRule None (RolloutRule "false" 1.5 (Some "id"))] ->
        def_rules d = None).
Proof.
  apply (rules_field_of_entry [showBanner] None showBanner
           {| env_enabled := true;
              env_rules :=
                Some [exampleRule None (RolloutRule "false" 1.5 (Some "id"))] |}).
  - apply NoDup_singleton.
  - apply list_elem_of_singleton. reflexivity.
  - reflexivity.
  - reflexivity.
  - reflexivity.
Defined.

(** The one id that gets no entry: the definition of a live feature
    called ["__proto__"] becomes the prototype of the mapping. *)
Example proto_feature_sets_prototype :
  getFeatureDefinitions
    [exampleFeature "__proto__" "boolean" "true" None true []] None
  = {| entries := ∅;
       prototype := Some {| def_defaultValue := JBool true;
                            def_rules := None |} |}.
Proof. reflexivity. Qed.

Lemma condition_parse_tolerant_witness :
  (forall j,
     condition (compileRule "boolean" malformedRule) = Some j
     <-> exists c, rule_condition malformedRule = Some c /\ c <> "{}"
                   /\ JSON_parse c = Return j)
  /\ (forall c e,
        rule_condition malformedRule = Some c -> JSON_parse c = Throw e ->
        condition (compileRule "boolean" malformedRule) = None).
Proof.
  apply (condition_parse_tolerant "boolean" malformedRule).
  intros v. vm_compute. discriminate.
Defined.

Lemma experiment_namespace_witness :
  namespace (compileRule "boolean" namespacedRule) = Some ("n1", 0.1, 0.6)%float.
Proof.
  destruct (experiment_namespace "boolean" namespacedRule _ _ _ _ _ eq_refl)
    as [Hns _].
  rewrite (Hns _ eq_refl eq_refl); [|discriminate].
  vm_compute. reflexivity.
Defined.

(** C5. The experiment-weight pipeline (clamp to [[0,1]], then
    [Math.round(w * 1000) / 1000]) is idempotent on every binary64 weight:
    applying it twice gives the same value as applying it once (and the
    two are [===] unless the weight is [NaN]).  It maps [1.23456] to [1]
    and [-0.2] to [0], and it is what each compiled experiment weight went
    through. *)
Theorem weight_normalization_idempotent :
  (forall w, normalizeWeight (normalizeWeight w) = normalizeWeight w)
  /\ (forall w,
        PrimFloat.is_nan w = false ->
        strict_eq_number (normalizeWeight (normalizeWeight w))
          (normalizeWeight w) = true)
  /\ normalizeWeight 1.23456 = 1%float
  /\ normalizeWeight (-0.2) = 0%float
  /\ (forall (host : Host) valueType r values cov trackingKey hashAttr ns,
        rule_fields r = ExperimentRule values cov trackingKey hashAttr ns ->
        weights (compileRule valueType r)
        = Some (map normalizeWeight (map ev_weight values))).
Proof.
  repeat apply conj.
  - apply normalizeWeight_idempotent.
  - intros w Hw. rewrite normalizeWeight_idempotent.
    apply strict_eq_refl, normalizeWeight_not_nan, Hw.
  - vm_compute. reflexivity.
  - vm_compute. reflexivity.
  - intros host valueType r values cov trackingKey hashAttr ns Hr.
    unfold compileRule. rewrite Hr. cbn [weights].
    rewrite map_map. reflexivity.
Qed.

(** ** Strings *)

Lemma append_assoc (a b c : string) :
  String.append (String.append a b) c = String.append a (String.append b c).
Proof.
  induction a as [|x a IH]; [reflexivity|].
  change (String x (String.append (String.append a b) c)
          = String x (String.append a (String.append b c))).
  now rewrite IH.
Qed.

Lemma append_nil_r (a : string) : String.append a "" = a.
Proof.
  induction a as [|x a IH]; [reflexivity|].
  change (String x (String.append a "") = String x a). now rewrite IH.
Qed.

Lemma joined_tail_cons sep s rest :
  joined_tail sep (s :: rest)
  = String.append sep (String.append s (joined_tail sep rest)).
Proof. reflexivity. Qed.

Lemma join_fold sep rest first :
  fold_left (fun acc s => String.append acc (String.append sep s)) rest first
  = String.append first (joined_tail sep rest).
Proof.
  revert first. induction rest as [|s rest IH]; intros first.
  - cbn. now rewrite append_nil_r.
  - cbn [fold_left]. rewrite IH, joined_tail_cons, !append_assoc. reflexivity.
Qed.

Lemma joined_tail_mentions sep rest k :
  In k rest -> mentions (joined_tail sep rest) k.
Proof.
  induction rest as [|s rest IH]; intros Hin; [contradiction|].
  rewrite joined_tail_cons. destruct Hin as [-> | Hin].
  - exists sep, (joined_tail sep rest). reflexivity.
  - destruct (IH Hin) as (before & after & Heq).
    exists (String.append sep (String.append s before)), after.
    rewrite Heq, !append_assoc. reflexivity.
Qed.

(** A joined list mentions each of its elements. *)
Lemma join_with_mentions sep array k :
  In k array -> mentions (join_with sep array) k.
Proof.
  destruct array as [|first rest]; intros Hin; [contradiction|].
  cbn [join_with]. rewrite join_fold.
  destruct Hin as [-> | Hin].
  - exists "", (joined_tail sep rest). reflexivity.
  - destruct (joined_tail_mentions sep rest k Hin) as (before & after & Heq).
    exists (String.append first before), after.
    rewrite Heq, append_assoc. reflexivity.
Qed.

Lemma mentions_wrap s k before after :
  mentions s k -> mentions (String.append before (String.append s after)) k.
Proof.
  intros (b & a & ->).
  exists (String.append before b), (String.append a after).
  rewrite !append_assoc. reflexivity.
Qed.

Lemma includes_In x array : includes x array = true <-> In x array.
Proof.
  unfold includes. rewrite existsb_exists. split.
  - intros (y & Hin & Heq). apply String.eqb_eq in Heq. now subst.
  - intros Hin. exists x. split; [assumption | apply String.eqb_refl].
Qed.

Lemma invalidKeys_In (updates : list (string * json)) k :
  In k (List.filter (fun k => negb (includes k allowedKeys)) (map fst updates))
  <-> In k (map fst updates) /\ ~ In k allowedKeys.
Proof.
  rewrite filter_In, negb_true_iff.
  pose proof (includes_In k allowedKeys) as Hinc.
  destruct (includes k allowedKeys); intuition congruence.
Qed.

(** ** The services *)

Section ServiceFacts.
Context `{Host} `{Collaborators}.

(** C9. An update request with a key outside the allow-list is rejected
    with one error whose message lists every invalid key (and only those),
    in the order of the request; nothing has been called by then, so
    neither [findProjectById] nor [updateFeature] runs and the feature is
    not changed. *)
Theorem invalid_update_rejected (updates : list (string * json))
  (feature : FeatureInterface) (featureId : string) (w : World) :
  (exists k, In k (map fst updates) /\ ~ In k allowedKeys) ->
  let invalidKeys :=
    List.filter (fun k => negb (includes k allowedKeys)) (map fst updates) in
  let msg :=
    String.append "Invalid update fields for feature: ["
      (String.append (join_with ", " invalidKeys) "]") in
  updateFeatureService updates feature featureId w = (Throw (mkError msg), w)
  /\ (forall k, In k (map fst updates) -> ~ In k allowedKeys ->
                In k invalidKeys /\ mentions msg k)
  /\ (forall k, In k invalidKeys ->
                In k (map fst updates) /\ ~ In k allowedKeys).
Proof.
  intros (k0 & Hin0 & Hbad0) invalidKeys msg.
  assert (Hk0 : In k0 invalidKeys) by (apply invalidKeys_In; auto).
  repeat apply conj.
  - unfold updateFeatureService. fold invalidKeys. fold msg.
    destruct invalidKeys as [|k1 rest]; [contradiction | reflexivity].
  - intros k Hin Hbad.
    assert (Hk : In k invalidKeys) by (apply invalidKeys_In; auto).
    split; [assumption|].
    apply mentions_wrap, join_with_mentions, Hk.
  - intros k Hk. apply invalidKeys_In, Hk.
Qed.

End ServiceFacts.

Lemma invalid_update_rejected_witness :
  updateFeatureService
    [("tags", JArr [JStr "beta"]); ("id", JStr "other");
     ("valueType", JStr "json")] showBanner "show-banner" initialWorld
  = (Throw (mkError "Invalid update fields for feature: [id, valueType]"),
     initialWorld).
Proof.
  apply invalid_update_rejected.
  exists "id". split; [cbn; auto|].
  cbn. intuition discriminate.
Defined.

(** ** Running a service step by step *)

Section MonadFacts.
Context `{Collaborators}.

Lemma bind_Return {A B} (m : M A) (k : A -> M B) w b w' :
  (m ≫= k) w = (Return b, w') ->
  exists a w1, m w = (Return a, w1) /\ k a w1 = (Return b, w').
Proof.
  unfold mbind, M_bind, bind.
  destruct (m w) as [[a | e] w1]; [eauto | discriminate].
Qed.

Lemma bind_step {A B} (m : M A) (k : A -> M B) w a w1 :
  m w = (Return a, w1) -> (m ≫= k) w = k a w1.
Proof. intros Hm. unfold mbind, M_bind, bind. rewrite Hm. reflexivity. Qed.

Lemma bind_Throw {A B} (m : M A) (k : A -> M B) w e w1 :
  m w = (Throw e, w1) -> (m ≫= k) w = (Throw e, w1).
Proof. intros Hm. unfold mbind, M_bind, bind. rewrite Hm. reflexivity. Qed.

Lemma required_Return x msg w s w' :
  required x msg w = (Return s, w') -> x = Some s /\ s <> "" /\ w' = w.
Proof.
  unfold required. destruct x as [s0|]; [|discriminate].
  destruct (truthy_string s0) eqn:Hs; [|discriminate].
  intros [= <- <-]. apply truthy_string_iff in Hs. auto.
Qed.

Lemma required_step s msg w :
  s <> "" -> required (Some s) msg w = (Return s, w).
Proof.
  intros Hs. apply truthy_string_iff in Hs. unfold required. rewrite Hs.
  reflexivity.
Qed.

Lemma guard_Return (c : bool) msg w (u : unit) w' :
  (if c then throw msg else ret tt) w = (Return u, w') -> c = false /\ w' = w.
Proof. destruct c; [discriminate|]. intros [= _ <-]. auto. Qed.

Lemma quiet_refl w : quiet w w.
Proof. unfold quiet. auto. Qed.

Lemma quiet_trans w1 w2 w3 : quiet w1 w2 -> quiet w2 w3 -> quiet w1 w3.
Proof. unfold quiet. intros (-> & -> & ?) (-> & -> & ?). repeat split. lia. Qed.

(** A traversal by steps that always return and are quiet returns, is
    quiet, and relates the lists element by element. *)
Lemma mapM_quiet {A B} (f : A -> M B) (P : A -> B -> Prop) :
  (forall a w, exists b w', f a w = (Return b, w') /\ quiet w w' /\ P a b) ->
  forall l w,
    exists bs w', mapM f l w = (Return bs, w') /\ quiet w w' /\ Forall2 P l bs.
Proof.
  intros Hf. induction l as [|a l IH]; intros w.
  - exists [], w. repeat split; [apply quiet_refl | constructor].
  - destruct (Hf a w) as (b & w1 & Hb & Hq1 & HP).
    destruct (IH w1) as (bs & w2 & Hbs & Hq2 & HPs).
    exists (b :: bs), w2. split; [|split].
    + cbn [mapM]. rewrite (bind_step _ _ _ _ _ Hb), (bind_step _ _ _ _ _ Hbs).
      reflexivity.
    + eapply quiet_trans; eassumption.
    + constructor; assumption.
Qed.

Lemma addIdsToRule_spec featureId r w :
  exists r' w',
    addIdsToRule featureId r w = (Return r', w') /\ quiet w w'
    /\ ids_added featureId r r'.
Proof.
  unfold addIdsToRule, ids_added.
  destruct (truthy_opt_string (rule_id r)) eqn:Hid; cbn [negb].
  - eexists _, w. split; [reflexivity|]. split; [apply quiet_refl|].
    cbn. repeat apply conj; try reflexivity. discriminate.
  - eexists _, _. split; [reflexivity|]. split.
    + unfold quiet. cbn. repeat split. lia.
    + cbn. repeat apply conj; try reflexivity; [discriminate|].
      intros _. exists (idsGiven w). reflexivity.
Qed.

Lemma addIdsToEnvironment_spec featureId env w :
  exists env' w',
    addIdsToEnvironment featureId env w = (Return env', w') /\ quiet w w'
    /\ env_ids_added featureId env env'.
Proof.
  unfold addIdsToEnvironment, env_ids_added.
  destruct (env_rules env) as [rules|] eqn:Hrules.
  - destruct (mapM_quiet (addIdsToRule featureId) (ids_added featureId)
                (addIdsToRule_spec featureId) rules w)
      as (rules' & w' & Hm & Hq & Hall).
    destruct rules as [|r rules].
    + exists env, w. cbn. rewrite Hrules.
      split; [reflexivity|]. split; [apply quiet_refl|].
      split; [reflexivity | constructor].
    + exists {| env_enabled := env_enabled env; env_rules := Some rules' |}, w'.
      cbn [length Nat.eqb negb].
      rewrite (bind_step _ _ _ _ _ Hm).
      split; [reflexivity|]. split; [assumption|].
      split; [reflexivity | assumption].
  - exists env, w. rewrite Hrules.
    split; [reflexivity|]. split; [apply quiet_refl|].
    split; [reflexivity | exact I].
Qed.

(** [addIdsToRules] never throws and calls no collaborator; it keeps the
    environments and their flags, and changes each rule as [ids_added]
    says. *)
Lemma addIdsToRules_spec settings featureId w :
  exists settings' w',
    addIdsToRules settings featureId w = (Return settings', w') /\ quiet w w'
    /\ match settings, settings' with
       | Some envs, Some envs' =>
           forall k,
             match envs !! k, envs' !! k with
             | Some env, Some env' => env_ids_added featureId env env'
             | None, None => True
             | _, _ => False
             end
       | None, None => True
       | _, _ => False
       end.
Proof.
  unfold addIdsToRules. destruct settings as [envs|].
  - set (step := fun kv : string * FeatureEnvironment =>
                   env' ← addIdsToEnvironment featureId kv.2; ret (kv.1, env')).
    destruct (mapM_quiet step
                (fun kv kv' => kv'.1 = kv.1
                               /\ env_ids_added featureId kv.2 kv'.2))
      with (l := map_to_list envs) (w := w) as (l' & w' & Hm & Hq & Hall).
    { intros [k env] w0.
      destruct (addIdsToEnvironment_spec featureId env w0)
        as (env' & w1 & He & Hq & Hrel).
      exists (k, env'), w1. unfold step. cbn [fst snd].
      rewrite (bind_step _ _ _ _ _ He). auto. }
    exists (Some (list_to_map l')), w'.
    rewrite (bind_step _ _ _ _ _ Hm).
    split; [reflexivity|]. split; [assumption|].
    assert (Hkeys : l'.*1 = (map_to_list envs).*1).
    { clear Hm. induction Hall as [|kv kv' l l' [Hk _] _ IH]; [reflexivity|].
      cbn. rewrite Hk, IH. reflexivity. }
    assert (Hnd : NoDup (l'.*1))
      by (rewrite Hkeys; apply NoDup_fst_map_to_list).
    intros k.
    destruct (envs !! k) as [env|] eqn:Hk.
    + apply elem_of_map_to_list, list_elem_of_lookup in Hk.
      destruct Hk as [i Hi].
      destruct (Forall2_lookup_l _ _ _ _ _ Hall Hi) as ([k' env'] & Hi' & Hk' & Hrel).
      cbn in Hk', Hrel. subst k'.
      rewrite (elem_of_list_to_map_1 l' k env' Hnd
                 (list_elem_of_lookup_2 _ _ _ Hi')).
      exact Hrel.
    + destruct (list_to_map l' !! k) as [env'|] eqn:Hk'; [|exact I].
      apply elem_of_list_to_map_2, list_elem_of_lookup in Hk'.
      destruct Hk' as [i Hi'].
      destruct (Forall2_lookup_r _ _ _ _ _ Hall Hi') as ([k0 env] & Hi & Hk0 & _).
      cbn in Hk0. subst k0.
      apply list_elem_of_lookup_2, elem_of_map_to_list in Hi. congruence.
  - exists None, w. split; [reflexivity|]. split; [apply quiet_refl | exact I].
Qed.

End MonadFacts.

Section CreateFacts.
Context `{Host} `{Collaborators}.

(** [x || ""] on an optional string. *)
Lemma or_empty_string (o : option string) :
  or_empty (JStr <$> o) = JStr (default "" o).
Proof.
  destruct o as [s|]; [|reflexivity].
  cbn [fmap option_fmap option_map or_empty truthy_json default from_option
       Datatypes.id].
  unfold truthy_string.
  destruct (String.eqb_spec s "") as [-> | _]; reflexivity.
Qed.

(** The only runs of [createFeatureService] that return: every check
    passes, the default value parses, and [createFeature] resolves.  The
    feature returned is the one handed to [createFeature], and the webhook
    call follows it. *)
Lemma createFeatureService_Return feature w f w' :
  createFeatureService feature w = (Return f, w') ->
  exists key org own type supplied settings w1,
    p_id feature = Some key /\ matches_key_pattern key = true
    /\ p_organization feature = Some org /\ org <> ""
    /\ p_owner feature = Some own /\ own <> ""
    /\ p_valueType feature = Some type
    /\ includes type ["boolean"; "number"; "string"; "json"] = true
    /\ p_defaultValue feature = Some supplied /\ supplied <> ""
    /\ parseDefaultValue supplied type = Return (defaultValue f)
    /\ addIdsToRules (p_environmentSettings feature) (toLowerCase key)
         (tick (tick w)) = (Return settings, w1)
    /\ f = {| id := toLowerCase key;
              archived := Some (default false (p_archived feature));
              description := JStr <$> p_description feature;
              organization := org;
              owner := Some (JStr own);
              project := JStr <$> p_project feature;
              dateCreated := Date_now (clockReads w);
              dateUpdated := Date_now (S (clockReads w));
              valueType := type;
              defaultValue := defaultValue f;
              tags := (fun l => JArr (JStr <$> l)) <$> p_tags feature;
              environmentSettings := settings;
              draft := p_draft feature;
              revision := p_revision feature |}
    /\ createFeature_outcome f = Return tt
    /\ calls w'
       = (calls w ++
          [CreateFeature f;
           QueueWebhook org (getEnabledEnvironments f)
             [JStr ""; JStr (default "" (p_project feature))] true])%list.
Proof.
  unfold createFeatureService. intros Hrun.
  apply bind_Return in Hrun. destruct Hrun as (key & w0 & Hkey & Hrun).
  apply required_Return in Hkey. destruct Hkey as (Hkey & _ & ->).
  apply bind_Return in Hrun. destruct Hrun as ([] & w0 & Hpat & Hrun).
  apply guard_Return in Hpat. destruct Hpat as (Hpat & ->).
  apply negb_false_iff in Hpat.
  apply bind_Return in Hrun. destruct Hrun as (org & w0 & Horg & Hrun).
  apply required_Return in Horg. destruct Horg as (Horg & Horg' & ->).
  apply bind_Return in Hrun. destruct Hrun as (own & w0 & Hown & Hrun).
  apply required_Return in Hown. destruct Hown as (Hown & Hown' & ->).
  apply bind_Return in Hrun. destruct Hrun as (vt & w0 & Hvt & Hrun).
  apply required_Return in Hvt. destruct Hvt as (Hvt & _ & ->).
  apply bind_Return in Hrun. destruct Hrun as ([] & w0 & Hinc & Hrun).
  apply guard_Return in Hinc. destruct Hinc as (Hinc & ->).
  apply negb_false_iff in Hinc.
  apply bind_Return in Hrun. destruct Hrun as (dv & w0 & Hdv & Hrun).
  apply required_Return in Hdv. destruct Hdv as (Hdv & Hdv' & ->).
  apply bind_Return in Hrun. destruct Hrun as (d1 & w0 & Hd1 & Hrun).
  injection Hd1 as <- <-.
  apply bind_Return in Hrun. destruct Hrun as (d2 & w0 & Hd2 & Hrun).
  injection Hd2 as <- <-.
  apply bind_Return in Hrun. destruct Hrun as (parsed & w0 & Hparse & Hrun).
  unfold lift in Hparse. injection Hparse as Hparse <-.
  apply bind_Return in Hrun. destruct Hrun as (settings & w1 & Hset & Hrun).
  destruct (addIdsToRules_spec (p_environmentSettings feature)
              (toLowerCase key) (tick (tick w)))
    as (settings0 & w10 & Hset0 & (Hcalls & _ & _) & _).
  change (addIdsToRules (p_environmentSettings feature) (toLowerCase key)
            (tick (tick w)) = (Return settings, w1)) in Hset.
  rewrite Hset in Hset0. injection Hset0 as <- <-.
  apply bind_Return in Hrun. destruct Hrun as ([] & w2 & Hcall & Hrun).
  unfold call in Hcall. injection Hcall as Hcall <-.
  apply bind_Return in Hrun. destruct Hrun as ([] & w3 & Hhook & Hrun).
  unfold not_awaited, featureUpdated, call in Hhook. cbn [snd] in Hhook.
  injection Hhook as <-.
  injection Hrun as <- <-.
  exists key, org, own, vt, dv, settings, w1.
  cbn [defaultValue calls organization project].
  repeat apply conj; try assumption; try reflexivity.
  rewrite Hcalls. cbn [calls tick]. rewrite <- app_assoc.
  rewrite app_nil_r, or_empty_string. reflexivity.
Qed.

(** C10. A feature created with value type ["boolean"] stores the default
    ["true"] when the supplied default is the string ["true"], and
    ["false"] for every other accepted (non-empty) string; the stored
    value is the one handed to [createFeature].  So a supplied ["yes"] or
    ["1"], which the value coercer reads as [true], is stored as
    ["false"], which it reads as [false]. *)
Theorem boolean_default_canonicalized (feature : PartialFeature)
  (w w' : World) (f : FeatureInterface) :
  createFeatureService feature w = (Return f, w') ->
  p_valueType feature = Some "boolean" ->
  exists supplied,
    p_defaultValue feature = Some supplied /\ supplied <> ""
    /\ (supplied = "true" -> defaultValue f = "true")
    /\ (supplied <> "true" -> defaultValue f = "false")
    /\ In (CreateFeature f) (calls w')
    /\ (supplied <> "true" -> supplied <> "false" ->
        getJSONValue "boolean" supplied = JBool true
        /\ getJSONValue "boolean" (defaultValue f) = JBool false).
Proof.
  intros Hrun Hbool.
  apply createFeatureService_Return in Hrun.
  destruct Hrun as (key & org & own & vt & dv & settings & w1 & _ & _ & _ & _
                    & _ & _ & Hvt & _ & Hdv & Hne & Hparse & _ & _ & _ & Hcalls).
  rewrite Hbool in Hvt. injection Hvt as <-.
  unfold parseDefaultValue in Hparse. cbn [String.eqb Ascii.eqb Bool.eqb] in Hparse.
  injection Hparse as Hparse.
  exists dv. split; [assumption|]. split; [assumption|].
  assert (Htrue : dv = "true" -> defaultValue f = "true").
  { intros ->. rewrite <- Hparse. reflexivity. }
  assert (Hfalse : dv <> "true" -> defaultValue f = "false").
  { intros Hn. apply String.eqb_neq in Hn. rewrite <- Hparse, Hn. reflexivity. }
  split; [assumption|]. split; [assumption|]. split.
  - rewrite Hcalls. apply in_or_app. right. left. reflexivity.
  - intros Hn1 Hn2. rewrite (Hfalse Hn1).
    split; [| reflexivity].
    unfold getJSONValue. cbn [String.eqb Ascii.eqb Bool.eqb].
    destruct (String.eqb_spec dv "false"); [contradiction | reflexivity].
Qed.

(** X23. With every check passed, a default value that parses, and a
    [createFeature] that resolves, the service returns, whatever the
    webhook queue answers. *)
Lemma createFeatureService_total feature w key org own type supplied parsed :
  p_id feature = Some key -> matches_key_pattern key = true ->
  p_organization feature = Some org -> org <> "" ->
  p_owner feature = Some own -> own <> "" ->
  p_valueType feature = Some type ->
  includes type ["boolean"; "number"; "string"; "json"] = true ->
  p_defaultValue feature = Some supplied -> supplied <> "" ->
  parseDefaultValue supplied type = Return parsed ->
  (forall x, createFeature_outcome x = Return tt) ->
  exists f w',
    createFeatureService feature w = (Return f, w')
    /\ defaultValue f = parsed.
Proof.
  intros Hkey Hpat Horg Horg' Hown Hown' Hvt Hinc Hdv Hdv' Hparse Hcreate.
  assert (Hkey' : key <> "").
  { unfold matches_key_pattern in Hpat. apply andb_true_iff in Hpat.
    destruct Hpat as [Hpat _]. apply truthy_string_iff. exact Hpat. }
  assert (Hvt' : type <> "").
  { intros ->. discriminate. }
  destruct (addIdsToRules_spec (p_environmentSettings feature)
              (toLowerCase key) (tick (tick w)))
    as (settings & w1 & Hset & _).
  unfold createFeatureService.
  rewrite Hkey, Horg, Hown, Hvt, Hdv.
  rewrite (bind_step _ _ _ _ _ (required_step key _ w Hkey')).
  rewrite Hpat. cbn [negb].
  rewrite (bind_step (ret tt) _ w tt w eq_refl).
  rewrite (bind_step _ _ _ _ _ (required_step org _ w Horg')).
  rewrite (bind_step _ _ _ _ _ (required_step own _ w Hown')).
  rewrite (bind_step _ _ _ _ _ (required_step type _ w Hvt')).
  rewrite Hinc. cbn [negb].
  rewrite (bind_step (ret tt) _ w tt w eq_refl).
  rewrite (bind_step _ _ _ _ _ (required_step supplied _ w Hdv')).
  rewrite (bind_step newDate _ w _ (tick w) eq_refl).
  rewrite (bind_step newDate _ (tick w) _ (tick (tick w)) eq_refl).
  rewrite Hparse.
  rewrite (bind_step (lift (Return parsed)) _ (tick (tick w)) parsed
             (tick (tick w)) eq_refl).
  rewrite (bind_step _ _ _ _ _ Hset).
  eexists _, _. split.
  - unfold mbind, M_bind, bind, call. rewrite Hcreate. reflexivity.
  - reflexivity.
Qed.

End CreateFacts.

Lemma boolean_default_canonicalized_witness :
  exists supplied,
    p_defaultValue (examplePartial "boolean" "yes") = Some supplied
    /\ supplied <> ""
    /\ (supplied = "true" ->
        defaultValue (createdFeature "boolean" "false") = "true")
    /\ (supplied <> "true" ->
        defaultValue (createdFeature "boolean" "false") = "false")
    /\ In (CreateFeature (createdFeature "boolean" "false"))
         (calls (snd (createFeatureService (examplePartial "boolean" "yes")
                        initialWorld)))
    /\ (supplied <> "true" -> supplied <> "false" ->
        getJSONValue "boolean" supplied = JBool true
        /\ getJSONValue "boolean"
             (defaultValue (createdFeature "boolean" "false")) = JBool false).
Proof.
  apply (boolean_default_canonicalized (examplePartial "boolean" "yes")
           initialWorld).
  - vm_compute. reflexivity.
  - reflexivity.
Defined.

(** * More of the compiler and the services *)

(** ** The assembler *)

Section AssemblerFacts.
Context `{Host}.

Lemma definition_lookup features environment k d :
  NoDup (id <$> features) ->
  assigned (getFeatureDefinitions features environment) k = Some d
  <-> exists f s,
        f ∈ features /\ id f = k
        /\ skipped f (default "production" environment) = false
        /\ lookupSettings f (default "production" environment) = Some s
        /\ d = compileFeature f s.
Proof.
  intros Hnd. split; [apply assigned_origin|].
  intros (f & s & Hin & <- & Hskip & Hs & ->).
  apply assigned_of_feature; assumption.
Qed.

(** X1. With unique ids, the assembled mapping does not depend on the order
    in which [getAllFeatures] returned the features. *)
Theorem definitions_order_irrelevant (features features' : list FeatureInterface)
  (environment : option string) :
  features ≡ₚ features' -> NoDup (id <$> features) ->
  getFeatureDefinitions features environment
  = getFeatureDefinitions features' environment.
Proof.
  intros Hperm Hnd.
  assert (Hnd' : NoDup (id <$> features')) by (rewrite <- Hperm; exact Hnd).
  assert (Hsub : forall l l' k d,
             l ≡ₚ l' -> NoDup (id <$> l) -> NoDup (id <$> l') ->
             assigned (getFeatureDefinitions l environment) k = Some d ->
             assigned (getFeatureDefinitions l' environment) k = Some d).
  { intros l l' k d Hp Hn Hn' Hd.
    apply (definition_lookup l environment k d Hn) in Hd.
    destruct Hd as (f & s & Hin & Hrest).
    apply (definition_lookup l' environment k d Hn').
    exists f, s. split; [rewrite <- Hp; exact Hin | exact Hrest]. }
  apply definitions_eq. intros k.
  destruct (assigned (getFeatureDefinitions features environment) k)
    as [d|] eqn:Hd.
  - symmetry. eapply Hsub; eassumption.
  - destruct (assigned (getFeatureDefinitions features' environment) k)
      as [d'|] eqn:Hd'; [|reflexivity].
    apply (Hsub features' features k d') in Hd'; try assumption;
      [congruence | symmetry; exact Hperm].
Qed.

Lemma compileFeature_rules f s : def_rules (compileFeature f s) <> Some [].
Proof.
  unfold compileFeature. cbn [def_rules].
  destruct (compileRules (valueType f) (env_rules s)); cbn; discriminate.
Qed.

Lemma compileFeature_rules_default f s :
  default [] (def_rules (compileFeature f s))
  = compileRules (valueType f) (env_rules s).
Proof.
  unfold compileFeature. cbn [def_rules].
  destruct (compileRules (valueType f) (env_rules s)); reflexivity.
Qed.

(** X2. Whatever the collection (ids unique or not), every entry of the
    assembled mapping is the compiled form of a feature of the collection
    with that id which is enabled for the environment and not archived;
    its [rules] field is never an empty sequence, and the records in it
    are as many as the enabled rules of that feature. *)
Theorem entries_come_from_live_features (features : list FeatureInterface)
  (environment : option string) (k : string) (d : FeatureDefinition) :
  getFeatureDefinitions features environment !! k = Some d ->
  exists f s,
    f ∈ features /\ id f = k
    /\ lookupSettings f (default "production" environment) = Some s
    /\ env_enabled s = true /\ truthy_opt_bool (archived f) = false
    /\ def_defaultValue d = getJSONValue (valueType f) (defaultValue f)
    /\ def_rules d <> Some []
    /\ length (default [] (def_rules d))
       = length (List.filter (fun r => truthy_opt_bool (rule_enabled r))
                   (default [] (env_rules s))).
Proof.
  intros Hd. apply definition_origin in Hd.
  destruct Hd as (f & s & Hin & Hid & Hskip & Hs & ->).
  exists f, s. unfold skipped in Hskip. rewrite Hs in Hskip.
  apply orb_false_iff in Hskip. destruct Hskip as [Hen Har].
  apply negb_false_iff in Hen.
  repeat apply conj; try assumption.
  - unfold compileFeature. cbn [def_rules].
    destruct (compileRules (valueType f) (env_rules s)); reflexivity.
  - apply compileFeature_rules.
  - rewrite compileFeature_rules_default.
    unfold compileRules. destruct (env_rules s); [apply length_map | reflexivity].
Qed.

(** X3. An experiment rule compiles to one coerced variation and one
    weight per stored variation, in order; its [coverage] is copied as it
    is (it is not clamped, unlike a rollout's); [key] and [hashAttribute]
    are present exactly for non-empty strings; there is no [force]. *)
Theorem experiment_rule_compiles (valueType : string) (r : FeatureRule)
  (values : list ExperimentValue) (cov : float)
  (trackingKey hashAttr : option string) (ns : option NamespaceValue) :
  rule_fields r = ExperimentRule values cov trackingKey hashAttr ns ->
  variations (compileRule valueType r)
  = Some (map (fun v => getJSONValue valueType (ev_value v)) values)
  /\ (exists ws, weights (compileRule valueType r) = Some ws
                 /\ length ws = length values)
  /\ coverage (compileRule valueType r) = Some cov
  /\ force (compileRule valueType r) = None
  /\ (forall a, key (compileRule valueType r) = Some a
                <-> trackingKey = Some a /\ a <> "")
  /\ (forall a, hashAttribute (compileRule valueType r) = Some a
                <-> hashAttr = Some a /\ a <> "").
Proof.
  intros Hr. unfold compileRule. rewrite Hr.
  cbn [variations weights coverage force key hashAttribute].
  split; [reflexivity|]. split.
  { eexists. split; [reflexivity|]. rewrite !length_map. reflexivity. }
  split; [reflexivity|]. split; [reflexivity|].
  split; intros a; apply if_present_Some.
Qed.

End AssemblerFacts.


(** ** [getEnabledEnvironments] *)

Lemma getEnabledEnvironments_In f env :
  In env (getEnabledEnvironments f)
  <-> exists s, lookupSettings f env = Some s /\ env_enabled s = true.
Proof.
  unfold getEnabledEnvironments, lookupSettings, Object_keys.
  rewrite filter_In.
  destruct (environmentSettings f) as [envs|]; cbn [default from_option Datatypes.id].
  - split.
    + intros [_ Hen].
      destruct (envs !! env) as [s|] eqn:Hs; [eauto | discriminate].
    + intros (s & Hs & Hen). rewrite Hs. split; [|assumption].
      apply list_elem_of_In, list_elem_of_fmap.
      exists (env, s). split; [reflexivity|].
      apply elem_of_map_to_list. assumption.
  - rewrite lookup_empty. split; [intros [_ Hf]; cbn in Hf; discriminate|].
    intros (s & Hs & _). discriminate.
Qed.

Lemma NoDup_bool_filter {A} (p : A -> bool) (l : list A) :
  NoDup l -> NoDup (List.filter p l).
Proof.
  induction 1 as [|x l Hx Hl IH]; cbn; [constructor|].
  destruct (p x); [|exact IH].
  constructor; [|exact IH].
  intros Hin. apply Hx. apply list_elem_of_In in Hin.
  apply filter_In in Hin. apply list_elem_of_In. tauto.
Qed.

(** X5. [getEnabledEnvironments] lists, once each, exactly the environments
    whose settings have [enabled] true; for a feature that is not archived
    these are exactly the environments for which the assembler emits the
    feature: as the entry under its id, or, for the id ["__proto__"]
    alone, as the prototype of the mapping.  For an archived feature the
    assembler emits nothing. *)
Theorem enabled_environments_are_compiled `{Host} (f : FeatureInterface)
  (env : string) :
  (In env (getEnabledEnvironments f)
   <-> exists s, lookupSettings f env = Some s /\ env_enabled s = true)
  /\ NoDup (getEnabledEnvironments f)
  /\ (truthy_opt_bool (archived f) = false -> id f <> "__proto__" ->
      (In env (getEnabledEnvironments f)
       <-> is_Some (getFeatureDefinitions [f] (Some env) !! id f)))
  /\ (truthy_opt_bool (archived f) = false -> id f = "__proto__" ->
      (In env (getEnabledEnvironments f)
       <-> is_Some (prototype (getFeatureDefinitions [f] (Some env))))
      /\ getFeatureDefinitions [f] (Some env) !! id f = None)
  /\ (truthy_opt_bool (archived f) = true ->
      getFeatureDefinitions [f] (Some env) = ∅).
Proof.
  split; [apply getEnabledEnvironments_In|]. split.
  { unfold getEnabledEnvironments, Object_keys.
    apply NoDup_bool_filter, NoDup_fst_map_to_list. }
  assert (Hone : getFeatureDefinitions [f] (Some env) = addFeature env ∅ f)
    by reflexivity.
  assert (Hassigned : truthy_opt_bool (archived f) = false ->
            In env (getEnabledEnvironments f)
            <-> is_Some (assigned (getFeatureDefinitions [f] (Some env)) (id f))).
  { intros Har. rewrite getEnabledEnvironments_In, Hone, addFeature_assigned.
    assert (Hempty : assigned ∅ (id f) = None).
    { unfold assigned. destruct (id f =? "__proto__")%string; [reflexivity|].
      apply lookup_empty. }
    unfold skipped.
    destruct (lookupSettings f env) as [s|].
    - rewrite Har, orb_false_r.
      destruct (env_enabled s) eqn:Hen; cbn [negb fmap option_fmap option_map].
      + destruct (decide (id f = id f)); [|contradiction].
        split; [intros _; eexists; reflexivity | intros _; eauto].
      + rewrite Hempty. split.
        * intros (s' & [= <-] & Hen'). congruence.
        * intros [x Hx]. discriminate.
    - rewrite Hempty. split.
      + intros (s & Hs & _). discriminate.
      + intros [x Hx]. discriminate. }
  split; [|split].
  - intros Har Hid. rewrite lookup_assigned by exact Hid. apply Hassigned, Har.
  - intros Har Hid. split.
    + rewrite (Hassigned Har), Hid. reflexivity.
    + rewrite Hid. apply no_own_proto.
  - intros Har. rewrite Hone. unfold addFeature.
    destruct (lookupSettings f env) as [s|]; [|reflexivity].
    rewrite Har, orb_true_r. reflexivity.
Qed.

(** ** [arrayMove] *)

Section ArrayMoveFacts.
Context {A : Type} (undefined : A).

Lemma splice_start_in_range len i :
  0 <= i <= len -> splice_start len i = Z.to_nat i.
Proof.
  intros Hi. unfold splice_start. f_equal.
  destruct (Z.ltb_spec i 0); lia.
Qed.

(** For indices in range, [arrayMove] takes the element out and puts it
    back at the target index. *)
Lemma arrayMove_in_range (array : list A) (from to : Z) (x : A) :
  array !! Z.to_nat from = Some x -> 0 <= from ->
  - Z.of_nat (length array) <= to < Z.of_nat (length array) ->
  let target := Z.to_nat (if to <? 0 then Z.of_nat (length array) + to else to) in
  let rest := delete (Z.to_nat from) array in
  arrayMove undefined array from to
  = (take target rest ++ x :: drop target rest)%list
  /\ S (length rest) = length array /\ (target <= length rest)%nat.
Proof.
  intros Hx Hfrom Hto target rest.
  assert (Hlt : (Z.to_nat from < length array)%nat)
    by (eapply lookup_lt_Some; eassumption).
  assert (Hrest : S (length rest) = length array).
  { unfold rest. rewrite length_delete by eauto. lia. }
  split; [|split; [exact Hrest|]].
  - unfold arrayMove. cbv zeta.
    rewrite (splice_start_in_range _ from) by lia.
    rewrite (drop_S _ _ _ Hx). cbn [firstn]. rewrite firstn_O. cbn [length].
    replace (Z.to_nat from + 1)%nat with (S (Z.to_nat from)) by lia.
    rewrite <- delete_take_drop. fold rest.
    assert (Hs2 : splice_start (Z.of_nat (length rest))
                    (if to <? 0 then Z.of_nat (length array) + to else to)
                  = target).
    { unfold target. apply splice_start_in_range.
      destruct (Z.ltb_spec to 0); lia. }
    rewrite Hs2. reflexivity.
  - unfold target. destruct (Z.ltb_spec to 0); lia.
Qed.

Lemma arrayMove_target (array : list A) (from to : Z) :
  0 <= from < Z.of_nat (length array) ->
  - Z.of_nat (length array) <= to < Z.of_nat (length array) ->
  let target := Z.to_nat (if to <? 0 then Z.of_nat (length array) + to else to) in
  length (arrayMove undefined array from to) = length array
  /\ arrayMove undefined array from to !! target = array !! Z.to_nat from
  /\ delete target (arrayMove undefined array from to)
     = delete (Z.to_nat from) array.
Proof.
  intros Hfrom Hto target.
  destruct (lookup_lt_is_Some_2 array (Z.to_nat from) ltac:(lia)) as [x Hx].
  destruct (arrayMove_in_range array from to x Hx ltac:(lia) Hto)
    as (Heq & Hlen & Htarget).
  fold target in Heq, Htarget. rewrite Heq, Hx.
  set (rest := delete (Z.to_nat from) array) in *.
  assert (Htake : length (take target rest) = target)
    by (apply length_take_le; exact Htarget).
  split; [|split].
  - rewrite length_app, Htake. cbn [length]. rewrite length_drop. lia.
  - rewrite <- Htake at 1. apply list_lookup_middle. reflexivity.
  - rewrite delete_take_drop.
    rewrite take_app_length' by (symmetry; exact Htake).
    replace (S target) with (length (take target rest) + 1)%nat by lia.
    rewrite <- drop_drop, drop_app_length. cbn [drop]. rewrite drop_0.
    apply take_drop.
Qed.

(** X6. [arrayMove(array, from, to)] with [from] an index of the array and
    [to] an index or a negative offset from the end: the result has the
    same length and the same elements, the moved element stands at the
    target index, and the others keep their order. *)
Theorem arrayMove_moves (array : list A) (from to : Z) :
  0 <= from < Z.of_nat (length array) ->
  - Z.of_nat (length array) <= to < Z.of_nat (length array) ->
  let target := Z.to_nat (if to <? 0 then Z.of_nat (length array) + to else to) in
  length (arrayMove undefined array from to) = length array
  /\ arrayMove undefined array from to !! target = array !! Z.to_nat from
  /\ arrayMove undefined array from to ≡ₚ array
  /\ delete target (arrayMove undefined array from to)
     = delete (Z.to_nat from) array.
Proof.
  intros Hfrom Hto target.
  destruct (arrayMove_target array from to Hfrom Hto) as (Hlen & Hat & Hdel).
  fold target in Hat, Hdel.
  split; [exact Hlen|]. split; [exact Hat|]. split; [|exact Hdel].
  destruct (lookup_lt_is_Some_2 array (Z.to_nat from) ltac:(lia)) as [x Hx].
  destruct (arrayMove_in_range array from to x Hx ltac:(lia) Hto)
    as (Heq & _ & _).
  rewrite Heq.
  rewrite <- Permutation_middle, take_drop.
  rewrite delete_take_drop.
  rewrite <- (take_drop_middle array (Z.to_nat from) x Hx) at 3.
  apply Permutation_middle.
Qed.

(** X7. Moving an element from [from] to [to] and then from [to] back to
    [from] gives the array back. *)
Theorem arrayMove_back (array : list A) (from to : Z) :
  0 <= from < Z.of_nat (length array) ->
  0 <= to < Z.of_nat (length array) ->
  arrayMove undefined (arrayMove undefined array from to) to from = array.
Proof.
  intros Hfrom Hto.
  destruct (arrayMove_target array from to Hfrom ltac:(lia))
    as (Hlen & Hat & Hdel).
  replace (to <? 0) with false in Hat, Hdel by (symmetry; apply Z.ltb_ge; lia).
  destruct (lookup_lt_is_Some_2 array (Z.to_nat from) ltac:(lia)) as [x Hx].
  rewrite Hx in Hat.
  destruct (arrayMove_in_range (arrayMove undefined array from to) to from x
              Hat ltac:(lia) ltac:(lia)) as (Heq & _ & _).
  rewrite Heq, Hdel.
  replace (from <? 0) with false by (symmetry; apply Z.ltb_ge; lia).
  rewrite delete_take_drop.
  rewrite take_app_length', drop_app_length'
    by (rewrite length_take_le; lia).
  apply take_drop_middle. exact Hx.
Qed.

(** X8. When [from] is past the end nothing is taken out, and what
    [splice(from, 1)[0]] reads, [undefined], is inserted: the array grows
    by one. *)
Theorem arrayMove_past_end (array : list A) (from to : Z) :
  Z.of_nat (length array) <= from ->
  0 <= to <= Z.of_nat (length array) ->
  arrayMove undefined array from to
  = (take (Z.to_nat to) array ++ undefined :: drop (Z.to_nat to) array)%list
  /\ length (arrayMove undefined array from to) = S (length array).
Proof.
  intros Hfrom Hto.
  assert (Heq : arrayMove undefined array from to
                = (take (Z.to_nat to) array
                   ++ undefined :: drop (Z.to_nat to) array)%list).
  { unfold arrayMove. cbv zeta.
    assert (Hs1 : splice_start (Z.of_nat (length array)) from = length array).
    { unfold splice_start. destruct (Z.ltb_spec from 0); lia. }
    rewrite Hs1, !drop_ge by lia. cbn [firstn].
    rewrite app_nil_r. rewrite (take_ge array (length array)) by lia.
    replace (to <? 0) with false by (symmetry; apply Z.ltb_ge; lia).
    rewrite splice_start_in_range by lia. reflexivity. }
  split; [exact Heq|].
  rewrite Heq, length_app. cbn [length].
  rewrite length_take, length_drop. lia.
Qed.

End ArrayMoveFacts.

(** ** [verifyDraftsAreEqual] *)

Lemma SFeqb_true a b :
  SFeqb a b = true ->
  a = b \/ exists s s', a = S754_zero s /\ b = S754_zero s'.
Proof.
  unfold SFeqb.
  destruct a as [sa | sa | | sa ma ea], b as [sb | sb | | sb mb eb];
    cbn [SFcompare]; try discriminate;
    try (destruct sa; discriminate); try (destruct sb; discriminate).
  - intros _. right. eauto.
  - destruct sa, sb; try discriminate; intros _; left; reflexivity.
  - destruct sa, sb; try discriminate.
    + destruct (Z.compare_spec ea eb) as [-> | _ | _];
        cbn [CompOpp]; try discriminate.
      rewrite Pos.compare_cont_spec. cbn [Pos.switch_Eq].
      destruct (Pos.compare_spec ma mb) as [-> | _ | _];
        cbn [CompOpp]; try discriminate.
      intros _. left. reflexivity.
    + destruct (Z.compare_spec ea eb) as [-> | _ | _]; try discriminate.
      rewrite Pos.compare_cont_spec. cbn [Pos.switch_Eq].
      destruct (Pos.compare_spec ma mb) as [-> | _ | _]; try discriminate.
      intros _. left. reflexivity.
Qed.

Lemma SFeqb_refl_false a : SFeqb a a = false -> a = S754_nan.
Proof.
  unfold SFeqb. destruct a as [s | s | | s m e]; cbn [SFcompare];
    try reflexivity; try discriminate.
  - destruct s; discriminate.
  - destruct s; rewrite Z.compare_refl, Pos.compare_cont_refl; discriminate.
Qed.

Lemma is_zero_Prim2SF x :
  PrimFloat.is_zero x = true <-> exists s, Prim2SF x = S754_zero s.
Proof.
  unfold PrimFloat.is_zero. change PrimFloat.zero with 0%float.
  rewrite FloatAxioms.eqb_spec, prim_zero. split.
  - intros Hx. destruct (Prim2SF x) as [s | s | | s m e];
      try discriminate; try (destruct s; discriminate); eauto.
  - intros [s ->]. reflexivity.
Qed.

Lemma is_nan_unique x y :
  PrimFloat.is_nan x = true -> PrimFloat.is_nan y = true -> x = y.
Proof.
  unfold PrimFloat.is_nan. rewrite !FloatAxioms.eqb_spec, !negb_true_iff.
  intros Hx Hy. apply SFeqb_refl_false in Hx, Hy.
  apply FloatAxioms.Prim2SF_inj. congruence.
Qed.

(** [isEqual] on numbers is identity once every zero is positive. *)
Lemma isEqual_number_iff x y :
  isEqual_number x y = true <-> unsigned_zero x = unsigned_zero y.
Proof.
  unfold isEqual_number, unsigned_zero. split.
  - rewrite orb_true_iff, andb_true_iff. intros [Heq | [Hx Hy]].
    + rewrite FloatAxioms.eqb_spec in Heq.
      destruct (SFeqb_true _ _ Heq) as [Hsame | (s & s' & Hx & Hy)].
      * apply FloatAxioms.Prim2SF_inj in Hsame. subst y. reflexivity.
      * rewrite (proj2 (is_zero_Prim2SF x)), (proj2 (is_zero_Prim2SF y))
          by eauto.
        reflexivity.
    + rewrite (is_nan_unique x y Hx Hy). reflexivity.
  - destruct (PrimFloat.is_zero x) eqn:Hx, (PrimFloat.is_zero y) eqn:Hy.
    + intros _. apply is_zero_Prim2SF in Hx, Hy.
      destruct Hx as [s Hx], Hy as [s' Hy].
      rewrite FloatAxioms.eqb_spec, Hx, Hy. reflexivity.
    + intros <-. discriminate.
    + intros ->. discriminate.
    + intros ->. fold (isEqual_number y y).
      unfold isEqual_number, PrimFloat.is_nan.
      destruct (y =? y)%float; reflexivity.
Qed.

Lemma isEqual_option_iff {A B} (eq : A -> A -> bool) (n : A -> B)
  (x y : option A) :
  (forall a b, eq a b = true <-> n a = n b) ->
  isEqual_option eq x y = true <-> n <$> x = n <$> y.
Proof.
  intros Heq. destruct x as [a|], y as [b|]; cbn.
  - rewrite Heq. split; congruence.
  - split; discriminate.
  - split; discriminate.
  - tauto.
Qed.

Lemma isEqual_list_iff {A B} (eq : A -> A -> bool) (n : A -> B)
  (x y : list A) :
  (forall a b, eq a b = true <-> n a = n b) ->
  isEqual_list eq x y = true <-> map n x = map n y.
Proof.
  intros Heq. revert y.
  induction x as [|a x IH]; intros [|b y]; cbn; try tauto;
    try (split; discriminate).
  rewrite andb_true_iff, Heq, IH. split.
  - intros [-> ->]. reflexivity.
  - intros [= -> ->]. auto.
Qed.

Lemma option_string_iff (x y : option string) :
  isEqual_option String.eqb x y = true <-> x = y.
Proof.
  rewrite (isEqual_option_iff String.eqb (fun s => s)) by apply String.eqb_eq.
  destruct x, y; cbn; split; congruence.
Qed.

Lemma option_bool_iff (x y : option bool) :
  isEqual_option Bool.eqb x y = true <-> x = y.
Proof.
  rewrite (isEqual_option_iff Bool.eqb (fun s => s))
    by (intros a b; apply Bool.eqb_true_iff).
  destruct x, y; cbn; split; congruence.
Qed.

Lemma isEqual_value_iff x y :
  isEqual_value x y = true <-> value_unsigned x = value_unsigned y.
Proof.
  unfold isEqual_value, value_unsigned.
  rewrite !andb_true_iff, String.eqb_eq, isEqual_number_iff, option_string_iff.
  destruct x, y; cbn. split.
  - intros [[-> ->] ->]. reflexivity.
  - intros [= -> -> ->]. auto.
Qed.

Lemma isEqual_bound_iff x y :
  isEqual_bound x y = true <-> bound_unsigned x = bound_unsigned y.
Proof.
  destruct x, y; cbn; rewrite ?isEqual_number_iff, ?String.eqb_eq;
    split; congruence.
Qed.

Lemma isEqual_namespace_iff x y :
  isEqual_namespace x y = true <-> namespace_unsigned x = namespace_unsigned y.
Proof.
  unfold isEqual_namespace, namespace_unsigned.
  rewrite !andb_true_iff, Bool.eqb_true_iff, String.eqb_eq, !isEqual_bound_iff.
  destruct x as [? ? [? ?]], y as [? ? [? ?]]; cbn. split.
  - intros [[[-> ->] ->] ->]. reflexivity.
  - intros [= -> -> -> ->]. auto.
Qed.

Lemma isEqual_fields_iff x y :
  isEqual_fields x y = true <-> fields_unsigned x = fields_unsigned y.
Proof.
  destruct x, y; cbn; try (split; discriminate).
  - rewrite String.eqb_eq. split; congruence.
  - rewrite !andb_true_iff, (isEqual_list_iff _ _ _ _ isEqual_value_iff),
      isEqual_number_iff, !option_string_iff,
      (isEqual_option_iff _ _ _ _ isEqual_namespace_iff).
    split.
    + intros [[[[-> ->] ->] ->] ->]. reflexivity.
    + intros [= -> -> -> -> ->]. auto.
  - rewrite !andb_true_iff, String.eqb_eq, isEqual_number_iff,
      option_string_iff.
    split.
    + intros [[-> ->] ->]. reflexivity.
    + intros [= -> -> ->]. auto.
  - rewrite String.eqb_eq. split; congruence.
Qed.

Lemma isEqual_rule_iff x y :
  isEqual_rule x y = true <-> rule_unsigned x = rule_unsigned y.
Proof.
  unfold isEqual_rule, rule_unsigned.
  rewrite !andb_true_iff, !option_string_iff, String.eqb_eq, option_bool_iff,
    isEqual_fields_iff.
  destruct x, y; cbn. split.
  - intros [[[[-> ->] ->] ->] ->]. reflexivity.
  - intros [= -> -> -> -> ->]. auto.
Qed.

Lemma isEqual_rulesByEnv_iff x y :
  isEqual_rulesByEnv x y = true <-> rules_unsigned x = rules_unsigned y.
Proof.
  unfold isEqual_rulesByEnv, rules_unsigned.
  rewrite andb_true_iff, !forallb_forall. split.
  - intros [Hxy Hyx]. apply map_eq. intros k. rewrite !lookup_fmap.
    destruct (x !! k) as [rs|] eqn:Hx.
    + specialize (Hxy (k, rs)). cbn [fst snd] in Hxy.
      destruct (y !! k) as [rs'|].
      * cbn. f_equal.
        apply (isEqual_list_iff _ _ _ _ isEqual_rule_iff), Hxy.
        apply list_elem_of_In, elem_of_map_to_list, Hx.
      * discriminate Hxy.
        apply list_elem_of_In, elem_of_map_to_list, Hx.
    + destruct (y !! k) as [rs'|] eqn:Hy; [|reflexivity].
      specialize (Hyx (k, rs')). cbn [fst snd] in Hyx. rewrite Hx in Hyx.
      discriminate Hyx. apply list_elem_of_In, elem_of_map_to_list, Hy.
  - intros Heq.
    assert (Hk : forall k,
               map rule_unsigned <$> x !! k = map rule_unsigned <$> y !! k).
    { intros k. rewrite <- !lookup_fmap, Heq. reflexivity. }
    split; intros [k rs] Hin; cbn [fst snd];
      apply list_elem_of_In, elem_of_map_to_list in Hin;
      specialize (Hk k); rewrite Hin in Hk.
    + destruct (y !! k) as [rs'|]; [|discriminate].
      apply (isEqual_list_iff _ _ _ _ isEqual_rule_iff).
      cbn in Hk. congruence.
    + destruct (x !! k); [reflexivity | discriminate].
Qed.

(** X9. [verifyDraftsAreEqual] compares [defaultValue] and [rules], and
    nothing else, of the two drafts.  It passes exactly when the default
    values are the same and the rules are the same environment by
    environment and rule by rule, numbers compared as [isEqual] does
    ([+0] equal to [-0]); drafts that differ in their default value, or in
    their rules, are rejected with the review message; two drafts that
    agree on both pass whatever their other fields, and a draft always
    passes against itself. *)
Theorem verifyDraftsAreEqual_compares_content
  (actual expected : option FeatureDraftChanges) :
  (verifyDraftsAreEqual actual expected = Return tt
   <-> actual ≫= draft_defaultValue = expected ≫= draft_defaultValue
       /\ rules_unsigned <$> (actual ≫= draft_rules)
          = rules_unsigned <$> (expected ≫= draft_rules))
  /\ (actual ≫= draft_defaultValue = expected ≫= draft_defaultValue ->
      actual ≫= draft_rules = expected ≫= draft_rules ->
      verifyDraftsAreEqual actual expected = Return tt)
  /\ (actual ≫= draft_defaultValue <> expected ≫= draft_defaultValue ->
      verifyDraftsAreEqual actual expected
      = Throw (mkError
          "New changes have been made to this feature. Please review and try again."))
  /\ (rules_unsigned <$> (actual ≫= draft_rules)
      <> rules_unsigned <$> (expected ≫= draft_rules) ->
      verifyDraftsAreEqual actual expected
      = Throw (mkError
          "New changes have been made to this feature. Please review and try again."))
  /\ verifyDraftsAreEqual actual actual = Return tt.
Proof.
  assert (Hiff : forall a e : option FeatureDraftChanges,
             verifyDraftsAreEqual a e = Return tt
             <-> a ≫= draft_defaultValue = e ≫= draft_defaultValue
                 /\ rules_unsigned <$> (a ≫= draft_rules)
                    = rules_unsigned <$> (e ≫= draft_rules)).
  { intros a e. unfold verifyDraftsAreEqual.
    rewrite <- option_string_iff,
      <- (isEqual_option_iff _ _ _ _ isEqual_rulesByEnv_iff),
      <- andb_true_iff.
    destruct (isEqual_option String.eqb _ _ && isEqual_option _ _ _);
      cbn [negb]; split; congruence. }
  assert (Hthrow : forall a e : option FeatureDraftChanges,
             verifyDraftsAreEqual a e <> Return tt ->
             verifyDraftsAreEqual a e
             = Throw (mkError
                 "New changes have been made to this feature. Please review and try again.")).
  { intros a e. unfold verifyDraftsAreEqual.
    destruct (negb _); [reflexivity | congruence]. }
  split; [apply Hiff|]. split; [|split; [|split]].
  - intros Hd Hr. apply Hiff. rewrite Hd, Hr. auto.
  - intros Hne. apply Hthrow. rewrite Hiff. tauto.
  - intros Hne. apply Hthrow. rewrite Hiff. tauto.
  - apply Hiff. auto.
Qed.

(** ** [parseDefaultValue] *)

Section ParseDefaultFacts.
Context `{Host}.

(** X10. [parseDefaultValue] throws only on the JSON path, and then always
    the same error, whatever [JSON.parse] reported; a boolean default is
    brought to ["true"] or ["false"], which are left as they are when
    parsed again; a string default is kept as it is. *)
Theorem parseDefaultValue_outcomes (supplied type : string) :
  (type = "boolean" \/ type = "number" \/ type = "string" ->
   exists stored, parseDefaultValue supplied type = Return stored)
  /\ (exists stored,
        parseDefaultValue supplied "boolean" = Return stored
        /\ (stored = "true" \/ stored = "false")
        /\ (stored = "true" <-> supplied = "true")
        /\ parseDefaultValue stored "boolean" = Return stored)
  /\ parseDefaultValue supplied "string" = Return supplied
  /\ (type <> "boolean" -> type <> "number" -> type <> "string" ->
      (forall e, JSON_parse supplied = Throw e ->
                 parseDefaultValue supplied type
                 = Throw (mkError "JSON parse error for default value"))
      /\ (forall v, JSON_parse supplied = Return v ->
                    parseDefaultValue supplied type
                    = Return (JSON_stringify v))).
Proof.
  split; [|split; [|split]].
  - intros [-> | [-> | ->]]; eexists; reflexivity.
  - unfold parseDefaultValue. cbn [String.eqb Ascii.eqb Bool.eqb].
    destruct (String.eqb_spec supplied "true") as [-> | Hne].
    + exists "true". repeat split; auto.
    + exists "false". split; [reflexivity|]. split; [auto|].
      split; [|reflexivity]. split; [discriminate | contradiction].
  - reflexivity.
  - intros Hb Hn Hs. apply String.eqb_neq in Hb, Hn, Hs.
    unfold parseDefaultValue. rewrite Hb, Hn, Hs.
    split; intros x Hx; rewrite Hx; reflexivity.
Qed.

End ParseDefaultFacts.

(** ** [addIdsToRules] *)

Section AddIdsFacts.
Context `{Collaborators}.

Lemma ids_added_identified featureId r r' :
  ids_added featureId r r' ->
  truthy_opt_string (rule_id r') = true
  /\ rule_type r' = rule_type r
  /\ (featureId <> "" ->
      match rule_fields r' with
      | ExperimentRule _ _ trackingKey _ _ =>
          truthy_opt_string trackingKey = true
      | _ => True
      end).
Proof.
  intros (_ & _ & _ & Hfields & Hkeep & Hnew).
  split; [|split].
  - destruct (truthy_opt_string (rule_id r)) eqn:Hid.
    + rewrite (Hkeep eq_refl). exact Hid.
    + destruct (Hnew eq_refl) as [n ->]. reflexivity.
  - unfold rule_type. rewrite Hfields.
    destruct (rule_fields r) as [| ? ? trackingKey ? ? | |]; cbn; try reflexivity.
    destruct (negb (truthy_opt_string trackingKey)); reflexivity.
  - intros Hne. rewrite Hfields.
    destruct (rule_fields r) as [| ? ? trackingKey ? ? | |]; cbn; try exact I.
    destruct (truthy_opt_string trackingKey) eqn:Hk; cbn [negb]; [exact Hk|].
    cbn. apply truthy_string_iff, Hne.
Qed.

(** X11. [addIdsToRules] never throws and calls no collaborator.  It keeps
    the environments and their [enabled] flags, and each rule's
    description, condition, [enabled] flag, type and fields; a rule that
    has an id keeps it and one that has none gets one that starts with
    ["fr_"]; an experiment rule without a tracking key gets the feature
    id as its key. *)
Theorem addIdsToRules_keeps_rules
  (envs : gmap string FeatureEnvironment) (featureId : string) (w : World) :
  exists envs' w',
    addIdsToRules (Some envs) featureId w = (Return (Some envs'), w')
    /\ calls w' = calls w
    /\ (forall k, envs !! k = None <-> envs' !! k = None)
    /\ (forall k env env',
          envs !! k = Some env -> envs' !! k = Some env' ->
          env_enabled env' = env_enabled env
          /\ match env_rules env, env_rules env' with
             | Some rules, Some rules' =>
                 Forall2 (ids_added featureId) rules rules'
             | None, None => True
             | _, _ => False
             end).
Proof.
  destruct (addIdsToRules_spec (Some envs) featureId w)
    as (settings' & w' & Hrun & (Hcalls & _ & _) & Hrel).
  destruct settings' as [envs'|]; [|contradiction].
  exists envs', w'. split; [exact Hrun|]. split; [exact Hcalls|]. split.
  - intros k. specialize (Hrel k).
    destruct (envs !! k), (envs' !! k); try contradiction;
      split; congruence.
  - intros k env env' Hk Hk'. specialize (Hrel k).
    rewrite Hk, Hk' in Hrel. exact Hrel.
Qed.

(** X12. After [addIdsToRules] for a non-empty feature id, every rule of
    every environment has a non-empty id, and every experiment rule a
    non-empty tracking key. *)
Theorem addIdsToRules_identifies_every_rule
  (envs : gmap string FeatureEnvironment) (featureId : string) (w : World)
  (envs' : gmap string FeatureEnvironment) (w' : World) :
  featureId <> "" ->
  addIdsToRules (Some envs) featureId w = (Return (Some envs'), w') ->
  forall k env' rules' r',
    envs' !! k = Some env' -> env_rules env' = Some rules' -> In r' rules' ->
    (exists i, rule_id r' = Some i /\ i <> "")
    /\ match rule_fields r' with
       | ExperimentRule _ _ trackingKey _ _ =>
           exists t, trackingKey = Some t /\ t <> ""
       | _ => True
       end.
Proof.
  intros Hne Hrun k env' rules' r' Hk Hrules Hin.
  destruct (addIdsToRules_spec (Some envs) featureId w)
    as (settings0 & w0 & Hrun0 & _ & Hrel).
  rewrite Hrun in Hrun0. injection Hrun0 as <- <-.
  specialize (Hrel k). rewrite Hk in Hrel.
  destruct (envs !! k) as [env|]; [|contradiction].
  destruct Hrel as [_ Hrules0].
  rewrite Hrules in Hrules0.
  destruct (env_rules env) as [rules|]; [|contradiction].
  apply list_elem_of_In, list_elem_of_lookup in Hin. destruct Hin as [i Hi].
  destruct (Forall2_lookup_r _ _ _ _ _ Hrules0 Hi) as (r & _ & Hadded).
  destruct (ids_added_identified featureId r r' Hadded) as (Hid & _ & Hkey).
  split.
  - destruct (rule_id r') as [i'|]; [|discriminate].
    exists i'. split; [reflexivity | apply truthy_string_iff, Hid].
  - specialize (Hkey Hne).
    destruct (rule_fields r') as [| ? ? trackingKey ? ? | |]; try exact I.
    destruct trackingKey as [t|]; [|discriminate].
    exists t. split; [reflexivity | apply truthy_string_iff, Hkey].
Qed.

End AddIdsFacts.

(** ** [createFeatureService] *)

Lemma lower_char_key c : key_char c = true -> key_char (lower_char c) = true.
Proof.
  destruct c as [[] [] [] [] [] [] [] []]; vm_compute; congruence.
Qed.

Lemma lower_char_idem c : lower_char (lower_char c) = lower_char c.
Proof. destruct c as [[] [] [] [] [] [] [] []]; vm_compute; reflexivity. Qed.

Lemma toLowerCase_idem s : toLowerCase (toLowerCase s) = toLowerCase s.
Proof.
  unfold toLowerCase. rewrite list_ascii_of_string_of_list_ascii, map_map.
  f_equal. apply map_ext. intros c. apply lower_char_idem.
Qed.

Lemma string_of_list_ascii_nil l : string_of_list_ascii l = "" -> l = [].
Proof. destruct l; [reflexivity | discriminate]. Qed.

Lemma toLowerCase_key s :
  matches_key_pattern s = true -> matches_key_pattern (toLowerCase s) = true.
Proof.
  unfold matches_key_pattern, toLowerCase.
  rewrite !andb_true_iff, !negb_true_iff, list_ascii_of_string_of_list_ascii.
  intros [Hne Hall]. split.
  - apply String.eqb_neq. intros Hnil.
    apply string_of_list_ascii_nil, map_eq_nil in Hnil.
    apply String.eqb_neq in Hne. apply Hne.
    rewrite <- (string_of_list_ascii_of_string s), Hnil. reflexivity.
  - rewrite forallb_forall in *. intros c Hc.
    apply in_map_iff in Hc. destruct Hc as (c0 & <- & Hc0).
    apply lower_char_key, Hall, Hc0.
Qed.

Section CreateMore.
Context `{Host} `{Collaborators}.

(** X13. What a returning run of [createFeatureService] guarantees: every
    check passed; the feature returned is the document handed to
    [createFeature], which resolved; its id is the supplied key in lower
    case, still a valid key; [archived] is set ([false] when not
    supplied); the two dates are two successive clock readings; and the
    only other call is one webhook call for the enabled environments and
    the project, made after [createFeature]. *)
Theorem created_feature_is_the_persisted_one (feature : PartialFeature)
  (w w' : World) (f : FeatureInterface) :
  createFeatureService feature w = (Return f, w') ->
  (exists key, p_id feature = Some key /\ id f = toLowerCase key
               /\ matches_key_pattern key = true)
  /\ matches_key_pattern (id f) = true
  /\ toLowerCase (id f) = id f
  /\ archived f = Some (default false (p_archived feature))
  /\ includes (valueType f) ["boolean"; "number"; "string"; "json"] = true
  /\ organization f <> ""
  /\ (exists own, owner f = Some (JStr own) /\ own <> "")
  /\ dateCreated f = Date_now (clockReads w)
  /\ dateUpdated f = Date_now (S (clockReads w))
  /\ createFeature_outcome f = Return tt
  /\ calls w'
     = (calls w ++
        [CreateFeature f;
         QueueWebhook (organization f) (getEnabledEnvironments f)
           [JStr ""; or_empty (project f)] true])%list.
Proof.
  intros Hrun. apply createFeatureService_Return in Hrun.
  destruct Hrun as (key & org & own & type & supplied & settings & w1
                    & Hkey & Hpat & Horg & Horg' & Hown & Hown' & Hvt & Hinc
                    & Hdv & Hdv' & Hparse & Hset & Hf & Hcreate & Hcalls).
  rewrite Hcalls. rewrite Hf.
  cbn [id archived valueType organization owner dateCreated dateUpdated
       project].
  rewrite or_empty_string.
  repeat apply conj; try assumption; try reflexivity.
  - exists key. auto.
  - apply toLowerCase_key, Hpat.
  - apply toLowerCase_idem.
  - exists own. auto.
  - rewrite <- Hf. exact Hcreate.
Qed.

Lemma bind_Throw_inv {A B} (m : M A) (k : A -> M B) w e w' :
  (m ≫= k) w = (Throw e, w') ->
  m w = (Throw e, w')
  \/ exists a w1, m w = (Return a, w1) /\ k a w1 = (Throw e, w').
Proof.
  unfold mbind, M_bind, bind.
  destruct (m w) as [[a | e0] w1]; [eauto | intros [= <- <-]; auto].
Qed.

Lemma required_outcome x msg w :
  (exists s, x = Some s /\ s <> "" /\ required x msg w = (Return s, w))
  \/ required x msg w = (Throw (mkError msg), w).
Proof.
  unfold required. destruct x as [s|]; [|right; reflexivity].
  destruct (truthy_string s) eqn:Hs; [|right; reflexivity].
  left. exists s. apply truthy_string_iff in Hs. auto.
Qed.

(** X14. A run of [createFeatureService] that throws has either called no
    collaborator at all (a check failed, or the default value did not
    parse), or called [createFeature] alone and thrown its rejection; in
    neither case has the webhook been queued. *)
Theorem failed_creation_queues_no_webhook (feature : PartialFeature)
  (w w' : World) (e : Error) :
  createFeatureService feature w = (Throw e, w') ->
  calls w' = calls w
  \/ exists f, calls w' = (calls w ++ [CreateFeature f])%list
               /\ createFeature_outcome f = Throw e.
Proof.
  unfold createFeatureService. intros Hrun.
  (* the feature key *)
  apply bind_Throw_inv in Hrun.
  destruct Hrun as [Hrun | (key & w0 & Hstep & Hrun)].
  { destruct (required_outcome (p_id feature) "Must specify feature key" w)
      as [(s & _ & _ & Hs) | Hs]; rewrite Hs in Hrun; injection Hrun as _ <-;
      auto. }
  apply required_Return in Hstep. destruct Hstep as (_ & _ & ->).
  apply bind_Throw_inv in Hrun.
  destruct Hrun as [Hrun | ([] & w0 & Hstep & Hrun)].
  { destruct (negb (matches_key_pattern key)); injection Hrun as _ <-; auto. }
  apply guard_Return in Hstep. destruct Hstep as (_ & ->).
  (* organization, owner, value type *)
  apply bind_Throw_inv in Hrun.
  destruct Hrun as [Hrun | (org & w0 & Hstep & Hrun)].
  { destruct (required_outcome (p_organization feature)
                "Organization could not be found" w)
      as [(s & _ & _ & Hs) | Hs]; rewrite Hs in Hrun; injection Hrun as _ <-;
      auto. }
  apply required_Return in Hstep. destruct Hstep as (_ & _ & ->).
  apply bind_Throw_inv in Hrun.
  destruct Hrun as [Hrun | (own & w0 & Hstep & Hrun)].
  { destruct (required_outcome (p_owner feature) "Owner must be specified" w)
      as [(s & _ & _ & Hs) | Hs]; rewrite Hs in Hrun; injection Hrun as _ <-;
      auto. }
  apply required_Return in Hstep. destruct Hstep as (_ & _ & ->).
  apply bind_Throw_inv in Hrun.
  destruct Hrun as [Hrun | (type & w0 & Hstep & Hrun)].
  { destruct (required_outcome (p_valueType feature)
                "Value type must be specified" w)
      as [(s & _ & _ & Hs) | Hs]; rewrite Hs in Hrun; injection Hrun as _ <-;
      auto. }
  apply required_Return in Hstep. destruct Hstep as (_ & _ & ->).
  apply bind_Throw_inv in Hrun.
  destruct Hrun as [Hrun | ([] & w0 & Hstep & Hrun)].
  { destruct (negb (includes type _)); injection Hrun as _ <-; auto. }
  apply guard_Return in Hstep. destruct Hstep as (_ & ->).
  (* the default value *)
  apply bind_Throw_inv in Hrun.
  destruct Hrun as [Hrun | (supplied & w0 & Hstep & Hrun)].
  { destruct (required_outcome (p_defaultValue feature)
                "Default value must be specified" w)
      as [(s & _ & _ & Hs) | Hs]; rewrite Hs in Hrun; injection Hrun as _ <-;
      auto. }
  apply required_Return in Hstep. destruct Hstep as (_ & _ & ->).
  apply bind_Throw_inv in Hrun.
  destruct Hrun as [Hrun | (d1 & w0 & Hstep & Hrun)]; [discriminate|].
  injection Hstep as <- <-.
  apply bind_Throw_inv in Hrun.
  destruct Hrun as [Hrun | (d2 & w0 & Hstep & Hrun)]; [discriminate|].
  injection Hstep as <- <-.
  apply bind_Throw_inv in Hrun.
  destruct Hrun as [Hrun | (parsed & w0 & Hstep & Hrun)].
  { unfold lift in Hrun. injection Hrun as _ <-. auto. }
  unfold lift in Hstep. injection Hstep as _ <-.
  (* the rule ids *)
  destruct (addIdsToRules_spec (p_environmentSettings feature)
              (toLowerCase key) (tick (tick w)))
    as (settings & w1 & Hset & (Hcalls & _ & _) & _).
  change (World -> result (option (gmap string FeatureEnvironment)) * World)
    with (M (option (gmap string FeatureEnvironment))) in *.
  apply bind_Throw_inv in Hrun.
  destruct Hrun as [Hrun | (settings' & w0 & Hstep & Hrun)].
  { change (tick (tick w)) with
      {| calls := calls w; clockReads := S (S (clockReads w));
         idsGiven := idsGiven w |} in Hset.
    rewrite Hset in Hrun. discriminate. }
  change (tick (tick w)) with
    {| calls := calls w; clockReads := S (S (clockReads w));
       idsGiven := idsGiven w |} in Hset.
  rewrite Hset in Hstep. injection Hstep as <- <-.
  (* createFeature *)
  apply bind_Throw_inv in Hrun.
  destruct Hrun as [Hrun | ([] & w0 & Hstep & Hrun)].
  { unfold call in Hrun. injection Hrun as Hout <-.
    right. eexists. cbn [calls]. rewrite Hcalls. cbn [calls]. eauto. }
  apply bind_Throw_inv in Hrun.
  destruct Hrun as [Hrun | ([] & w2 & _ & Hrun)]; discriminate.
Qed.

End CreateMore.

(** ** [updateFeatureService] *)

Lemma no_invalid_keys (updates : list (string * json)) :
  (forall k, In k (map fst updates) -> In k allowedKeys) ->
  List.filter (fun k => negb (includes k allowedKeys)) (map fst updates) = [].
Proof.
  intros Hall. induction (map fst updates) as [|k ks IH]; [reflexivity|].
  cbn [List.filter].
  rewrite (proj2 (includes_In k allowedKeys)) by (apply Hall; left; reflexivity).
  cbn [negb]. apply IH. intros k' Hk'. apply Hall. right. exact Hk'.
Qed.

Lemma spreadProperty_protected feature kv :
  let f := spreadProperty feature kv in
  id f = id feature /\ archived f = archived feature
  /\ organization f = organization feature
  /\ dateCreated f = dateCreated feature /\ dateUpdated f = dateUpdated feature
  /\ valueType f = valueType feature /\ defaultValue f = defaultValue feature
  /\ environmentSettings f = environmentSettings feature
  /\ draft f = draft feature /\ revision f = revision feature.
Proof.
  destruct kv as [k v]. unfold spreadProperty.
  destruct (k =? "tags")%string; [cbn; tauto|].
  destruct (k =? "description")%string; [cbn; tauto|].
  destruct (k =? "project")%string; [cbn; tauto|].
  destruct (k =? "owner")%string; cbn; tauto.
Qed.

Lemma spread_protected feature updates :
  let f := spread feature updates in
  id f = id feature /\ archived f = archived feature
  /\ organization f = organization feature
  /\ dateCreated f = dateCreated feature /\ dateUpdated f = dateUpdated feature
  /\ valueType f = valueType feature /\ defaultValue f = defaultValue feature
  /\ environmentSettings f = environmentSettings feature
  /\ draft f = draft feature /\ revision f = revision feature.
Proof.
  unfold spread. revert feature.
  induction updates as [|kv updates IH]; intros feature; [cbn; tauto|].
  cbn [fold_left].
  pose proof (IH (spreadProperty feature kv)) as H1.
  pose proof (spreadProperty_protected feature kv) as H2.
  cbv zeta in *.
  destruct H1 as (-> & -> & -> & -> & -> & -> & -> & -> & -> & ->).
  exact H2.
Qed.

Lemma getEnabledEnvironments_spread feature updates :
  getEnabledEnvironments (spread feature updates)
  = getEnabledEnvironments feature.
Proof.
  unfold getEnabledEnvironments.
  destruct (spread_protected feature updates)
    as (_ & _ & _ & _ & _ & _ & _ & -> & _).
  reflexivity.
Qed.

Lemma property_absent key (updates : list (string * json)) :
  ~ In key (map fst updates) -> property key updates = None.
Proof.
  induction updates as [|[k v] updates IH]; [reflexivity|].
  cbn [map fst In property]. intros Hout.
  destruct (String.eqb_spec k key) as [-> | _]; [tauto|].
  apply IH. tauto.
Qed.

(** What one property does to the four fields. *)
Lemma spreadProperty_fields feature k v :
  let f := spreadProperty feature (k, v) in
  tags f = (if (k =? "tags")%string then Some v else tags feature)
  /\ description f
     = (if (k =? "description")%string then Some v else description feature)
  /\ project f = (if (k =? "project")%string then Some v else project feature)
  /\ owner f = (if (k =? "owner")%string then Some v else owner feature).
Proof.
  unfold spreadProperty.
  destruct (String.eqb_spec k "tags") as [-> | _]; [cbn; tauto|].
  destruct (String.eqb_spec k "description") as [-> | _]; [cbn; tauto|].
  destruct (String.eqb_spec k "project") as [-> | _]; [cbn; tauto|].
  destruct (String.eqb_spec k "owner") as [-> | _]; cbn; tauto.
Qed.

(** The four fields of [{ ...feature, ...updates }], for an object
    [updates] (its keys are distinct): each holds the value [updates] has
    under its name, of whatever type, and the value of [feature] when
    [updates] has no such key. *)
Lemma spread_fields feature updates :
  NoDup (map fst updates) ->
  tags (spread feature updates) = overwritten updates "tags" (tags feature)
  /\ description (spread feature updates)
     = overwritten updates "description" (description feature)
  /\ project (spread feature updates)
     = overwritten updates "project" (project feature)
  /\ owner (spread feature updates)
     = overwritten updates "owner" (owner feature).
Proof.
  unfold spread, overwritten. revert feature.
  induction updates as [|[k v] updates IH]; intros feature Hnd;
    [cbn; tauto|].
  cbn [map fst] in Hnd. apply NoDup_cons in Hnd. destruct Hnd as [Hk Hnd].
  assert (Hout : ~ In k (map fst updates))
    by (intros Hin; apply Hk, list_elem_of_In, Hin).
  cbn [fold_left property].
  destruct (IH (spreadProperty feature (k, v)) Hnd) as (-> & -> & -> & ->).
  destruct (spreadProperty_fields feature k v) as (-> & -> & -> & ->).
  repeat apply conj.
  - destruct (String.eqb_spec k "tags") as [-> | _]; [|reflexivity].
    rewrite (property_absent _ _ Hout). reflexivity.
  - destruct (String.eqb_spec k "description") as [-> | _]; [|reflexivity].
    rewrite (property_absent _ _ Hout). reflexivity.
  - destruct (String.eqb_spec k "project") as [-> | _]; [|reflexivity].
    rewrite (property_absent _ _ Hout). reflexivity.
  - destruct (String.eqb_spec k "owner") as [-> | _]; [|reflexivity].
    rewrite (property_absent _ _ Hout). reflexivity.
Qed.

Lemma or_empty_idempotent x : or_empty (Some (or_empty x)) = or_empty x.
Proof.
  destruct x as [v|]; [|reflexivity]. cbn [or_empty].
  destruct (truthy_json v) eqn:Hv; [rewrite Hv|]; reflexivity.
Qed.

Lemma or_empty_truthy v : truthy_json v = true -> or_empty (Some v) = v.
Proof. intros Hv. cbn [or_empty]. rewrite Hv. reflexivity. Qed.

Section UpdateFacts.
Context `{Collaborators}.

(** The world after [c] was called. *)
Lemma call_run {A} (c : Call) (outcome : result A) w :
  call c outcome w
  = (outcome, {| calls := (calls w ++ [c])%list; clockReads := clockReads w;
                 idsGiven := idsGiven w |}).
Proof. reflexivity. Qed.

(** X15. An update whose keys are all allowed and which names no project
    (or a falsy one) makes exactly one call, [updateFeature] with the
    updates and a fresh date, and no webhook; when that call rejects the
    service throws the same error, and when it resolves the service
    returns the feature with the updates spread over it: each of [tags],
    [description], [project] and [owner] holds the value the update has
    under that key, whatever its type ([null] included), and the stored
    value when the update has no such key. *)
Theorem update_without_project (updates : list (string * json))
  (feature : FeatureInterface) (featureId : string) (w : World) :
  (forall k, In k (map fst updates) -> In k allowedKeys) ->
  NoDup (map fst updates) ->
  (property "project" updates = None
   \/ exists p, property "project" updates = Some p /\ truthy_json p = false) ->
  let now := Date_now (clockReads w) in
  let w' := {| calls := (calls w
                         ++ [UpdateFeature (organization feature) featureId
                               updates now])%list;
               clockReads := S (clockReads w); idsGiven := idsGiven w |} in
  updateFeatureService updates feature featureId w
  = (match updateFeature_outcome (organization feature) featureId updates now
     with
     | Return _ => Return (spread feature updates)
     | Throw e => Throw e
     end, w')
  /\ tags (spread feature updates) = overwritten updates "tags" (tags feature)
  /\ description (spread feature updates)
     = overwritten updates "description" (description feature)
  /\ project (spread feature updates)
     = overwritten updates "project" (project feature)
  /\ owner (spread feature updates)
     = overwritten updates "owner" (owner feature).
Proof.
  intros Hkeys Hnd Hproj now w'. split; [|apply spread_fields, Hnd].
  unfold updateFeatureService.
  rewrite (no_invalid_keys updates Hkeys). cbn [length Nat.eqb negb].
  rewrite (bind_step (ret tt) _ w tt w eq_refl).
  assert (Hreq : (match property "project" updates with
                  | Some p =>
                      if truthy_json p
                      then
                        found ← call (FindProjectById p (organization feature))
                                  (findProjectById_outcome p
                                     (organization feature));
                        (if negb (found : bool)
                         then throw "Project not found"
                         else ret (differs_from p (project feature)))
                      else ret false
                  | None => ret false
                  end : M bool) w = (Return false, w)).
  { destruct Hproj as [-> | (p & -> & ->)]; reflexivity. }
  rewrite (bind_step _ _ _ _ _ Hreq).
  rewrite (bind_step newDate _ w now (tick w) eq_refl).
  unfold mbind, M_bind, bind. rewrite call_run. fold now.
  destruct (updateFeature_outcome (organization feature) featureId updates now);
    reflexivity.
Qed.

(** X16. An update that names a project [findProjectById] does not find
    throws ["Project not found"] after that one lookup: [updateFeature] is
    not called and no webhook is queued. *)
Theorem update_with_unknown_project (updates : list (string * json))
  (feature : FeatureInterface) (featureId : string) (w : World) (p : json) :
  (forall k, In k (map fst updates) -> In k allowedKeys) ->
  property "project" updates = Some p -> truthy_json p = true ->
  findProjectById_outcome p (organization feature) = Return false ->
  updateFeatureService updates feature featureId w
  = (Throw (mkError "Project not found"),
     {| calls := (calls w ++ [FindProjectById p (organization feature)])%list;
        clockReads := clockReads w; idsGiven := idsGiven w |}).
Proof.
  intros Hkeys Hp Htruthy Hfind. unfold updateFeatureService.
  rewrite (no_invalid_keys updates Hkeys). cbn [length Nat.eqb negb].
  rewrite (bind_step (ret tt) _ w tt w eq_refl).
  rewrite Hp, Htruthy, Hfind.
  reflexivity.
Qed.

(** X17. An update that names a project (any truthy value) which is
    found, with [updateFeature] resolving: the service returns the feature
    with the updates spread over it, whose project is the update's and
    whose [tags], [description] and [owner] are the update's where it has
    the key, whatever the value's type; the calls are the lookup, then
    [updateFeature], and, only when the project [!==] the stored one, one
    webhook call carrying the old and the new project and the feature's
    enabled environments (listed twice, as the update cannot change
    them).  A string project differs from the stored one unless that is
    the same string. *)
Theorem update_with_known_project (updates : list (string * json))
  (feature : FeatureInterface) (featureId : string) (w : World) (p : json) :
  (forall k, In k (map fst updates) -> In k allowedKeys) ->
  NoDup (map fst updates) ->
  property "project" updates = Some p -> truthy_json p = true ->
  findProjectById_outcome p (organization feature) = Return true ->
  updateFeature_outcome (organization feature) featureId updates
    (Date_now (clockReads w)) = Return tt ->
  let envs := getEnabledEnvironments feature in
  let webhook :=
    QueueWebhook (organization feature) (envs ++ envs)%list
      [or_empty (project feature); p] true in
  (exists w',
     updateFeatureService updates feature featureId w
     = (Return (spread feature updates), w')
     /\ calls w'
        = (calls w
           ++ [FindProjectById p (organization feature);
               UpdateFeature (organization feature) featureId updates
                 (Date_now (clockReads w))]
           ++ (if differs_from p (project feature) then [webhook] else []))%list)
  /\ project (spread feature updates) = Some p
  /\ tags (spread feature updates) = overwritten updates "tags" (tags feature)
  /\ description (spread feature updates)
     = overwritten updates "description" (description feature)
  /\ owner (spread feature updates)
     = overwritten updates "owner" (owner feature)
  /\ (forall s, p = JStr s ->
        (differs_from p (project feature) = false
         <-> project feature = Some (JStr s))).
Proof.
  intros Hkeys Hnd Hp Htruthy Hfind Hupd envs webhook.
  destruct (spread_fields feature updates Hnd) as (Htags & Hdesc & Hproj & Hown).
  unfold overwritten in Hproj. rewrite Hp in Hproj.
  destruct (spread_protected feature updates) as (_ & _ & Horg & _).
  split; [|repeat apply conj; try assumption].
  - unfold updateFeatureService.
    rewrite (no_invalid_keys updates Hkeys). cbn [length Nat.eqb negb].
    rewrite (bind_step (ret tt) _ w tt w eq_refl).
    rewrite Hp, Htruthy, Hfind.
    unfold mbind, M_bind, bind. rewrite !call_run. cbn [negb].
    unfold ret, newDate. cbn [calls clockReads idsGiven].
    rewrite call_run, Hupd. cbn [calls clockReads idsGiven].
    destruct (differs_from p (project feature)).
    + eexists. split; [reflexivity|].
      unfold not_awaited, featureUpdated. rewrite call_run.
      cbn [snd calls].
      rewrite getEnabledEnvironments_spread, Hproj, Horg.
      rewrite or_empty_idempotent, (or_empty_truthy p Htruthy).
      rewrite <- !app_assoc. reflexivity.
    + eexists. split; [reflexivity|].
      cbn [calls]. rewrite <- app_assoc. reflexivity.
  - intros s ->. unfold differs_from.
    destruct (project feature) as [[| | | s' | |]|]; try (split; discriminate).
    rewrite negb_false_iff, String.eqb_eq. split; congruence.
Qed.

(** X18. Whatever the updates, a feature returned by [updateFeatureService]
    is the given feature with the updates spread over it.  All update keys
    are allowed ones; each of [tags], [description], [project] and [owner]
    holds the value the update has under that key, whatever its type, and
    the stored value when the update has no such key; and the feature has
    the id, organization, value type, default value, archived flag,
    environment settings (hence enabled environments), draft, revision and
    dates of the feature it was given.  In particular the returned
    [dateUpdated] is the old one, not the date sent to [updateFeature],
    which was called and resolved. *)
Theorem update_keeps_protected_fields (updates : list (string * json))
  (feature : FeatureInterface) (featureId : string) (w w' : World)
  (f : FeatureInterface) :
  updateFeatureService updates feature featureId w = (Return f, w') ->
  NoDup (map fst updates) ->
  f = spread feature updates
  /\ (forall k, In k (map fst updates) -> In k allowedKeys)
  /\ tags f = overwritten updates "tags" (tags feature)
  /\ description f = overwritten updates "description" (description feature)
  /\ project f = overwritten updates "project" (project feature)
  /\ owner f = overwritten updates "owner" (owner feature)
  /\ id f = id feature /\ organization f = organization feature
  /\ valueType f = valueType feature /\ defaultValue f = defaultValue feature
  /\ archived f = archived feature
  /\ environmentSettings f = environmentSettings feature
  /\ getEnabledEnvironments f = getEnabledEnvironments feature
  /\ draft f = draft feature /\ revision f = revision feature
  /\ dateCreated f = dateCreated feature /\ dateUpdated f = dateUpdated feature
  /\ In (UpdateFeature (organization feature) featureId updates
           (Date_now (clockReads w))) (calls w')
  /\ updateFeature_outcome (organization feature) featureId updates
       (Date_now (clockReads w)) = Return tt.
Proof.
  unfold updateFeatureService. intros Hrun Hnd.
  apply bind_Return in Hrun. destruct Hrun as ([] & w0 & Hguard & Hrun).
  apply guard_Return in Hguard. destruct Hguard as (Hguard & ->).
  apply negb_false_iff, Nat.eqb_eq, length_zero_iff_nil in Hguard.
  apply bind_Return in Hrun. destruct Hrun as (hook & w1 & Hproj & Hrun).
  assert (Hw1 : clockReads w1 = clockReads w).
  { destruct (property "project" updates) as [p|];
      [|injection Hproj as _ <-; reflexivity].
    destruct (truthy_json p); [|injection Hproj as _ <-; reflexivity].
    apply bind_Return in Hproj. destruct Hproj as (found & w2 & Hfind & Hproj).
    rewrite call_run in Hfind. injection Hfind as _ <-.
    destruct (negb found); [discriminate|]. injection Hproj as _ <-.
    reflexivity. }
  apply bind_Return in Hrun. destruct Hrun as (now & w2 & Hdate & Hrun).
  injection Hdate as <- <-. rewrite Hw1 in Hrun.
  apply bind_Return in Hrun. destruct Hrun as ([] & w3 & Hupd & Hrun).
  rewrite call_run in Hupd. injection Hupd as Hupd <-.
  apply bind_Return in Hrun. destruct Hrun as ([] & w4 & Hhook & Hrun).
  injection Hrun as <- <-.
  assert (Hcalls : In (UpdateFeature (organization feature) featureId updates
                         (Date_now (clockReads w))) (calls w4)).
  { destruct hook.
    - unfold not_awaited, featureUpdated in Hhook. rewrite call_run in Hhook.
      injection Hhook as <-. cbn [snd calls].
      apply in_or_app. left. apply in_or_app. right. left. reflexivity.
    - injection Hhook as <-. cbn [calls].
      apply in_or_app. right. left. reflexivity. }
  destruct (spread_protected feature updates)
    as (? & ? & ? & ? & ? & ? & ? & ? & ? & ?).
  destruct (spread_fields feature updates Hnd) as (? & ? & ? & ?).
  repeat apply conj; try assumption; try reflexivity.
  - intros k Hk.
    destruct (in_dec String.string_dec k allowedKeys) as [Hin | Hout];
      [exact Hin|].
    assert (Hbad : In k (List.filter (fun k => negb (includes k allowedKeys))
                           (map fst updates)))
      by (apply invalidKeys_In; auto).
    rewrite Hguard in Hbad. contradiction.
  - apply getEnabledEnvironments_spread.
Qed.

End UpdateFacts.

(** ** Features that share an id, and updated features *)

Section MoreAssemblerFacts.
Context `{Host}.

(** X19. Ids that are not unique: the assembler keeps, under an id, the
    definition of the last feature with that id that is not skipped.  A
    live feature that comes last owns its entry whatever came before (for
    the id ["__proto__"] alone its definition becomes the prototype of
    the mapping and there is no entry); a skipped one changes nothing, so
    it does not remove the entry of an earlier live feature of the same
    id; and entries under other ids are untouched. *)
Theorem last_live_feature_wins (features : list FeatureInterface)
  (f : FeatureInterface) (environment : option string) :
  (forall s,
     lookupSettings f (default "production" environment) = Some s ->
     env_enabled s = true -> truthy_opt_bool (archived f) = false ->
     (id f <> "__proto__" ->
      getFeatureDefinitions (features ++ [f]) environment !! id f
      = Some (compileFeature f s))
     /\ (id f = "__proto__" ->
         prototype (getFeatureDefinitions (features ++ [f]) environment)
         = Some (compileFeature f s)
         /\ getFeatureDefinitions (features ++ [f]) environment !! id f
            = None))
  /\ (skipped f (default "production" environment) = true ->
      getFeatureDefinitions (features ++ [f]) environment
      = getFeatureDefinitions features environment)
  /\ (forall k, k <> id f ->
      getFeatureDefinitions (features ++ [f]) environment !! k
      = getFeatureDefinitions features environment !! k).
Proof.
  split; [|split].
  - intros s Hs Hen Har.
    assert (Hassigned :
              assigned (getFeatureDefinitions (features ++ [f]) environment)
                (id f) = Some (compileFeature f s)).
    { rewrite getFeatureDefinitions_snoc, addFeature_assigned. unfold skipped.
      rewrite Hs, Hen, Har. cbn [negb orb].
      destruct (decide (id f = id f)); [reflexivity | contradiction]. }
    split.
    + intros Hid. rewrite lookup_assigned by exact Hid. exact Hassigned.
    + intros Hid. rewrite Hid in *. split; [exact Hassigned | apply no_own_proto].
  - rewrite getFeatureDefinitions_snoc. unfold skipped, addFeature.
    destruct (lookupSettings f _) as [s|]; [|reflexivity].
    intros ->. reflexivity.
  - intros k Hk.
    destruct (String.eqb_spec k "__proto__") as [-> | Hproto].
    + rewrite !no_own_proto. reflexivity.
    + rewrite !lookup_assigned by exact Hproto.
      rewrite getFeatureDefinitions_snoc, addFeature_assigned.
      destruct (skipped f _); [reflexivity|].
      destruct (decide (id f = k)); [congruence | reflexivity].
Qed.



End MoreAssemblerFacts.

Section UpdateCompileFacts.
Context `{Host} `{Collaborators}.



End UpdateCompileFacts.

(** ** A second pass of [addIdsToRules] *)

Section SettledFacts.
Context `{Collaborators}.

Lemma defaultTrackingKey_idempotent featureId fields :
  defaultTrackingKey featureId (defaultTrackingKey featureId fields)
  = defaultTrackingKey featureId fields.
Proof.
  destruct fields as [| values cov trackingKey hashAttr ns | |]; try reflexivity.
  cbn. destruct (truthy_opt_string trackingKey) eqn:Hk; cbn [negb].
  - cbn. rewrite Hk. reflexivity.
  - cbn. destruct (truthy_string featureId); reflexivity.
Qed.

Lemma addIdsToRule_settled featureId r w :
  truthy_opt_string (rule_id r) = true ->
  defaultTrackingKey featureId (rule_fields r) = rule_fields r ->
  addIdsToRule featureId r w = (Return r, w).
Proof.
  intros Hid Hfields. unfold addIdsToRule. rewrite Hid, Hfields.
  destruct r. reflexivity.
Qed.

Lemma mapM_fixed {A} (f : A -> M A) (l : list A) :
  Forall (fun a => forall w, f a w = (Return a, w)) l ->
  forall w, mapM f l w = (Return l, w).
Proof.
  induction 1 as [|a l Ha _ IH]; intros w; [reflexivity|].
  cbn [mapM]. rewrite (bind_step _ _ _ _ _ (Ha w)), (bind_step _ _ _ _ _ (IH w)).
  reflexivity.
Qed.

Lemma addIdsToEnvironment_settled featureId env0 env w :
  env_ids_added featureId env0 env ->
  addIdsToEnvironment featureId env w = (Return env, w).
Proof.
  intros [_ Hrules]. unfold addIdsToEnvironment.
  destruct (env_rules env) as [rules|] eqn:Hr; [|reflexivity].
  destruct (env_rules env0) as [rules0|]; [|contradiction].
  destruct (negb (length rules =? 0)%nat); [|reflexivity].
  rewrite (bind_step _ _ w rules w).
  - destruct env. cbn in Hr. subst. reflexivity.
  - apply mapM_fixed. apply Forall_forall. intros r Hin w0.
    apply list_elem_of_lookup in Hin. destruct Hin as [i Hi].
    destruct (Forall2_lookup_r _ _ _ _ _ Hrules Hi) as (r0 & _ & Hadded).
    destruct (ids_added_identified featureId r0 r Hadded) as (Hid & _ & _).
    apply addIdsToRule_settled; [exact Hid|].
    destruct Hadded as (_ & _ & _ & -> & _).
    apply defaultTrackingKey_idempotent.
Qed.

(** X21. [addIdsToRules] settles in one pass: run again on the settings
    it has produced, for the same feature id, it changes nothing and draws
    no identifier, so no rule ever changes its id or tracking key once it
    has one. *)
Theorem addIdsToRules_idempotent
  (settings settings' : option (gmap string FeatureEnvironment))
  (featureId : string) (w w' : World) :
  addIdsToRules settings featureId w = (Return settings', w') ->
  forall w2, addIdsToRules settings' featureId w2 = (Return settings', w2).
Proof.
  intros Hrun w2.
  destruct (addIdsToRules_spec settings featureId w)
    as (settings0 & w0 & Hrun0 & _ & Hrel).
  rewrite Hrun in Hrun0. injection Hrun0 as <- <-.
  destruct settings' as [envs'|]; [|reflexivity].
  destruct settings as [envs|]; [|contradiction].
  unfold addIdsToRules.
  rewrite (bind_step _ _ w2 (map_to_list envs') w2).
  - unfold ret. rewrite list_to_map_to_list. reflexivity.
  - apply mapM_fixed. apply Forall_forall. intros [k env'] Hin w3.
    apply elem_of_map_to_list in Hin. specialize (Hrel k).
    rewrite Hin in Hrel. destruct (envs !! k) as [env|]; [|contradiction].
    cbn [fst snd].
    rewrite (bind_step _ _ _ _ _
               (addIdsToEnvironment_settled featureId env env' w3 Hrel)).
    reflexivity.
Qed.

End SettledFacts.

(** ** The checks of [createFeatureService], in order *)

Section RejectionFacts.
Context `{Host} `{Collaborators}.

Lemma required_falsy x msg w :
  truthy_opt_string x = false -> required x msg w = (Throw (mkError msg), w).
Proof.
  unfold required, truthy_opt_string.
  destruct x as [s|]; [intros ->|]; reflexivity.
Qed.

Lemma required_truthy x msg w :
  truthy_opt_string x = true ->
  exists s, x = Some s /\ s <> "" /\ required x msg w = (Return s, w).
Proof.
  destruct x as [s|]; [|discriminate]. cbn [truthy_opt_string]. intros Hs.
  exists s. split; [reflexivity|].
  split; [apply truthy_string_iff, Hs | unfold required; rewrite Hs; reflexivity].
Qed.

(** X22. [createFeatureService] checks its argument in a fixed order and
    throws at the first check that fails, before any collaborator is
    called: the key is missing or empty; the key has a character outside
    letters, digits and [_ . : | -]; the organization, the owner, the
    value type is missing or empty; the value type is none of the four;
    the default value is missing or empty.  A default value that does not
    parse is rejected last, after the clock was read twice. *)
Theorem createFeatureService_rejections (feature : PartialFeature) (w : World) :
  (truthy_opt_string (p_id feature) = false ->
   createFeatureService feature w
   = (Throw (mkError "Must specify feature key"), w))
  /\ forall key, p_id feature = Some key -> key <> "" ->
     (matches_key_pattern key = false ->
      createFeatureService feature w
      = (Throw (mkError
           "Feature keys can only include letters, numbers, hyphens, and underscores."),
         w))
     /\ (matches_key_pattern key = true ->
         (truthy_opt_string (p_organization feature) = false ->
          createFeatureService feature w
          = (Throw (mkError "Organization could not be found"), w))
         /\ (truthy_opt_string (p_organization feature) = true ->
             (truthy_opt_string (p_owner feature) = false ->
              createFeatureService feature w
              = (Throw (mkError "Owner must be specified"), w))
             /\ (truthy_opt_string (p_owner feature) = true ->
                 (truthy_opt_string (p_valueType feature) = false ->
                  createFeatureService feature w
                  = (Throw (mkError "Value type must be specified"), w))
                 /\ forall type, p_valueType feature = Some type -> type <> "" ->
                    (includes type ["boolean"; "number"; "string"; "json"] = false ->
                     createFeatureService feature w
                     = (Throw (mkError
                          "Value type must be one of boolean, number, string, or json"),
                        w))
                    /\ (includes type ["boolean"; "number"; "string"; "json"] = true ->
                        (truthy_opt_string (p_defaultValue feature) = false ->
                         createFeatureService feature w
                         = (Throw (mkError "Default value must be specified"), w))
                        /\ forall supplied e,
                           p_defaultValue feature = Some supplied ->
                           supplied <> "" ->
                           parseDefaultValue supplied type = Throw e ->
                           createFeatureService feature w
                           = (Throw e, tick (tick w)))))).
Proof.
  unfold createFeatureService. split.
  { intros Hid. apply bind_Throw, required_falsy, Hid. }
  intros key -> Hkey.
  rewrite (bind_step _ _ _ _ _ (required_step key _ w Hkey)). split.
  { intros ->. reflexivity. }
  intros ->. cbn [negb]. rewrite (bind_step (ret tt) _ w tt w eq_refl). split.
  { intros Horg. apply bind_Throw, required_falsy, Horg. }
  intros Horg.
  destruct (required_truthy _ "Organization could not be found" w Horg)
    as (org & _ & _ & Hstep).
  rewrite (bind_step _ _ _ _ _ Hstep). clear Hstep. split.
  { intros Hown. apply bind_Throw, required_falsy, Hown. }
  intros Hown.
  destruct (required_truthy _ "Owner must be specified" w Hown)
    as (own & _ & _ & Hstep).
  rewrite (bind_step _ _ _ _ _ Hstep). clear Hstep. split.
  { intros Hvt. apply bind_Throw, required_falsy, Hvt. }
  intros type -> Htype.
  rewrite (bind_step _ _ _ _ _ (required_step type _ w Htype)). split.
  { intros ->. reflexivity. }
  intros ->. cbn [negb]. rewrite (bind_step (ret tt) _ w tt w eq_refl). split.
  { intros Hdv. apply bind_Throw, required_falsy, Hdv. }
  intros supplied e -> Hsupplied Hparse.
  rewrite (bind_step _ _ _ _ _ (required_step supplied _ w Hsupplied)).
  rewrite (bind_step newDate _ w _ (tick w) eq_refl).
  rewrite (bind_step newDate _ (tick w) _ (tick (tick w)) eq_refl).
  rewrite Hparse. reflexivity.
Qed.

End RejectionFacts.

(** ** The theorems on concrete documents *)

Lemma definitions_order_irrelevant_witness :
  getFeatureDefinitions [showBanner; checkout] None
  = getFeatureDefinitions [checkout; showBanner] None.
Proof.
  apply (definitions_order_irrelevant [showBanner; checkout]
           [checkout; showBanner] None).
  - apply perm_swap.
  - apply NoDup_cons_2.
    + intros Hin. apply list_elem_of_singleton in Hin. discriminate.
    + apply NoDup_singleton.
Defined.

Lemma entries_come_from_live_features_witness :
  exists f s,
    f ∈ [archivedBanner; showBanner] /\ id f = "show-banner"
    /\ lookupSettings f (default "production" None) = Some s
    /\ env_enabled s = true /\ truthy_opt_bool (archived f) = false
    /\ def_defaultValue
         {| def_defaultValue := JBool true;
            def_rules := Some (compileRules "boolean"
                                 (Some [exampleRule None
                                          (RolloutRule "false" 1.5 (Some "id"))])) |}
       = getJSONValue (valueType f) (defaultValue f)
    /\ def_rules
         {| def_defaultValue := JBool true;
            def_rules := Some (compileRules "boolean"
                                 (Some [exampleRule None
                                          (RolloutRule "false" 1.5 (Some "id"))])) |}
       <> Some []
    /\ length (default []
                 (def_rules
                    {| def_defaultValue := JBool true;
                       def_rules :=
                         Some (compileRules "boolean"
                                 (Some [exampleRule None
                                          (RolloutRule "false" 1.5 (Some "id"))])) |}))
       = length (List.filter (fun r => truthy_opt_bool (rule_enabled r))
                   (default [] (env_rules s))).
Proof.
  apply (entries_come_from_live_features [archivedBanner; showBanner] None
           "show-banner").
  vm_compute. reflexivity.
Defined.

Lemma experiment_rule_compiles_witness :
  variations (compileRule "boolean" namespacedRule)
  = Some [JBool true; JBool false]
  /\ (exists ws, weights (compileRule "boolean" namespacedRule) = Some ws
                 /\ length ws = 2%nat)
  /\ coverage (compileRule "boolean" namespacedRule) = Some 1%float
  /\ force (compileRule "boolean" namespacedRule) = None
  /\ (forall a, key (compileRule "boolean" namespacedRule) = Some a
                <-> Some "exp" = Some a /\ a <> "")
  /\ (forall a, hashAttribute (compileRule "boolean" namespacedRule) = Some a
                <-> None = Some a /\ a <> "").
Proof.
  apply (experiment_rule_compiles "boolean" namespacedRule _ _ _ _ _ eq_refl).
Defined.


Lemma arrayMove_moves_witness :
  length (arrayMove "" ["a"; "b"; "c"; "d"] 0 (-1)) = 4%nat
  /\ arrayMove "" ["a"; "b"; "c"; "d"] 0 (-1) !! 3%nat = Some "a"
  /\ arrayMove "" ["a"; "b"; "c"; "d"] 0 (-1) ≡ₚ ["a"; "b"; "c"; "d"]
  /\ delete 3%nat (arrayMove "" ["a"; "b"; "c"; "d"] 0 (-1)) = ["b"; "c"; "d"].
Proof.
  apply (arrayMove_moves "" ["a"; "b"; "c"; "d"] 0 (-1)); cbn [length]; lia.
Defined.

Lemma arrayMove_back_witness :
  arrayMove "" (arrayMove "" ["a"; "b"; "c"; "d"] 0 2) 2 0
  = ["a"; "b"; "c"; "d"].
Proof.
  apply (arrayMove_back "" ["a"; "b"; "c"; "d"] 0 2); cbn [length]; lia.
Defined.

Lemma arrayMove_past_end_witness :
  arrayMove "" ["a"; "b"] 5 1 = ["a"; ""; "b"]
  /\ length (arrayMove "" ["a"; "b"] 5 1) = 3%nat.
Proof.
  apply (arrayMove_past_end "" ["a"; "b"] 5 1); cbn [length]; lia.
Defined.

Lemma addIdsToRules_identifies_every_rule_witness :
  (exists i,
     rule_id {| rule_id := Some "fr_0"; rule_description := "";
                rule_condition := None; rule_enabled := Some true;
                rule_fields :=
                  ExperimentRule [] 1 (Some "checkout") None None |}
     = Some i /\ i <> "")
  /\ exists t, Some "checkout" = Some t /\ t <> "".
Proof.
  refine (addIdsToRules_identifies_every_rule
            {[ "production" :=
                 {| env_enabled := true;
                    env_rules :=
                      Some [exampleRule None
                              (ExperimentRule [] 1 None None None)] |} ]}
            "checkout" initialWorld
            {[ "production" :=
                 {| env_enabled := true;
                    env_rules :=
                      Some [ {| rule_id := Some "fr_0"; rule_description := "";
                                rule_condition := None;
                                rule_enabled := Some true;
                                rule_fields :=
                                  ExperimentRule [] 1 (Some "checkout")
                                    None None |} ] |} ]}
            {| calls := []; clockReads := 0; idsGiven := 1 |}
            _ _ "production"
            {| env_enabled := true;
               env_rules :=
                 Some [ {| rule_id := Some "fr_0"; rule_description := "";
                           rule_condition := None; rule_enabled := Some true;
                           rule_fields :=
                             ExperimentRule [] 1 (Some "checkout")
                               None None |} ] |}
            _ _ _ eq_refl _).
  - discriminate.
  - vm_compute. reflexivity.
  - vm_compute. reflexivity.
  - left. reflexivity.
Defined.

Lemma created_feature_is_the_persisted_one_witness :
  (exists key, p_id (examplePartial "number" "1e2") = Some key
               /\ id (createdFeature "number" "100") = toLowerCase key
               /\ matches_key_pattern key = true)
  /\ matches_key_pattern (id (createdFeature "number" "100")) = true
  /\ toLowerCase (id (createdFeature "number" "100"))
     = id (createdFeature "number" "100")
  /\ archived (createdFeature "number" "100")
     = Some (default false (p_archived (examplePartial "number" "1e2")))
  /\ includes (valueType (createdFeature "number" "100"))
       ["boolean"; "number"; "string"; "json"] = true
  /\ organization (createdFeature "number" "100") <> ""
  /\ (exists own, owner (createdFeature "number" "100") = Some (JStr own)
                  /\ own <> "")
  /\ dateCreated (createdFeature "number" "100")
     = Date_now (clockReads initialWorld)
  /\ dateUpdated (createdFeature "number" "100")
     = Date_now (S (clockReads initialWorld))
  /\ createFeature_outcome (createdFeature "number" "100") = Return tt
  /\ calls (snd (createFeatureService (examplePartial "number" "1e2")
                   initialWorld))
     = (calls initialWorld ++
        [CreateFeature (createdFeature "number" "100");
         QueueWebhook (organization (createdFeature "number" "100"))
           (getEnabledEnvironments (createdFeature "number" "100"))
           [JStr ""; or_empty (project (createdFeature "number" "100"))]
           true])%list.
Proof.
  apply (created_feature_is_the_persisted_one (examplePartial "number" "1e2")
           initialWorld).
  vm_compute. reflexivity.
Defined.

Lemma failed_creation_queues_no_webhook_witness :
  calls (snd (createFeatureService (examplePartial "json" "{bad") initialWorld))
  = calls initialWorld
  \/ exists f,
       calls (snd (createFeatureService (examplePartial "json" "{bad")
                     initialWorld))
       = (calls initialWorld ++ [CreateFeature f])%list
       /\ createFeature_outcome f
          = Throw (mkError "JSON parse error for default value").
Proof.
  apply (failed_creation_queues_no_webhook (examplePartial "json" "{bad")
           initialWorld).
  vm_compute. reflexivity.
Defined.

Lemma update_without_project_witness :
  updateFeatureService [("description", JNull); ("tags", JStr "beta")]
    showBanner "show-banner" initialWorld
  = (Return (spread showBanner [("description", JNull); ("tags", JStr "beta")]),
     {| calls := [UpdateFeature "org" "show-banner"
                    [("description", JNull); ("tags", JStr "beta")]
                    1700000000000];
        clockReads := 1; idsGiven := 0 |})
  /\ tags (spread showBanner [("description", JNull); ("tags", JStr "beta")])
     = Some (JStr "beta")
  /\ description
       (spread showBanner [("description", JNull); ("tags", JStr "beta")])
     = Some JNull
  /\ project (spread showBanner [("description", JNull); ("tags", JStr "beta")])
     = None
  /\ owner (spread showBanner [("description", JNull); ("tags", JStr "beta")])
     = Some (JStr "owner").
Proof.
  refine (update_without_project
            [("description", JNull); ("tags", JStr "beta")] showBanner
            "show-banner" initialWorld _ _ _).
  - intros k [<- | [<- | []]]; [right; left | left]; reflexivity.
  - apply NoDup_cons_2; [|apply NoDup_singleton].
    intros Hin. apply list_elem_of_singleton in Hin. discriminate.
  - left. reflexivity.
Defined.

Lemma update_with_unknown_project_witness :
  updateFeatureService [("project", JStr "nowhere")] showBanner "show-banner"
    initialWorld
  = (Throw (mkError "Project not found"),
     {| calls := [FindProjectById (JStr "nowhere") "org"];
        clockReads := 0; idsGiven := 0 |}).
Proof.
  apply (update_with_unknown_project [("project", JStr "nowhere")] showBanner
           "show-banner" initialWorld (JStr "nowhere")).
  - intros k [<- | []]. right. right. left. reflexivity.
  - reflexivity.
  - reflexivity.
  - reflexivity.
Defined.

Lemma update_with_known_project_witness :
  (exists w',
     updateFeatureService [("project", JStr "growth"); ("description", JNull)]
       showBanner "show-banner" initialWorld
     = (Return
          (spread showBanner [("project", JStr "growth"); ("description", JNull)]),
        w')
     /\ calls w'
        = [FindProjectById (JStr "growth") "org";
           UpdateFeature "org" "show-banner"
             [("project", JStr "growth"); ("description", JNull)]
             1700000000000;
           QueueWebhook "org" ["production"; "production"]
             [JStr ""; JStr "growth"] true])
  /\ project
       (spread showBanner [("project", JStr "growth"); ("description", JNull)])
     = Some (JStr "growth")
  /\ description
       (spread showBanner [("project", JStr "growth"); ("description", JNull)])
     = Some JNull.
Proof.
  destruct (update_with_known_project
              [("project", JStr "growth"); ("description", JNull)] showBanner
              "show-banner" initialWorld (JStr "growth"))
    as ((w' & Hrun & Hcalls) & Hproject & _ & Hdescription & _).
  - intros k [<- | [<- | []]]; [right; right; left | right; left]; reflexivity.
  - apply NoDup_cons_2; [|apply NoDup_singleton].
    intros Hin. apply list_elem_of_singleton in Hin. discriminate.
  - reflexivity.
  - reflexivity.
  - reflexivity.
  - reflexivity.
  - split; [|split; [exact Hproject | exact Hdescription]].
    exists w'. split; [exact Hrun|].
    rewrite Hcalls. vm_compute. reflexivity.
Defined.

Lemma update_keeps_protected_fields_witness :
  spread showBanner [("project", JStr "growth"); ("owner", JNum 7)]
  = spread showBanner [("project", JStr "growth"); ("owner", JNum 7)]
  /\ (forall k,
        In k (map fst [("project", JStr "growth"); ("owner", JNum 7)]) ->
        In k allowedKeys)
  /\ tags (spread showBanner [("project", JStr "growth"); ("owner", JNum 7)])
     = None
  /\ description
       (spread showBanner [("project", JStr "growth"); ("owner", JNum 7)])
     = None
  /\ project
       (spread showBanner [("project", JStr "growth"); ("owner", JNum 7)])
     = Some (JStr "growth")
  /\ owner (spread showBanner [("project", JStr "growth"); ("owner", JNum 7)])
     = Some (JNum 7)
  /\ id (spread showBanner [("project", JStr "growth"); ("owner", JNum 7)])
     = id showBanner
  /\ organization
       (spread showBanner [("project", JStr "growth"); ("owner", JNum 7)])
     = organization showBanner
  /\ valueType
       (spread showBanner [("project", JStr "growth"); ("owner", JNum 7)])
     = valueType showBanner
  /\ defaultValue
       (spread showBanner [("project", JStr "growth"); ("owner", JNum 7)])
     = defaultValue showBanner
  /\ archived
       (spread showBanner [("project", JStr "growth"); ("owner", JNum 7)])
     = archived showBanner
  /\ environmentSettings
       (spread showBanner [("project", JStr "growth"); ("owner", JNum 7)])
     = environmentSettings showBanner
  /\ getEnabledEnvironments
       (spread showBanner [("project", JStr "growth"); ("owner", JNum 7)])
     = getEnabledEnvironments showBanner
  /\ draft (spread showBanner [("project", JStr "growth"); ("owner", JNum 7)])
     = draft showBanner
  /\ revision
       (spread showBanner [("project", JStr "growth"); ("owner", JNum 7)])
     = revision showBanner
  /\ dateCreated
       (spread showBanner [("project", JStr "growth"); ("owner", JNum 7)])
     = dateCreated showBanner
  /\ dateUpdated
       (spread showBanner [("project", JStr "growth"); ("owner", JNum 7)])
     = dateUpdated showBanner
  /\ In (UpdateFeature (organization showBanner) "show-banner"
           [("project", JStr "growth"); ("owner", JNum 7)]
           (Date_now (clockReads initialWorld)))
        (calls (snd (updateFeatureService
                       [("project", JStr "growth"); ("owner", JNum 7)]
                       showBanner "show-banner" initialWorld)))
  /\ updateFeature_outcome (organization showBanner) "show-banner"
       [("project", JStr "growth"); ("owner", JNum 7)]
       (Date_now (clockReads initialWorld))
     = Return tt.
Proof.
  apply (update_keeps_protected_fields
           [("project", JStr "growth"); ("owner", JNum 7)] showBanner
           "show-banner" initialWorld).
  - vm_compute. reflexivity.
  - apply NoDup_cons_2; [|apply NoDup_singleton].
    intros Hin. apply list_elem_of_singleton in Hin. discriminate.
Defined.


Lemma addIdsToRules_idempotent_witness :
  addIdsToRules (environmentSettings (createdFeature "boolean" "true"))
    "show-banner" initialWorld
  = (Return (environmentSettings (createdFeature "boolean" "true")),
     initialWorld).
Proof.
  apply (addIdsToRules_idempotent (environmentSettings showBanner) _
           "show-banner" initialWorld
           {| calls := []; clockReads := 0; idsGiven := 1 |}).
  vm_compute. reflexivity.
Defined.

Lemma createFeatureService_total_witness :
  exists f w',
    createFeatureService (examplePartial "number" "1e2") initialWorld
    = (Return f, w')
    /\ defaultValue f = "100".
Proof.
  apply (createFeatureService_total (examplePartial "number" "1e2")
           initialWorld "Show-Banner" "org" "owner" "number" "1e2" "100");
    try reflexivity; discriminate.
Defined.
